(** * Forensic Pulse: the data projection and simulation overlay engine

    A shallow embedding of the client-side core of Forensic Pulse
    (mappers.ts, NetworkGraph.tsx, SimulatorPanel.tsx, UploadScreen.tsx,
    App.tsx, api.ts) and of the views that show its entities (Sidebar.tsx,
    ChartsView.tsx, AccountExplorer.tsx, RingsTable.tsx,
    AccountDetailPanel.tsx, ScoreBar.tsx), with the properties its
    specification states about it and further properties of the code.

    Conventions of the embedding.
    - A TypeScript [number] is a rational ([Q]) with exact arithmetic; the
      IEEE special values appear only where the code can observe them
      ([parseFloat], see [JsNumber]).
    - A TypeScript [string] is a [string]; an optional field is an [option].
    - A JS [Map] keyed by strings and only used through has/get/set is a
      [gmap string _].
    - [Math.random()] and [new Date()] are read from an explicit
      environment, one reading per call site execution. *)

From Stdlib Require Import Ascii QArith Qround Qabs Qminmax Lqa.
From stdpp Require Import gmap strings list pretty sorting.

(** ** JavaScript numbers and the [Math] functions the code uses *)

Definition number : Type := Q.

(** [Math.round]: the nearest integer, ties towards plus infinity. *)
Definition Math_round (x : Q) : Q := inject_Z (Qfloor (x + (1 # 2))).

Definition Math_min (x y : Q) : Q := Qmin x y.
Definition Math_max (x y : Q) : Q := Qmax x y.
Definition Math_abs (x : Q) : Q := Qabs x.

(** Truncation towards zero, as used by the [%] operator. *)
Definition Qtrunc (x : Q) : Z :=
  if Qle_bool 0 x then Qfloor x else Qceiling x.

(** [x % y] on numbers: the remainder has the sign of the dividend. *)
Definition js_rem (x y : Q) : Q := (x - y * inject_Z (Qtrunc (x / y)))%Q.

(** [Number(x.toFixed(1))]: [x] rounded to one decimal. *)
Definition toFixed1 (x : Q) : Q := (Math_round (x * 10) / 10)%Q.

(** [i.toString().padStart(width, '0')]. *)
Definition padStart0 (width : nat) (s : string) : string :=
  String.concat "" (replicate (width - String.length s) "0") +:+ s.

(** [s.slice(-6)]: the last six characters (all of [s] when it is shorter). *)
Definition slice_last6 (s : string) : string :=
  String.substring (String.length s - 6) 6 s.

(** The two sources of non-determinism of the mapper: the k-th result of
    [Math.random()] and the k-th reading of [new Date().toISOString()]
    during one call. *)
Record Env := {
  Math_random : nat → Q;
  Date_toISOString : nat → string
}.

(** ** Backend response types (api.ts) *)

Module ApiSummary.
Record t := {
  total_accounts_analyzed : number;
  suspicious_accounts_flagged : number;
  fraud_rings_detected : number;
  processing_time_seconds : number;
  total_transactions : number;
  total_nodes : number;
  total_edges : number;
  circular_loops_found : number;
  smurfing_patterns_found : number;
  layering_chains_found : number;
  total_fraud_rings : number;
  high_risk_accounts : number;
  medium_risk_accounts : number;
  total_flagged_amount : number
}.
End ApiSummary.

Module ApiSuspiciousAccount.
Record t := {
  account_id : string;
  suspicion_score : number;
  detected_patterns : list string;
  ring_id : string;
  in_degree : number;
  out_degree : number;
  total_volume : number;
  transaction_count : number;
  ring_count : number;
  pattern_types : list string;
  merchant_factor : number
}.
End ApiSuspiciousAccount.

Module ApiFraudRing.
Record t := {
  ring_id : string;
  pattern_type : string;
  member_accounts : list string;
  member_count : number;
  risk_score : number;
  total_amount : number;
  edges : list (string * string);
  center_node : option string
}.
End ApiFraudRing.

Module ApiGraphNode.
Record t := {
  id : string;
  suspicious : bool;
  suspicion_score : number;
  in_degree : number;
  out_degree : number;
  ring_ids : list string;
  total_volume : number;
  transaction_count : number
}.
End ApiGraphNode.

Module ApiGraphEdge.
Record t := {
  source : string;
  target : string;
  suspicious : bool;
  total_amount : number;
  count : number
}.
End ApiGraphEdge.

Module ApiGraph.
Record t := {
  nodes : list ApiGraphNode.t;
  edges : list ApiGraphEdge.t
}.
End ApiGraph.

(** The response as it arrives from [response.json()]: the TypeScript
    interface is erased at run time, so each top-level property may be
    absent ([None] is JavaScript's [undefined]). *)
Module AnalysisResponse.
Record t := {
  suspicious_accounts : option (list ApiSuspiciousAccount.t);
  fraud_rings : option (list ApiFraudRing.t);
  summary : option ApiSummary.t;
  graph : option ApiGraph.t
}.

(** A response that has the four properties its interface declares. *)
Definition complete (sa : list ApiSuspiciousAccount.t) (rings : list ApiFraudRing.t)
    (sm : ApiSummary.t) (g : ApiGraph.t) : t :=
  {| suspicious_accounts := Some sa; fraud_rings := Some rings;
     summary := Some sm; graph := Some g |}.
End AnalysisResponse.

(** ** Frontend entity types (mockData.ts) *)

Inductive Direction := dir_in | dir_out.

Definition Direction_eqb (a b : Direction) : bool :=
  match a, b with
  | dir_in, dir_in | dir_out, dir_out => true
  | _, _ => false
  end.

Module Connection.
Record t := {
  targetId : string;
  direction : Direction;
  amount : number
}.
End Connection.

Module BehavioralDna.
Record t := {
  velocity : number;
  amtVariance : number;
  fanSymmetry : number;
  temporalCluster : number;
  hopDepth : number;
  amtDecay : number
}.
End BehavioralDna.

Module NetworkStats.
Record t := {
  totalIn : number;
  totalOut : number;
  txCount : number;
  avgHoldTime : number
}.
End NetworkStats.

Inductive AccountStatus := active | frozen | investigation.

Module Account.
Record t := {
  id : string;
  suspicionScore : number;
  inDegree : number;
  outDegree : number;
  volume : number;
  patterns : list string;
  status : AccountStatus;
  ringId : option string;
  behavioralDna : BehavioralDna.t;
  networkStats : NetworkStats.t;
  connections : list Connection.t
}.
End Account.

Module FraudRing.
Record t := {
  id : string;
  patternType : string;
  memberCount : number;
  riskScore : number;
  accountIds : list string
}.
End FraudRing.

Module Transaction.
Record t := {
  id : string;
  source : string;
  target : string;
  amount : number;
  timestamp : string;
  isFraud : bool
}.
End Transaction.

(** ** Completions: a JavaScript call returns a value or throws *)

Inductive Completion (A : Type) :=
| Return (a : A)
| Throw (error : string).
Arguments Return {A} a.
Arguments Throw {A} error.

Definition bind {A B} (c : Completion A) (k : A → Completion B) : Completion B :=
  match c with
  | Return a => k a
  | Throw e => Throw e
  end.

Notation "'let!' x ':=' c 'in' k" := (bind c (fun x => k))
  (at level 10, x name, c at level 100, k at level 200).

(** Using an [undefined] property as an object (calling [.map] on it,
    reading a property of it, iterating it) throws a [TypeError]. *)
Definition TypeError : string := "TypeError".

Definition defined {A} (field : option A) : Completion A :=
  match field with
  | Some a => Return a
  | None => Throw TypeError
  end.

(** ** The response mapper (mappers.ts) *)

Definition PATTERN_MAP : gmap string string :=
  <["layering" := "Layering"]>
  (<["fan_out" := "Smurfing Fan-out"]>
  (<["fan_in" := "Smurfing Fan-in"]>
  (<["cycle" := "Circular Loop"]> ∅))).

(** [PATTERN_MAP[backendType] || backendType]; the four table entries are
    non-empty strings, so [||] falls through on a missing key only. *)
Definition mapPatternType (backendType : string) : string :=
  default backendType (PATTERN_MAP !! backendType).

(** [new Map(suspicious_accounts.map(a => [a.account_id, a]))]: entries are
    set in array order, so the last entry for an id is the one kept. *)
Definition accountScoreMap (suspicious_accounts : list ApiSuspiciousAccount.t)
    : gmap string ApiSuspiciousAccount.t :=
  foldl (fun m a => <[ApiSuspiciousAccount.account_id a := a]> m) ∅ suspicious_accounts.

(** [if (!map.has(key)) map.set(key, []); map.get(key)!.push(c)]. *)
Definition push_connection (key : string) (c : Connection.t)
    (m : gmap string (list Connection.t)) : gmap string (list Connection.t) :=
  let m1 := if bool_decide (is_Some (m !! key)) then m else <[key := []]> m in
  <[key := default [] (m1 !! key) ++ [c]]> m1.

(** One iteration of the loop over [graph.edges]. *)
Definition add_edge (m : gmap string (list Connection.t)) (edge : ApiGraphEdge.t)
    : gmap string (list Connection.t) :=
  let m1 :=
    push_connection (ApiGraphEdge.source edge)
      {| Connection.targetId := ApiGraphEdge.target edge;
         Connection.direction := dir_out;
         Connection.amount := ApiGraphEdge.total_amount edge |} m in
  push_connection (ApiGraphEdge.target edge)
    {| Connection.targetId := ApiGraphEdge.source edge;
       Connection.direction := dir_in;
       Connection.amount := ApiGraphEdge.total_amount edge |} m1.

Definition connectionsMap (edges : list ApiGraphEdge.t) : gmap string (list Connection.t) :=
  foldl add_edge ∅ edges.

(** [if (!nodeRingMap.has(memberId)) nodeRingMap.set(memberId, ring.ring_id)]. *)
Definition add_member (ring_id : string) (m : gmap string string) (memberId : string)
    : gmap string string :=
  if bool_decide (is_Some (m !! memberId)) then m else <[memberId := ring_id]> m.

Definition add_ring (m : gmap string string) (ring : ApiFraudRing.t) : gmap string string :=
  foldl (add_member (ApiFraudRing.ring_id ring)) m (ApiFraudRing.member_accounts ring).

Definition nodeRingMap (fraud_rings : list ApiFraudRing.t) : gmap string string :=
  foldl add_ring ∅ fraud_rings.

(** [connections.filter(c => c.direction === d).reduce((sum, c) => sum + c.amount, 0)]. *)
Definition total_of (d : Direction) (connections : list Connection.t) : Q :=
  foldl (fun sum c => (sum + Connection.amount c)%Q) 0%Q
        (filter (fun c => Direction_eqb (Connection.direction c) d = true) connections).

(** The [behavioralDna] object literal, from the numbers it reads. *)
Definition behavioralDna (transaction_count in_degree out_degree total_volume : Q)
    (ring_ids_length : nat) (score totalOut : Q) : BehavioralDna.t :=
  {| BehavioralDna.velocity :=
       Math_min 100 (Math_round
         (transaction_count / Math_max 1 (in_degree + out_degree) * 20));
     BehavioralDna.amtVariance :=
       Math_min 100 (Math_round (js_rem (total_volume / 10000) 100));
     BehavioralDna.fanSymmetry :=
       if Qlt_le_dec 0 (in_degree + out_degree)
       then Math_round (Math_abs (in_degree - out_degree) / (in_degree + out_degree) * 100)
       else 0;
     BehavioralDna.temporalCluster := Math_min 100 (Math_round (score * (8 # 10)));
     BehavioralDna.hopDepth :=
       Math_min 100 (if decide (0 < ring_ids_length)%nat
                     then 60 + Math_round (score * (4 # 10))
                     else Math_round (score * (3 # 10)));
     BehavioralDna.amtDecay :=
       Math_min 100 (Math_round
         (if Qlt_le_dec 0 total_volume
          then totalOut / Math_max 1 total_volume * 100
          else 0)) |}%Q.

Definition behavioralDna_of (node : ApiGraphNode.t) (score totalOut : Q) : BehavioralDna.t :=
  behavioralDna (ApiGraphNode.transaction_count node)
    (ApiGraphNode.in_degree node) (ApiGraphNode.out_degree node)
    (ApiGraphNode.total_volume node) (length (ApiGraphNode.ring_ids node)) score totalOut.

(** The callback of [graph.nodes.map], for the node at index [i]; it makes
    the [i]-th call of [Math.random()]. *)
Definition account_of (env : Env)
    (scores : gmap string ApiSuspiciousAccount.t)
    (conns : gmap string (list Connection.t))
    (ringOf : gmap string string)
    (i : nat) (node : ApiGraphNode.t) : Account.t :=
  let acct := scores !! ApiGraphNode.id node in
  let connections := default [] (conns !! ApiGraphNode.id node) in
  let totalIn := total_of dir_in connections in
  let totalOut := total_of dir_out connections in
  let score :=
    match acct with
    | Some a => ApiSuspiciousAccount.suspicion_score a
    | None => ApiGraphNode.suspicion_score node
    end in
  {| Account.id := ApiGraphNode.id node;
     Account.suspicionScore := score;
     Account.inDegree := ApiGraphNode.in_degree node;
     Account.outDegree := ApiGraphNode.out_degree node;
     Account.volume := ApiGraphNode.total_volume node;
     Account.patterns :=
       match acct with
       | Some a => ApiSuspiciousAccount.detected_patterns a
       | None => []
       end;
     Account.status := active;
     Account.ringId := ringOf !! ApiGraphNode.id node;
     Account.behavioralDna := behavioralDna_of node score totalOut;
     Account.networkStats :=
       {| NetworkStats.totalIn := Math_round totalIn;
          NetworkStats.totalOut := Math_round totalOut;
          NetworkStats.txCount := ApiGraphNode.transaction_count node;
          NetworkStats.avgHoldTime := toFixed1 (Math_random env i * 24 + 1)%Q |};
     Account.connections := connections |}.

Definition mapApiToAccounts (env : Env) (response : AnalysisResponse.t)
    : Completion (list Account.t) :=
  let! suspicious_accounts := defined (AnalysisResponse.suspicious_accounts response) in
  let scores := accountScoreMap suspicious_accounts in
  let! graph := defined (AnalysisResponse.graph response) in
  let conns := connectionsMap (ApiGraph.edges graph) in
  let! fraud_rings := defined (AnalysisResponse.fraud_rings response) in
  let ringOf := nodeRingMap fraud_rings in
  Return (imap (account_of env scores conns ringOf) (ApiGraph.nodes graph)).

Definition ring_of (ring : ApiFraudRing.t) : FraudRing.t :=
  {| FraudRing.id := ApiFraudRing.ring_id ring;
     FraudRing.patternType := mapPatternType (ApiFraudRing.pattern_type ring);
     FraudRing.memberCount := ApiFraudRing.member_count ring;
     FraudRing.riskScore := ApiFraudRing.risk_score ring;
     FraudRing.accountIds := ApiFraudRing.member_accounts ring |}.

Definition mapApiToRings (response : AnalysisResponse.t) : Completion (list FraudRing.t) :=
  let! fraud_rings := defined (AnalysisResponse.fraud_rings response) in
  Return (map ring_of fraud_rings).

(** The callback of [graph.edges.map]; it makes the [i]-th call of
    [new Date().toISOString()]. *)
Definition transaction_of (env : Env) (i : nat) (edge : ApiGraphEdge.t) : Transaction.t :=
  {| Transaction.id := "TX_" +:+ padStart0 6 (pretty i);
     Transaction.source := ApiGraphEdge.source edge;
     Transaction.target := ApiGraphEdge.target edge;
     Transaction.amount := ApiGraphEdge.total_amount edge;
     Transaction.timestamp := Date_toISOString env i;
     Transaction.isFraud := ApiGraphEdge.suspicious edge |}.

Definition mapApiToTransactions (env : Env) (response : AnalysisResponse.t)
    : Completion (list Transaction.t) :=
  let! graph := defined (AnalysisResponse.graph response) in
  Return (imap (transaction_of env) (ApiGraph.edges graph)).

(** ** The connection index *)

(** The entries an edge contributes to the list kept under [u]: an [out]
    entry when [u] is its source, then an [in] entry when [u] is its target. *)
Definition incident (u : string) (edge : ApiGraphEdge.t) : list Connection.t :=
  (if decide (ApiGraphEdge.source edge = u)
   then [ {| Connection.targetId := ApiGraphEdge.target edge;
             Connection.direction := dir_out;
             Connection.amount := ApiGraphEdge.total_amount edge |} ]
   else []) ++
  (if decide (ApiGraphEdge.target edge = u)
   then [ {| Connection.targetId := ApiGraphEdge.source edge;
             Connection.direction := dir_in;
             Connection.amount := ApiGraphEdge.total_amount edge |} ]
   else []).

(** ** Connection symmetry, as the specification states it *)

Definition count {A} (p : A → bool) (l : list A) : nat := length (List.filter p l).

(** [c] is the entry [{targetId: peer, direction: d, amount}]. *)
Definition is_connection (d : Direction) (peer : string) (amount : Q) (c : Connection.t) : bool :=
  Direction_eqb (Connection.direction c) d
  && bool_decide (Connection.targetId c = peer)
  && Qeq_bool (Connection.amount c) amount.

(** [e] is an edge [source -> target] of the given amount. *)
Definition is_edge (source target : string) (amount : Q) (e : ApiGraphEdge.t) : bool :=
  bool_decide (ApiGraphEdge.source e = source)
  && bool_decide (ApiGraphEdge.target e = target)
  && Qeq_bool (ApiGraphEdge.total_amount e) amount.

(** The edge an entry [c] of account [u] stands for. *)
Definition edge_of_connection (u : string) (c : Connection.t) : ApiGraphEdge.t → bool :=
  match Connection.direction c with
  | dir_out => is_edge u (Connection.targetId c) (Connection.amount c)
  | dir_in => is_edge (Connection.targetId c) u (Connection.amount c)
  end.

Definition has_exactly_one (d : Direction) (peer : string) (amount : Q)
    (accounts : list Account.t) (u : string) : Prop :=
  (∃ a, a ∈ accounts ∧ Account.id a = u) ∧
  (∀ a, a ∈ accounts → Account.id a = u →
        count (is_connection d peer amount) (Account.connections a) = 1%nat).

Definition connection_symmetric (edges : list ApiGraphEdge.t)
    (accounts : list Account.t) (transactions : list Transaction.t) : Prop :=
  (∀ tx, tx ∈ transactions →
     has_exactly_one dir_out (Transaction.target tx) (Transaction.amount tx)
                     accounts (Transaction.source tx) ∧
     has_exactly_one dir_in (Transaction.source tx) (Transaction.amount tx)
                     accounts (Transaction.target tx)) ∧
  (∀ a c, a ∈ accounts → c ∈ Account.connections a →
     count (edge_of_connection (Account.id a) c) edges = 1%nat).

(** The property for one response: whatever the mapper returns on it is
    connection-symmetric. *)
Definition symmetric_projection (response : AnalysisResponse.t) : Prop :=
  ∀ env g accounts transactions,
    AnalysisResponse.graph response = Some g →
    mapApiToAccounts env response = Return accounts →
    mapApiToTransactions env response = Return transactions →
    connection_symmetric (ApiGraph.edges g) accounts transactions.

(** Two well-formedness conditions of the engine's graph that the mapper
    relies on but does not check. *)
Definition same_edge (e e' : ApiGraphEdge.t) : bool :=
  is_edge (ApiGraphEdge.source e) (ApiGraphEdge.target e) (ApiGraphEdge.total_amount e) e'.

Fixpoint edges_distinct (edges : list ApiGraphEdge.t) : bool :=
  match edges with
  | [] => true
  | e :: rest => forallb (fun e' => negb (same_edge e e')) rest && edges_distinct rest
  end.

Definition is_node_id (g : ApiGraph.t) (u : string) : bool :=
  existsb (fun n => bool_decide (ApiGraphNode.id n = u)) (ApiGraph.nodes g).

Definition endpoints_are_nodes (g : ApiGraph.t) : bool :=
  forallb (fun e => is_node_id g (ApiGraphEdge.source e) && is_node_id g (ApiGraphEdge.target e))
          (ApiGraph.edges g).

(** ** Score bounds, as the specification states them *)

Definition in_0_100 (x : Q) : Prop := (0 <= x <= 100)%Q.

Definition dna_in_bounds (d : BehavioralDna.t) : Prop :=
  in_0_100 (BehavioralDna.velocity d) ∧ in_0_100 (BehavioralDna.amtVariance d) ∧
  in_0_100 (BehavioralDna.fanSymmetry d) ∧ in_0_100 (BehavioralDna.temporalCluster d) ∧
  in_0_100 (BehavioralDna.hopDepth d) ∧ in_0_100 (BehavioralDna.amtDecay d).

Definition scores_in_bounds (a : Account.t) : Prop :=
  in_0_100 (Account.suspicionScore a) ∧ dna_in_bounds (Account.behavioralDna a).

(** The property for one response: every account the mapper returns on it
    has its score and its six behavioral metrics within 0..100. *)
Definition all_scores_bounded (response : AnalysisResponse.t) : Prop :=
  ∀ env accounts a,
    mapApiToAccounts env response = Return accounts → a ∈ accounts → scores_in_bounds a.

(** What the engine promises about the numbers it sends: scores within
    0..100, and degrees, counts, volumes and amounts not negative. *)
Definition node_in_range (n : ApiGraphNode.t) : Prop :=
  in_0_100 (ApiGraphNode.suspicion_score n) ∧
  (0 <= ApiGraphNode.in_degree n)%Q ∧ (0 <= ApiGraphNode.out_degree n)%Q ∧
  (0 <= ApiGraphNode.total_volume n)%Q ∧ (0 <= ApiGraphNode.transaction_count n)%Q.

Definition response_in_range (sa : list ApiSuspiciousAccount.t) (g : ApiGraph.t) : Prop :=
  (∀ a, a ∈ sa → in_0_100 (ApiSuspiciousAccount.suspicion_score a)) ∧
  (∀ n, n ∈ ApiGraph.nodes g → node_in_range n) ∧
  (∀ e, e ∈ ApiGraph.edges g → (0 <= ApiGraphEdge.total_amount e)%Q).

(** The same conditions as a check that can be run on a response. *)
Definition in_0_100b (x : Q) : bool := Qle_bool 0 x && Qle_bool x 100.

Definition node_in_rangeb (n : ApiGraphNode.t) : bool :=
  in_0_100b (ApiGraphNode.suspicion_score n)
  && Qle_bool 0 (ApiGraphNode.in_degree n) && Qle_bool 0 (ApiGraphNode.out_degree n)
  && Qle_bool 0 (ApiGraphNode.total_volume n) && Qle_bool 0 (ApiGraphNode.transaction_count n).

Definition response_in_rangeb (sa : list ApiSuspiciousAccount.t) (g : ApiGraph.t) : bool :=
  forallb (fun a => in_0_100b (ApiSuspiciousAccount.suspicion_score a)) sa
  && forallb node_in_rangeb (ApiGraph.nodes g)
  && forallb (fun e => Qle_bool 0 (ApiGraphEdge.total_amount e)) (ApiGraph.edges g).

(** ** Idempotence, as the specification states it *)

(** One run of the whole mapper. *)
Definition Mapper (env : Env) (response : AnalysisResponse.t)
    : Completion (list Account.t * list FraudRing.t * list Transaction.t) :=
  let! accounts := mapApiToAccounts env response in
  let! rings := mapApiToRings response in
  let! transactions := mapApiToTransactions env response in
  Return (accounts, rings, transactions).

(** The property for one response: two runs, whatever the random draws and
    the clock of each, return the same collections. *)
Definition idempotent_on (response : AnalysisResponse.t) : Prop :=
  ∀ env1 env2, Mapper env1 response = Mapper env2 response.

(** An account without its [avgHoldTime], a transaction without its
    [timestamp]: the two fields that have no backend source. *)
Definition without_avgHoldTime (a : Account.t) : Account.t :=
  {| Account.id := Account.id a;
     Account.suspicionScore := Account.suspicionScore a;
     Account.inDegree := Account.inDegree a;
     Account.outDegree := Account.outDegree a;
     Account.volume := Account.volume a;
     Account.patterns := Account.patterns a;
     Account.status := Account.status a;
     Account.ringId := Account.ringId a;
     Account.behavioralDna := Account.behavioralDna a;
     Account.networkStats :=
       {| NetworkStats.totalIn := NetworkStats.totalIn (Account.networkStats a);
          NetworkStats.totalOut := NetworkStats.totalOut (Account.networkStats a);
          NetworkStats.txCount := NetworkStats.txCount (Account.networkStats a);
          NetworkStats.avgHoldTime := 0%Q |};
     Account.connections := Account.connections a |}.

Definition without_timestamp (t : Transaction.t) : Transaction.t :=
  {| Transaction.id := Transaction.id t;
     Transaction.source := Transaction.source t;
     Transaction.target := Transaction.target t;
     Transaction.amount := Transaction.amount t;
     Transaction.timestamp := "";
     Transaction.isFraud := Transaction.isFraud t |}.

Definition without_placeholders
    (r : Completion (list Account.t * list FraudRing.t * list Transaction.t))
    : Completion (list Account.t * list FraudRing.t * list Transaction.t) :=
  let! entities := r in
  let '(accounts, rings, transactions) := entities in
  Return (without_avgHoldTime <$> accounts, rings, without_timestamp <$> transactions).

(** ** Simulation types (api.ts) *)

Module SimulationCycle.
Record t := {
  cycle_members : list string;
  cycle_length : number;
  cycle_risk_score : number
}.
End SimulationCycle.

Inductive ImpactType := joins | merges | escalates.

Module RingAffected.
Record t := {
  ring_id : string;
  impact_type : ImpactType;
  old_risk_score : number;
  new_risk_score : number;
  delta : number;
  description : string
}.
End RingAffected.

Module RingMerged.
Record t := {
  ring_a : string;
  ring_b : string;
  merged_member_count : number;
  merged_risk_score : number
}.
End RingMerged.

Module ScoreDelta.
Record t := {
  account_id : string;
  old_score : number;
  new_score : number;
  delta : number;
  delta_reason : string
}.
End ScoreDelta.

Module HypotheticalTx.
Record t := {
  sender_id : string;
  receiver_id : string;
  amount : number;
  timestamp : string
}.
End HypotheticalTx.

Inductive Verdict := DANGEROUS | WARNING | SUSPICIOUS | CLEAN.

Module SubgraphDelta.
Record t := {
  nodes_affected : number;
  edges_added : number;
  new_nodes_introduced : number
}.
End SubgraphDelta.

Module SimulationResult.
Record t := {
  simulation_id : string;
  hypothetical_tx : HypotheticalTx.t;
  verdict : Verdict;
  verdict_reason : string;
  new_cycles_created : list SimulationCycle.t;
  rings_affected : list RingAffected.t;
  rings_merged : list RingMerged.t;
  score_deltas : list ScoreDelta.t;
  new_smurfing_triggered : bool;
  smurfing_account : option string;
  new_shell_chain_extended : bool;
  chain_extension_detail : option string;
  subgraph_delta : SubgraphDelta.t;
  processing_time_ms : number
}.
End SimulationResult.

(** ** The graph model and the simulation overlay (NetworkGraph.tsx) *)

(** The [data] object of a cytoscape element: a node carries
    [{id, risk, ringId, label}], an edge [{id, source, target, isFraud}]. *)
Inductive ElementData :=
| NodeData (id : string) (risk : number) (ringId : option string) (label : string)
| EdgeData (id : string) (source target : string) (isFraud : bool).

Module Element.
Record t := {
  data : ElementData;
  classes : string
}.

Definition id (el : t) : string :=
  match data el with
  | NodeData id _ _ _ => id
  | EdgeData id _ _ _ => id
  end.

Definition is_node (el : t) : bool :=
  match data el with NodeData _ _ _ _ => true | EdgeData _ _ _ _ => false end.

Definition is_edge (el : t) : bool := negb (is_node el).
End Element.

(** JavaScript truthiness of a string and of an optional string. *)
Definition truthy (s : string) : bool := negb (bool_decide (s = "")).

Definition truthy_opt (s : option string) : bool :=
  match s with
  | Some s => truthy s
  | None => false
  end.

(** [x > y] on numbers. *)
Definition Qgtb (x y : Q) : bool := negb (Qle_bool x y).

(** [accounts.find(a => a.id === id)], used for its truthiness. *)
Definition find_account (accounts : list Account.t) (id : string) : option Account.t :=
  List.find (fun a => bool_decide (Account.id a = id)) accounts.

Definition activeAccounts (filterRingsOnly : bool) (accounts : list Account.t)
    : list Account.t :=
  if filterRingsOnly
  then List.filter (fun a => truthy_opt (Account.ringId a)) accounts
  else accounts.

Definition activeTransactions (active : list Account.t) (transactions : list Transaction.t)
    : list Transaction.t :=
  List.filter
    (fun t => bool_decide (is_Some (find_account active (Transaction.source t)))
              && bool_decide (is_Some (find_account active (Transaction.target t))))
    transactions.

Definition node_element (a : Account.t) : Element.t :=
  {| Element.data :=
       NodeData (Account.id a) (Account.suspicionScore a) (Account.ringId a)
                (slice_last6 (Account.id a));
     Element.classes :=
       if truthy_opt (Account.ringId a) then "ring-member"
       else if Qgtb (Account.suspicionScore a) 50 then "suspicious"
       else "clean" |}.

Definition edge_element (t : Transaction.t) : Element.t :=
  {| Element.data :=
       EdgeData (Transaction.id t) (Transaction.source t) (Transaction.target t)
                (Transaction.isFraud t);
     Element.classes := if Transaction.isFraud t then "fraud-edge" else "normal-edge" |}.

(** The element list before the overlay: one node per active account, then
    one edge per active transaction. *)
Definition base_elements (active : list Account.t) (transactions : list Transaction.t)
    : list Element.t :=
  map node_element active ++ map edge_element (activeTransactions active transactions).

(** The graph model builder of the specification: [build(accounts,
    transactions, filterRingsOnly)]. *)
Definition build (accounts : list Account.t) (transactions : list Transaction.t)
    (filterRingsOnly : bool) : list Element.t :=
  base_elements (activeAccounts filterRingsOnly accounts) transactions.

Definition affectedIds (sim : SimulationResult.t) : gset string :=
  list_to_set (map ScoreDelta.account_id (SimulationResult.score_deltas sim)).

Definition cycleIds (sim : SimulationResult.t) : gset string :=
  list_to_set (flat_map SimulationCycle.cycle_members (SimulationResult.new_cycles_created sim)).

Definition sim_node (id : string) : Element.t :=
  {| Element.data := NodeData id 0%Q None (slice_last6 id); Element.classes := "sim-node" |}.

Definition sim_edge (tx : HypotheticalTx.t) : Element.t :=
  {| Element.data :=
       EdgeData "SIM_EDGE" (HypotheticalTx.sender_id tx) (HypotheticalTx.receiver_id tx) false;
     Element.classes := "sim-edge" |}.

(** [if (el.data.id && ids.has(el.data.id)) el.classes = (el.classes || '') + tag]. *)
Definition add_tag (ids : gset string) (tag : string) (el : Element.t) : Element.t :=
  if truthy (Element.id el) && bool_decide (Element.id el ∈ ids)
  then {| Element.data := Element.data el; Element.classes := Element.classes el +:+ tag |}
  else el.

(** The body of the loop that marks affected and cycle nodes. *)
Definition mark (affected cycle : gset string) (el : Element.t) : Element.t :=
  add_tag cycle " sim-cycle" (add_tag affected " sim-affected" el).

(** The overlay step of the effect: [active] is [activeAccounts], the list
    the code consults to decide whether a hypothetical endpoint is already
    drawn. *)
Definition overlay (active : list Account.t) (elements : list Element.t)
    (simulationResult : option SimulationResult.t) : list Element.t :=
  match simulationResult with
  | None => elements
  | Some sim =>
      let tx := SimulationResult.hypothetical_tx sim in
      let affected := affectedIds sim in
      let cycle := cycleIds sim in
      let elements1 :=
        if bool_decide (is_Some (find_account active (HypotheticalTx.sender_id tx)))
        then elements
        else elements ++ [sim_node (HypotheticalTx.sender_id tx)] in
      let elements2 :=
        if bool_decide (is_Some (find_account active (HypotheticalTx.receiver_id tx)))
        then elements1
        else elements1 ++ [sim_node (HypotheticalTx.receiver_id tx)] in
      let elements3 := elements2 ++ [sim_edge tx] in
      map (mark affected cycle) elements3
  end.

(** The element list handed to cytoscape by the effect of [NetworkGraph]. *)
Definition NetworkGraph_elements (accounts : list Account.t)
    (transactions : list Transaction.t) (filterRingsOnly : bool)
    (simulationResult : option SimulationResult.t) : list Element.t :=
  let active := activeAccounts filterRingsOnly accounts in
  overlay active (base_elements active transactions) simulationResult.

(** The tags the overlay appends to the element with the given id. *)
Definition overlay_suffix (sim : SimulationResult.t) (id : string) : string :=
  (if truthy id && bool_decide (id ∈ affectedIds sim) then " sim-affected" else "")
  +:+ (if truthy id && bool_decide (id ∈ cycleIds sim) then " sim-cycle" else "").

(** A node with this id is in the element list. *)
Definition has_node (elements : list Element.t) (id : string) : bool :=
  existsb (fun el => Element.is_node el && bool_decide (Element.id el = id)) elements.

(** An element with the overlay's tags appended to its classes, its data
    untouched. *)
Definition tagged (sim : SimulationResult.t) (el : Element.t) : Element.t :=
  {| Element.data := Element.data el;
     Element.classes := Element.classes el +:+ overlay_suffix sim (Element.id el) |}.

(** What the overlay synthesizes for a hypothetical transaction, given the
    element list it is laid over. *)
Definition synthesized (elements : list Element.t) (tx : HypotheticalTx.t) : list Element.t :=
  (if has_node elements (HypotheticalTx.sender_id tx)
   then [] else [sim_node (HypotheticalTx.sender_id tx)]) ++
  (if has_node elements (HypotheticalTx.receiver_id tx)
   then [] else [sim_node (HypotheticalTx.receiver_id tx)]) ++
  [sim_edge tx].

(** The endpoints of an edge element are both drawn. *)
Definition edge_attached (elements : list Element.t) (el : Element.t) : bool :=
  match Element.data el with
  | NodeData _ _ _ _ => true
  | EdgeData _ source target _ => has_node elements source && has_node elements target
  end.

(** ** The simulation session (SimulatorPanel.tsx, api.ts) *)

(** A number as [parseFloat] can return it. *)
Inductive JsNumber :=
| NaN
| Finite (q : Q)
| Infinity (negative : bool).

(** [n > 0]. *)
Definition gt0 (n : JsNumber) : bool :=
  match n with
  | NaN => false
  | Finite q => Qgtb q 0
  | Infinity negative => negb negative
  end.

(** White space as [trim] and [parseFloat] skip it (the ASCII part: tab,
    line feed, vertical tab, form feed, carriage return, space). *)
Definition is_space (c : ascii) : bool :=
  let n := nat_of_ascii c in
  ((9 <=? n)%nat && (n <=? 13)%nat) || (n =? 32)%nat.

Fixpoint trimStart (s : string) : string :=
  match s with
  | EmptyString => EmptyString
  | String c rest => if is_space c then trimStart rest else s
  end.

Fixpoint trimEnd (s : string) : string :=
  match s with
  | EmptyString => EmptyString
  | String c rest =>
      match trimEnd rest with
      | EmptyString => if is_space c then EmptyString else String c EmptyString
      | kept => String c kept
      end
  end.

(** [s.trim()]. *)
Definition trim (s : string) : string := trimEnd (trimStart s).

Definition digit_of (c : ascii) : option Z :=
  let n := nat_of_ascii c in
  if ((48 <=? n)%nat && (n <=? 57)%nat) then Some (Z.of_nat (n - 48)) else None.

(** Reads a run of decimal digits: the value of [acc] extended by the
    digits, how many were read, and the rest of the input. *)
Fixpoint read_digits (s : string) (acc : Z) (read : nat) : Z * nat * string :=
  match s with
  | EmptyString => (acc, read, s)
  | String c rest =>
      match digit_of c with
      | Some d => read_digits rest (10 * acc + d)%Z (S read)
      | None => (acc, read, s)
      end
  end.

Definition read_sign (s : string) : bool * string :=
  match s with
  | String "-" rest => (true, rest)
  | String "+" rest => (false, rest)
  | _ => (false, s)
  end.

Definition pow10 (e : Z) : Q :=
  if (0 <=? e)%Z then inject_Z (10 ^ e) else (1 / inject_Z (10 ^ (- e)))%Q.

(** [parseFloat(s)]: the longest prefix of the trimmed input that is a
    decimal literal (sign, digits, fraction, exponent) or a signed
    [Infinity]; [NaN] when there is none. The value is exact, not rounded
    to the nearest double. *)
Definition parseFloat (s : string) : JsNumber :=
  let '(negative, s1) := read_sign (trimStart s) in
  if String.prefix "Infinity" s1 then Infinity negative
  else
    let '(int_part, int_digits, s2) := read_digits s1 0 0 in
    let '(mantissa, frac_digits, s3) :=
      match s2 with
      | String "." rest => read_digits rest int_part 0
      | _ => (int_part, 0%nat, s2)
      end in
    if (int_digits + frac_digits =? 0)%nat then NaN
    else
      let exponent :=
        match s3 with
        | String c rest =>
            if bool_decide (c = "e"%char) || bool_decide (c = "E"%char)
            then
              let '(exp_negative, s4) := read_sign rest in
              let '(e, exp_digits, _) := read_digits s4 0 0 in
              if (exp_digits =? 0)%nat then 0%Z else if exp_negative then (- e)%Z else e
            else 0%Z
        | EmptyString => 0%Z
        end in
      let magnitude :=
        (inject_Z mantissa * pow10 (exponent - Z.of_nat frac_digits))%Q in
      Finite (if negative then (- magnitude)%Q else magnitude).

Module HistoryEntry.
Record t := {
  sender : string;
  receiver : string;
  amount : JsNumber;
  result : SimulationResult.t
}.
End HistoryEntry.

(** The JSON body of [POST /api/simulate]. *)
Module SimulateBody.
Record t := {
  sender_id : string;
  receiver_id : string;
  amount : JsNumber;
  timestamp : option string
}.
End SimulateBody.

Inductive NetworkRequest :=
| POST_api_simulate (body : SimulateBody.t).

(** What [fetch] resolves to for a simulation request: a 2xx response with
    the result of parsing its body, or another status with its status text
    and the [detail] of its parsed body ([Throw] when the body is not JSON,
    [None] when it has no [detail]). *)
Inductive SimulateResponse :=
| response_ok (json : Completion SimulationResult.t)
| response_not_ok (status : nat) (statusText : string) (json : Completion (option string)).

(** [simulateTransaction]: always issues the request; returns the requests
    issued and how the call completes. *)
Definition simulateTransaction (fetch : SimulateBody.t → Completion SimulateResponse)
    (sender_id receiver_id : string) (amount : JsNumber) (timestamp : option string)
    : list NetworkRequest * Completion SimulationResult.t :=
  let body :=
    {| SimulateBody.sender_id := sender_id; SimulateBody.receiver_id := receiver_id;
       SimulateBody.amount := amount; SimulateBody.timestamp := timestamp |} in
  ([POST_api_simulate body],
   let! response := fetch body in
   match response with
   | response_ok json => json
   | response_not_ok status statusText json =>
       let detail :=
         match json with
         | Return detail => detail
         | Throw _ => Some statusText
         end in
       Throw (if truthy_opt detail then default "" detail
              else "Simulation failed (" +:+ pretty status +:+ ")")
   end).

(** [s.includes(t)]: [t] occurs in [s] as a run of consecutive characters. *)
Fixpoint includes (s t : string) : bool :=
  String.prefix t s
  || match s with
     | EmptyString => false
     | String _ rest => includes rest t
     end.

(** What [fetch('/api/accounts')] resolves to: a 2xx response with what
    reading [accounts] off its parsed body gives ([Throw] when the body is
    not JSON or is [null], [None] when the field is missing or falsy), or
    another status. *)
Inductive AccountsResponse :=
| accounts_ok (json : Completion (option (list string)))
| accounts_not_ok.

(** [fetchAccounts]; the argument is how the [fetch] call completes. *)
Definition fetchAccounts (fetch : Completion AccountsResponse) : Completion (list string) :=
  let! response := fetch in
  match response with
  | accounts_not_ok => Return []
  | accounts_ok json =>
      let! accounts := json in
      Return (default [] accounts)
  end.

Module SimulatorPanel.

(** The component state ([useState] cells). *)
Record State := {
  sender : string;
  receiver : string;
  amount : string;
  timestamp : string;
  loading : bool;
  error : option string;
  result : option SimulationResult.t;
  accounts : list string;
  senderFocused : bool;
  receiverFocused : bool;
  history : list HistoryEntry.t;
  expandedRing : option string
}.

Definition initial : State :=
  {| sender := ""; receiver := ""; amount := ""; timestamp := ""; loading := false;
     error := None; result := None; accounts := []; senderFocused := false;
     receiverFocused := false; history := []; expandedRing := None |}.

Definition setLoading (v : bool) (st : State) : State :=
  {| sender := sender st; receiver := receiver st; amount := amount st;
     timestamp := timestamp st; loading := v; error := error st; result := result st;
     accounts := accounts st; senderFocused := senderFocused st;
     receiverFocused := receiverFocused st; history := history st;
     expandedRing := expandedRing st |}.

Definition setError (v : option string) (st : State) : State :=
  {| sender := sender st; receiver := receiver st; amount := amount st;
     timestamp := timestamp st; loading := loading st; error := v; result := result st;
     accounts := accounts st; senderFocused := senderFocused st;
     receiverFocused := receiverFocused st; history := history st;
     expandedRing := expandedRing st |}.

Definition setResult (v : option SimulationResult.t) (st : State) : State :=
  {| sender := sender st; receiver := receiver st; amount := amount st;
     timestamp := timestamp st; loading := loading st; error := error st; result := v;
     accounts := accounts st; senderFocused := senderFocused st;
     receiverFocused := receiverFocused st; history := history st;
     expandedRing := expandedRing st |}.

Definition setHistory (f : list HistoryEntry.t → list HistoryEntry.t) (st : State) : State :=
  {| sender := sender st; receiver := receiver st; amount := amount st;
     timestamp := timestamp st; loading := loading st; error := error st;
     result := result st; accounts := accounts st; senderFocused := senderFocused st;
     receiverFocused := receiverFocused st; history := f (history st);
     expandedRing := expandedRing st |}.

(** What one run of a handler leaves behind: the new state, the network
    requests it issued, and the values it passed to [onSimulationResult]. *)
Record Outcome := {
  state : State;
  requests : list NetworkRequest;
  notified : list (option SimulationResult.t)
}.

(** [sender.trim() && receiver.trim() && parseFloat(amount) > 0], as the
    [if] and the button read it. *)
Definition canSubmit (st : State) : bool :=
  truthy (trim (sender st)) && truthy (trim (receiver st)) && gt0 (parseFloat (amount st)).

Definition runSimulation (fetch : SimulateBody.t → Completion SimulateResponse)
    (st : State) : Outcome :=
  if negb (canSubmit st) then {| state := st; requests := []; notified := [] |}
  else
    let st1 := setError None (setLoading true st) in
    let '(issued, completion) :=
      simulateTransaction fetch (trim (sender st)) (trim (receiver st))
        (parseFloat (amount st))
        (if truthy (timestamp st) then Some (timestamp st) else None) in
    match completion with
    | Return res =>
        let entry :=
          {| HistoryEntry.sender := trim (sender st);
             HistoryEntry.receiver := trim (receiver st);
             HistoryEntry.amount := parseFloat (amount st);
             HistoryEntry.result := res |} in
        {| state := setLoading false
                      (setHistory (fun prev => take 5 (entry :: prev))
                         (setResult (Some res) st1));
           requests := issued;
           notified := [Some res] |}
    | Throw message =>
        {| state := setLoading false (setError (Some message) st1);
           requests := issued;
           notified := [] |}
    end.

(** The other setters of the state cells. *)
Definition setSender (v : string) (st : State) : State :=
  {| sender := v; receiver := receiver st; amount := amount st;
     timestamp := timestamp st; loading := loading st; error := error st;
     result := result st; accounts := accounts st; senderFocused := senderFocused st;
     receiverFocused := receiverFocused st; history := history st;
     expandedRing := expandedRing st |}.

Definition setReceiver (v : string) (st : State) : State :=
  {| sender := sender st; receiver := v; amount := amount st;
     timestamp := timestamp st; loading := loading st; error := error st;
     result := result st; accounts := accounts st; senderFocused := senderFocused st;
     receiverFocused := receiverFocused st; history := history st;
     expandedRing := expandedRing st |}.

Definition setAmount (v : string) (st : State) : State :=
  {| sender := sender st; receiver := receiver st; amount := v;
     timestamp := timestamp st; loading := loading st; error := error st;
     result := result st; accounts := accounts st; senderFocused := senderFocused st;
     receiverFocused := receiverFocused st; history := history st;
     expandedRing := expandedRing st |}.

Definition setTimestamp (v : string) (st : State) : State :=
  {| sender := sender st; receiver := receiver st; amount := amount st;
     timestamp := v; loading := loading st; error := error st;
     result := result st; accounts := accounts st; senderFocused := senderFocused st;
     receiverFocused := receiverFocused st; history := history st;
     expandedRing := expandedRing st |}.

Definition setAccounts (v : list string) (st : State) : State :=
  {| sender := sender st; receiver := receiver st; amount := amount st;
     timestamp := timestamp st; loading := loading st; error := error st;
     result := result st; accounts := v; senderFocused := senderFocused st;
     receiverFocused := receiverFocused st; history := history st;
     expandedRing := expandedRing st |}.

Definition setSenderFocused (v : bool) (st : State) : State :=
  {| sender := sender st; receiver := receiver st; amount := amount st;
     timestamp := timestamp st; loading := loading st; error := error st;
     result := result st; accounts := accounts st; senderFocused := v;
     receiverFocused := receiverFocused st; history := history st;
     expandedRing := expandedRing st |}.

Definition setReceiverFocused (v : bool) (st : State) : State :=
  {| sender := sender st; receiver := receiver st; amount := amount st;
     timestamp := timestamp st; loading := loading st; error := error st;
     result := result st; accounts := accounts st; senderFocused := senderFocused st;
     receiverFocused := v; history := history st;
     expandedRing := expandedRing st |}.

Definition setExpandedRing (v : option string) (st : State) : State :=
  {| sender := sender st; receiver := receiver st; amount := amount st;
     timestamp := timestamp st; loading := loading st; error := error st;
     result := result st; accounts := accounts st; senderFocused := senderFocused st;
     receiverFocused := receiverFocused st; history := history st;
     expandedRing := v |}.

(** [clearSimulation]. *)
Definition clearSimulation (st : State) : Outcome :=
  {| state := setResult None st; requests := []; notified := [None] |}.

(** [setExpandedRing(expandedRing === r.ring_id ? null : r.ring_id)]. *)
Definition toggleRing (ring_id : string) (st : State) : State :=
  setExpandedRing
    (if bool_decide (expandedRing st = Some ring_id) then None else Some ring_id) st.

(** The effect that runs when the panel opens:
    [fetchAccounts().then(setAccounts).catch(() => { })]. *)
Definition opened (fetch : Completion AccountsResponse) (st : State) : State :=
  match fetchAccounts fetch with
  | Return accounts => setAccounts accounts st
  | Throw _ => st
  end.

(** The autocomplete [Dropdown]. *)
Module Dropdown.

(** [typed.trim().length > 0 && !accounts.includes(typed.trim())]. *)
Definition isNew (typed : string) (accounts : list string) : bool :=
  (0 <? String.length (trim typed))%nat && negb (bool_decide (trim typed ∈ accounts)).

(** The values the rows of the dropdown pass to [onSelect], top to bottom:
    the items, then the typed text when it names a new account. *)
Definition rows (items : list string) (typed : string) (accounts : list string)
    : list string :=
  items ++ (if isNew typed accounts then [trim typed] else []).

(** Whether the [No matches] line is shown. *)
Definition noMatches (items : list string) (typed : string) (accounts : list string)
    : bool :=
  (length items =? 0)%nat && negb (isNew typed accounts).

End Dropdown.

Section Handlers.

(** Two built-ins the panel calls and this development does not define:
    [String.prototype.toLowerCase] and [Number.prototype.toString]. *)
Variable toLowerCase : string → string.
Variable Number_toString : JsNumber → string.

(** [accounts.filter(a => a.toLowerCase().includes(typed.toLowerCase())).slice(0, 15)],
    the memo behind [filteredSenderAccounts] and [filteredReceiverAccounts]. *)
Definition filteredAccounts (accounts : list string) (typed : string) : list string :=
  take 15 (List.filter (fun a => includes (toLowerCase a) (toLowerCase typed)) accounts).

(** [restoreHistory]. *)
Definition restoreHistory (entry : HistoryEntry.t) (st : State) : Outcome :=
  {| state :=
       setResult (Some (HistoryEntry.result entry))
         (setAmount (Number_toString (HistoryEntry.amount entry))
            (setReceiver (HistoryEntry.receiver entry)
               (setSender (HistoryEntry.sender entry) st)));
     requests := [];
     notified := [Some (HistoryEntry.result entry)] |}.

(** What the user, the timers and the network can make happen to an open
    panel. Each constructor is one handler of the component; a control that
    is not rendered or is disabled in the current state does nothing. The
    [requests] of an outcome are the simulation requests: the GET of the
    account list, made when the panel opens, is given by its completion
    ([panel_opened]) and is not listed there. *)
Inductive Event :=
| change_sender (value : string)
| change_receiver (value : string)
| change_amount (value : string)
| change_timestamp (value : string)
| focus_sender
| blur_sender
| focus_receiver
| blur_receiver
| select_sender (row : nat)
| select_receiver (row : nat)
| click_simulate (fetch : SimulateBody.t → Completion SimulateResponse)
| click_ring (row : nat)
| click_clear_simulation
| click_clear_history
| click_history (row : nat)
| panel_opened (fetch : Completion AccountsResponse).

Definition unchanged (st : State) : Outcome :=
  {| state := st; requests := []; notified := [] |}.

Definition handle (ev : Event) (st : State) : Outcome :=
  match ev with
  | change_sender v => unchanged (setSender v st)
  | change_receiver v => unchanged (setReceiver v st)
  | change_amount v => unchanged (setAmount v st)
  | change_timestamp v => unchanged (setTimestamp v st)
  | focus_sender => unchanged (setSenderFocused true st)
  | blur_sender => unchanged (setSenderFocused false st)
  | focus_receiver => unchanged (setReceiverFocused true st)
  | blur_receiver => unchanged (setReceiverFocused false st)
  | select_sender row =>
      if senderFocused st && truthy (sender st) then
        match Dropdown.rows (filteredAccounts (accounts st) (sender st)) (sender st)
                (accounts st) !! row with
        | Some v => unchanged (setSenderFocused false (setSender v st))
        | None => unchanged st
        end
      else unchanged st
  | select_receiver row =>
      if receiverFocused st && truthy (receiver st) then
        match Dropdown.rows (filteredAccounts (accounts st) (receiver st)) (receiver st)
                (accounts st) !! row with
        | Some v => unchanged (setReceiverFocused false (setReceiver v st))
        | None => unchanged st
        end
      else unchanged st
  | click_simulate fetch =>
      if negb (canSubmit st) || loading st then unchanged st else runSimulation fetch st
  | click_ring row =>
      match result st with
      | Some res =>
          match SimulationResult.rings_affected res !! row with
          | Some r => unchanged (toggleRing (RingAffected.ring_id r) st)
          | None => unchanged st
          end
      | None => unchanged st
      end
  | click_clear_simulation =>
      match result st with
      | Some _ => clearSimulation st
      | None => unchanged st
      end
  | click_clear_history =>
      if (0 <? length (history st))%nat then unchanged (setHistory (fun _ => []) st)
      else unchanged st
  | click_history row =>
      match history st !! row with
      | Some entry => restoreHistory entry st
      | None => unchanged st
      end
  | panel_opened fetch => unchanged (opened fetch st)
  end.

(** A session: the events handled one after the other, each handler run to
    its end (a simulation request settles before the next event), with the
    requests and the notifications of all of them in order. *)
Fixpoint session (events : list Event) (st : State) : Outcome :=
  match events with
  | [] => unchanged st
  | ev :: rest =>
      let first := handle ev st in
      let others := session rest (state first) in
      {| state := state others;
         requests := requests first ++ requests others;
         notified := notified first ++ notified others |}
  end.

End Handlers.

End SimulatorPanel.

(** ** The path of a response into the app (UploadScreen.tsx, App.tsx) *)

(** How [startAnalysis] ends once [analyzeFile] has settled: it reads the
    fields of [result.summary] for its log lines, then hands the response to
    [onAnalyze]; anything thrown on the way is caught and shown. *)
Inductive UploadOutcome :=
| handed_over (fileName : string) (response : AnalysisResponse.t)
| error_shown (message : string).

Definition startAnalysis (fileName : string) (analyzeFile : Completion AnalysisResponse.t)
    : UploadOutcome :=
  let completion :=
    let! result := analyzeFile in
    let! s := defined (AnalysisResponse.summary result) in
    Return result in
  match completion with
  | Return result => handed_over fileName result
  | Throw message => error_shown message
  end.



(** ** The score bar (ScoreBar.tsx) *)

Module ScoreBar.

Local Open Scope Q_scope.

Definition getRiskColor (s : number) : string :=
  if Qle_bool 85 s then "bg-[var(--color-risk-critical)]"
  else if Qle_bool 70 s then "bg-[var(--color-risk-high)]"
  else if Qle_bool 50 s then "bg-[var(--color-risk-medium)]"
  else "bg-[var(--color-risk-low)]".

(** The width of the bar, in percent: [Math.min(100, Math.max(0, score))]. *)
Definition width (score : number) : number := Math_min 100 (Math_max 0 score).

End ScoreBar.

(** ** The sidebar (Sidebar.tsx) *)

Module Sidebar.

Local Open Scope Q_scope.

Definition criticalCount (suspicious : number) : number :=
  Math_round (suspicious * (15 # 100)).

Definition highCount (suspicious : number) : number :=
  Math_round (suspicious * (3 # 10)).

Definition mediumCount (suspicious : number) : number :=
  Math_round (suspicious * (35 # 100)).

Definition lowCount (suspicious : number) : number :=
  Math_max 0 (suspicious - criticalCount suspicious - highCount suspicious
              - mediumCount suspicious).

(** The [value]s of [riskData], in its order: Critical, High, Medium, Low. *)
Definition riskData (suspicious : number) : list (string * number) :=
  [("Critical", criticalCount suspicious); ("High", highCount suspicious);
   ("Medium", mediumCount suspicious); ("Low", lowCount suspicious)].

(** [x || 1] on a number. *)
Definition or_1 (x : number) : number := if Qeq_bool x 0 then 1 else x.

Definition riskTotal (suspicious : number) : number :=
  or_1 (foldl (fun s d => s + d.2) 0 (riskData suspicious)).

(** The width of a segment of the risk bar, in percent. *)
Definition riskWidth (suspicious : number) (d : string * number) : number :=
  d.2 / riskTotal suspicious * 100.

(** [Math.max(...patterns.map(x => x.count), 1)]. *)
Definition maxCount (patterns : list (string * number)) : number :=
  foldr Math_max 1 (map snd patterns).

(** The width of the bar of a pattern, in percent. *)
Definition patternWidth (patterns : list (string * number)) (p : string * number) : number :=
  p.2 / maxCount patterns * 100.

End Sidebar.

(** ** [Array.prototype.sort] with a comparator

    The sort is stable, and for a comparator that orders the elements
    consistently its result is determined: [x] comes before [y] when
    [compare x y] is negative, after it when it is positive, and in the
    order of the input when it is zero. Insertion from the right computes
    it. *)
Fixpoint sort_insert {A} (compare : A → A → number) (x : A) (sorted : list A) : list A :=
  match sorted with
  | [] => [x]
  | y :: rest =>
      if Qle_bool (compare x y) 0 then x :: y :: rest
      else y :: sort_insert compare x rest
  end.

Definition Array_sort {A} (compare : A → A → number) (array : list A) : list A :=
  foldr (sort_insert compare) [] array.

(** ** The charts (ChartsView.tsx) *)

Module Bucket.
Record t := {
  range : string;
  min : number;
  max : number;
  count : nat;
  fill : string
}.
End Bucket.

Module Hourly.
Record t := {
  hour : string;
  total : number;
  fraud : number
}.
End Hourly.

Module TopAccount.
Record t := {
  id : string;
  score : number;
  fill : string
}.
End TopAccount.

Module ChartsView.

Local Open Scope Q_scope.

Definition buckets : list Bucket.t :=
  [ {| Bucket.range := "0–20"; Bucket.min := 0; Bucket.max := 20; Bucket.count := 0;
       Bucket.fill := "#166534" |};
    {| Bucket.range := "20–40"; Bucket.min := 20; Bucket.max := 40; Bucket.count := 0;
       Bucket.fill := "#4B5563" |};
    {| Bucket.range := "40–60"; Bucket.min := 40; Bucket.max := 60; Bucket.count := 0;
       Bucket.fill := "#B45309" |};
    {| Bucket.range := "60–80"; Bucket.min := 60; Bucket.max := 80; Bucket.count := 0;
       Bucket.fill := "#C2410C" |};
    {| Bucket.range := "80–100"; Bucket.min := 80; Bucket.max := 100; Bucket.count := 0;
       Bucket.fill := "#B91C1C" |} ].

(** [b.count++] on a bucket object. *)
Definition increment (b : Bucket.t) : Bucket.t :=
  {| Bucket.range := Bucket.range b; Bucket.min := Bucket.min b; Bucket.max := Bucket.max b;
     Bucket.count := S (Bucket.count b); Bucket.fill := Bucket.fill b |}.

(** [score >= b.min && score < b.max]. *)
Definition holds (score : number) (b : Bucket.t) : bool :=
  Qle_bool (Bucket.min b) score && Qgtb (Bucket.max b) score.

(** The callback of [accounts.forEach]: the bucket that [find] returns is
    an element of the array, so incrementing it updates the array at the
    position where it was found. *)
Definition add_account (buckets : list Bucket.t) (a : Account.t) : list Bucket.t :=
  match list_find (fun b => holds (Account.suspicionScore a) b = true) buckets with
  | Some (i, _) => alter increment i buckets
  | None =>
      if Qeq_bool (Account.suspicionScore a) 100 then alter increment 4%nat buckets
      else buckets
  end.

Definition scoreDistribution (accounts : list Account.t) : list Bucket.t :=
  foldl add_account buckets accounts.

(** The 24 empty buckets, labelled [00:00] to [23:00]. *)
Definition hourly : list Hourly.t :=
  map (fun h => {| Hourly.hour := padStart0 2 (pretty h) +:+ ":00";
                   Hourly.total := 0; Hourly.fraud := 0 |})
      (seq 0 24).

(** The callback of [transactions.forEach], for the transaction at index [i]. *)
Definition add_transaction (hourly : list Hourly.t) (i : nat) (tx : Transaction.t)
    : list Hourly.t :=
  alter (fun h => {| Hourly.hour := Hourly.hour h;
                     Hourly.total := Hourly.total h + Transaction.amount tx;
                     Hourly.fraud :=
                       if Transaction.isFraud tx
                       then Hourly.fraud h + Transaction.amount tx
                       else Hourly.fraud h |})
        (i mod 24)%nat hourly.

(** [array.forEach((x, i) => ...)] as a fold that passes the index. *)
Fixpoint forEach_indexed {A T} (f : T → nat → A → T) (s : T) (i : nat) (array : list A) : T :=
  match array with
  | [] => s
  | x :: rest => forEach_indexed f (f s i x) (S i) rest
  end.

Definition rounded (h : Hourly.t) : Hourly.t :=
  {| Hourly.hour := Hourly.hour h;
     Hourly.total := Math_round (Hourly.total h);
     Hourly.fraud := Math_round (Hourly.fraud h) |}.

Definition volumeOverTime (transactions : list Transaction.t) : list Hourly.t :=
  map rounded (forEach_indexed add_transaction hourly 0 transactions).

Definition topAccount (a : Account.t) : TopAccount.t :=
  {| TopAccount.id := Account.id a;
     TopAccount.score := Account.suspicionScore a;
     TopAccount.fill :=
       if Qle_bool 80 (Account.suspicionScore a) then "#B91C1C"
       else if Qle_bool 60 (Account.suspicionScore a) then "#C2410C"
       else if Qle_bool 40 (Account.suspicionScore a) then "#B45309"
       else "#4B5563" |}.

Definition topAccounts (accounts : list Account.t) : list TopAccount.t :=
  map topAccount
      (take 10 (Array_sort (fun a b => Account.suspicionScore b - Account.suspicionScore a)
                           accounts)).

End ChartsView.

(** ** The application shell (App.tsx) *)

Inductive View := view_graph | view_rings | view_explorer | view_charts.

Module SidebarMetrics.
Record t := {
  accounts : number;
  suspicious : number;
  rings : number;
  processingTime : number
}.
End SidebarMetrics.

Module App.

Record State := {
  hasAnalyzed : bool;
  fileName : option string;
  currentView : View;
  selectedAccountId : option string;
  analysisResponse : option AnalysisResponse.t;
  simulatorOpen : bool;
  simulationResult : option SimulationResult.t
}.

Definition initial : State :=
  {| hasAnalyzed := false; fileName := None; currentView := view_graph;
     selectedAccountId := None; analysisResponse := None; simulatorOpen := false;
     simulationResult := None |}.

Definition handleAnalyze (file : string) (response : AnalysisResponse.t) (st : State) : State :=
  {| hasAnalyzed := true; fileName := Some file; currentView := currentView st;
     selectedAccountId := selectedAccountId st; analysisResponse := Some response;
     simulatorOpen := simulatorOpen st; simulationResult := simulationResult st |}.

Definition handleReset (st : State) : State :=
  {| hasAnalyzed := false; fileName := None; currentView := view_graph;
     selectedAccountId := None; analysisResponse := None; simulatorOpen := false;
     simulationResult := None |}.

Definition handleNodeClick (accountId : string) (st : State) : State :=
  {| hasAnalyzed := hasAnalyzed st; fileName := fileName st; currentView := currentView st;
     selectedAccountId := Some accountId; analysisResponse := analysisResponse st;
     simulatorOpen := simulatorOpen st; simulationResult := simulationResult st |}.

Definition handleRingClick (ringId : string) (st : State) : State :=
  {| hasAnalyzed := hasAnalyzed st; fileName := fileName st; currentView := view_graph;
     selectedAccountId := selectedAccountId st; analysisResponse := analysisResponse st;
     simulatorOpen := simulatorOpen st; simulationResult := simulationResult st |}.

(** [selectedAccountId ? accounts.find(a => a.id === selectedAccountId) || null : null]. *)
Definition selectedAccount (accounts : list Account.t) (st : State) : option Account.t :=
  match selectedAccountId st with
  | Some id => if truthy id then find_account accounts id else None
  | None => None
  end.

(** [analysisResponse?.summary]. *)
Definition summary (st : State) : option ApiSummary.t :=
  match analysisResponse st with
  | Some response => AnalysisResponse.summary response
  | None => None
  end.

(** [summary?.field ?? 0]. *)
Definition or_0 (field : ApiSummary.t → number) (st : State) : number :=
  match summary st with
  | Some s => field s
  | None => 0%Q
  end.

Definition sidebarMetrics (st : State) : SidebarMetrics.t :=
  {| SidebarMetrics.accounts := or_0 ApiSummary.total_accounts_analyzed st;
     SidebarMetrics.suspicious := or_0 ApiSummary.suspicious_accounts_flagged st;
     SidebarMetrics.rings := or_0 ApiSummary.fraud_rings_detected st;
     SidebarMetrics.processingTime := or_0 ApiSummary.processing_time_seconds st |}.

Definition sidebarPatterns (st : State) : list (string * number) :=
  [("Circular Loops", or_0 ApiSummary.circular_loops_found st);
   ("Smurfing Patterns", or_0 ApiSummary.smurfing_patterns_found st);
   ("Shell Chains", or_0 ApiSummary.layering_chains_found st)].

End App.

(** ** The account detail panel (AccountDetailPanel.tsx) *)

Module AccountDetailPanel.

(** The banner of the status section. *)
Inductive Status := RingMember | PotentialSmurfing | ClearHistory.

Definition status (account : Account.t) : Status :=
  if truthy_opt (Account.ringId account) then RingMember
  else if Qgtb (Account.suspicionScore account) 50 then PotentialSmurfing
  else ClearHistory.

(** The rows of the connection list: [account.connections.slice(0, 10)]. *)
Definition shownConnections (account : Account.t) : list Connection.t :=
  take 10 (Account.connections account).

(** A click on a row calls [onAccountLinkClick(conn.targetId)], which [App]
    binds to [handleNodeClick]. *)
Definition clickConnection (account : Account.t) (row : nat) (st : App.State) : App.State :=
  match shownConnections account !! row with
  | Some conn => App.handleNodeClick (Connection.targetId conn) st
  | None => st
  end.

End AccountDetailPanel.

(** ** The account explorer (AccountExplorer.tsx) *)

Inductive SortField := by_suspicionScore | by_volume | by_inDegree.
Inductive FilterStatus := status_all | status_high | status_medium | status_clean.
Inductive SortDirection := asc | desc.

Module AccountExplorer.

Local Open Scope Q_scope.

Record State := {
  filterStatus : FilterStatus;
  searchTerm : string;
  sortField : SortField;
  sortDirection : SortDirection
}.

Definition initial : State :=
  {| filterStatus := status_all; searchTerm := ""; sortField := by_suspicionScore;
     sortDirection := desc |}.

Definition setFilterStatus (status : FilterStatus) (st : State) : State :=
  {| filterStatus := status; searchTerm := searchTerm st; sortField := sortField st;
     sortDirection := sortDirection st |}.

(** [a[sortField]]. *)
Definition field (f : SortField) (a : Account.t) : number :=
  match f with
  | by_suspicionScore => Account.suspicionScore a
  | by_volume => Account.volume a
  | by_inDegree => Account.inDegree a
  end.

(** The comparator handed to [sort]; it never returns 0. *)
Definition compare (st : State) (a b : Account.t) : number :=
  let valA := field (sortField st) a in
  let valB := field (sortField st) b in
  match sortDirection st with
  | asc => if Qgtb valA valB then 1 else -1
  | desc => if Qgtb valB valA then 1 else -1
  end.

Definition handleSort (f : SortField) (st : State) : State :=
  match sortField st, f with
  | by_suspicionScore, by_suspicionScore
  | by_volume, by_volume
  | by_inDegree, by_inDegree =>
      {| filterStatus := filterStatus st; searchTerm := searchTerm st;
         sortField := sortField st;
         sortDirection := match sortDirection st with asc => desc | desc => asc end |}
  | _, _ =>
      {| filterStatus := filterStatus st; searchTerm := searchTerm st;
         sortField := f; sortDirection := desc |}
  end.

Section Listing.

(** [String.prototype.toLowerCase] and [Array.prototype.sort] are taken as
    given. The comparator above is not a consistent one (it orders two
    accounts with equal keys both ways), so the language leaves the order
    [sort] puts them in to the engine. *)
Variable toLowerCase : string → string.
Variable sort : (Account.t → Account.t → number) → list Account.t → list Account.t.

(** The callback of [accounts.filter]. *)
Definition matches (st : State) (acc : Account.t) : bool :=
  if negb (includes (toLowerCase (Account.id acc)) (toLowerCase (searchTerm st))) then false
  else
    match filterStatus st with
    | status_high => Qle_bool 70 (Account.suspicionScore acc)
    | status_medium =>
        Qle_bool 50 (Account.suspicionScore acc) && Qgtb 70 (Account.suspicionScore acc)
    | status_clean => Qgtb 50 (Account.suspicionScore acc)
    | status_all => true
    end.

Definition filteredAccounts (st : State) (accounts : list Account.t) : list Account.t :=
  sort (compare st) (List.filter (matches st) accounts).

End Listing.

End AccountExplorer.

(** ** The rings table (RingsTable.tsx) *)

Module RingsTable.

Record State := {
  expandedRow : option string;
  filterPattern : string;
  searchTerm : string
}.

Definition initial : State :=
  {| expandedRow := None; filterPattern := "all"; searchTerm := "" |}.

(** The [value]s of the options of the pattern [select]. *)
Definition options : list string :=
  ["all"; "Circular Loop"; "Smurfing Fan-in"; "Smurfing Fan-out"; "Shell Chain"].

Definition toggleRow (id : string) (st : State) : State :=
  {| expandedRow := if bool_decide (expandedRow st = Some id) then None else Some id;
     filterPattern := filterPattern st; searchTerm := searchTerm st |}.

Section Listing.

Variable toLowerCase : string → string.

(** The callback of [rings.filter]. *)
Definition matches (st : State) (ring : FraudRing.t) : bool :=
  let matchesPattern :=
    bool_decide (filterPattern st = "all")
    || bool_decide (FraudRing.patternType ring = filterPattern st) in
  let matchesSearch :=
    includes (toLowerCase (FraudRing.id ring)) (toLowerCase (searchTerm st)) in
  matchesPattern && matchesSearch.

Definition filteredRings (st : State) (rings : list FraudRing.t) : list FraudRing.t :=
  List.filter (matches st) rings.

(** The table rows, by their React keys: one row per listed ring and, under
    it, the expanded row when the ring's id is the expanded one. *)
Definition rows (st : State) (rings : list FraudRing.t) : list string :=
  flat_map
    (fun ring =>
       FraudRing.id ring ::
       (if bool_decide (expandedRow st = Some (FraudRing.id ring))
        then [FraudRing.id ring +:+ "-expanded"] else []))
    (filteredRings st rings).

End Listing.

(** The account ids shown in a row, [ring.accountIds.slice(0, 3)], and the
    number announced after them as [+N more] (nothing when there are at
    most three). *)
Definition preview (ring : FraudRing.t) : list string * option nat :=
  (take 3 (FraudRing.accountIds ring),
   if (3 <? length (FraudRing.accountIds ring))%nat
   then Some (length (FraudRing.accountIds ring) - 3)%nat
   else None).

End RingsTable.

(** ** The mapper on the object heap

    The same three functions, now with the response, the [Map]s and the
    arrays as objects in a heap, so that what the mapper writes, and which
    objects its results share with the response, can be stated. Object,
    array and [Map] operations are heap operations; numbers are computed as
    above, a value that is not a number being read as 0 (JavaScript computes
    [NaN] there; no heap operation depends on it). *)

Module OnHeap.

Definition loc : Type := nat.

Inductive Value :=
| VUndefined
| VNull
| VNumber (q : Q)
| VString (s : string)
| VBool (b : bool)
| VRef (l : loc).

Inductive Object :=
| OObject (fields : list (string * Value))
| OArray (elems : list Value)
| OMap (entries : list (Value * Value)).

Abbreviation heap := (gmap loc Object).

(** A computation on the heap: it returns or throws, and leaves a heap. *)
Definition M (A : Type) : Type := heap → Completion A * heap.

Definition ret {A} (a : A) : M A := fun h => (Return a, h).

Definition throw {A} (error : string) : M A := fun h => (Throw error, h).

Definition andThen {A B} (m : M A) (k : A → M B) : M B :=
  fun h =>
    match m h with
    | (Return a, h') => k a h'
    | (Throw e, h') => (Throw e, h')
    end.

Notation "'do!' x ':=' m 'in' k" := (andThen m (fun x => k))
  (at level 10, x name, m at level 100, k at level 200).

(** [for (const x of l) body(x)]. *)
Fixpoint for_of {X} (l : list X) (body : X → M unit) : M unit :=
  match l with
  | [] => ret tt
  | x :: rest => do! _ := body x in for_of rest body
  end.

(** [l.map((x, i) => f(i, x))], the callback running on the heap. *)
Fixpoint map_from {X Y} (f : nat → X → M Y) (i : nat) (l : list X) : M (list Y) :=
  match l with
  | [] => ret []
  | x :: rest =>
      do! y := f i x in
      do! ys := map_from f (S i) rest in
      ret (y :: ys)
  end.

(** [l.filter(x => p(x))]. *)
Fixpoint filter_by {X} (p : X → M bool) (l : list X) : M (list X) :=
  match l with
  | [] => ret []
  | x :: rest =>
      do! keep := p x in
      do! kept := filter_by p rest in
      ret (if keep then x :: kept else kept)
  end.

(** [l.reduce((acc, x) => f(acc, x), init)]. *)
Fixpoint reduce {X S} (f : S → X → M S) (l : list X) (acc : S) : M S :=
  match l with
  | [] => ret acc
  | x :: rest => do! acc' := f acc x in reduce f rest acc'
  end.

(** *** Heap operations *)

(** An object, array or [Map] literal: a new object at an unused location. *)
Definition alloc (o : Object) : M Value :=
  fun h => let l := fresh (dom h) in (Return (VRef l), <[l := o]> h).

Definition field (name : string) (fields : list (string * Value)) : Value :=
  match List.find (fun kv => bool_decide (kv.1 = name)) fields with
  | Some kv => kv.2
  | None => VUndefined
  end.

(** [v.name]: reading a property of [undefined] or [null] throws; an absent
    property reads as [undefined]. *)
Definition get (v : Value) (name : string) : M Value :=
  fun h =>
    match v with
    | VUndefined | VNull => (Throw TypeError, h)
    | VRef l =>
        match h !! l with
        | Some (OObject fields) => (Return (field name fields), h)
        | Some (OArray elems) =>
            (Return (if bool_decide (name = "length")
                     then VNumber (inject_Z (Z.of_nat (length elems)))
                     else VUndefined), h)
        | Some (OMap _) => (Return VUndefined, h)
        | None => (Throw TypeError, h)
        end
    | VString s =>
        (Return (if bool_decide (name = "length")
                 then VNumber (inject_Z (Z.of_nat (String.length s)))
                 else VUndefined), h)
    | VNumber _ | VBool _ => (Return VUndefined, h)
    end.

(** The elements of an array, for an array method ([map], [filter],
    [reduce]); anything else has no such method. *)
Definition elements (v : Value) : M (list Value) :=
  fun h =>
    match v with
    | VRef l =>
        match h !! l with
        | Some (OArray elems) => (Return elems, h)
        | _ => (Throw TypeError, h)
        end
    | _ => (Throw TypeError, h)
    end.

Fixpoint characters (s : string) : list Value :=
  match s with
  | EmptyString => []
  | String c rest => VString (String c EmptyString) :: characters rest
  end.

(** What [for (const x of v)] iterates: the elements of an array, the
    characters of a string; other values of a parsed response are not
    iterable. *)
Definition iterate (v : Value) : M (list Value) :=
  match v with
  | VString s => ret (characters s)
  | _ => elements v
  end.

(** Key equality of a [Map]. *)
Definition same_value (a b : Value) : bool :=
  match a, b with
  | VUndefined, VUndefined | VNull, VNull => true
  | VNumber x, VNumber y => Qeq_bool x y
  | VString x, VString y => bool_decide (x = y)
  | VBool x, VBool y => bool_decide (x = y)
  | VRef x, VRef y => bool_decide (x = y)
  | _, _ => false
  end.

Definition lookup_entry (k : Value) (entries : list (Value * Value)) : option Value :=
  snd <$> List.find (fun kv => same_value kv.1 k) entries.

Fixpoint set_entry (k v : Value) (entries : list (Value * Value)) : list (Value * Value) :=
  match entries with
  | [] => [(k, v)]
  | (k', v') :: rest =>
      if same_value k' k then (k', v) :: rest else (k', v') :: set_entry k v rest
  end.

Definition map_has (m k : Value) : M bool :=
  fun h =>
    match m with
    | VRef l =>
        match h !! l with
        | Some (OMap entries) => (Return (bool_decide (is_Some (lookup_entry k entries))), h)
        | _ => (Throw TypeError, h)
        end
    | _ => (Throw TypeError, h)
    end.

Definition map_get (m k : Value) : M Value :=
  fun h =>
    match m with
    | VRef l =>
        match h !! l with
        | Some (OMap entries) => (Return (default VUndefined (lookup_entry k entries)), h)
        | _ => (Throw TypeError, h)
        end
    | _ => (Throw TypeError, h)
    end.

(** [m.set(k, v)]: writes the [Map] object. *)
Definition map_set (m k v : Value) : M unit :=
  fun h =>
    match m with
    | VRef l =>
        match h !! l with
        | Some (OMap entries) => (Return tt, <[l := OMap (set_entry k v entries)]> h)
        | _ => (Throw TypeError, h)
        end
    | _ => (Throw TypeError, h)
    end.

(** [a.push(v)]: writes the array object. *)
Definition push (a v : Value) : M unit :=
  fun h =>
    match a with
    | VRef l =>
        match h !! l with
        | Some (OArray elems) => (Return tt, <[l := OArray (elems ++ [v])]> h)
        | _ => (Throw TypeError, h)
        end
    | _ => (Throw TypeError, h)
    end.

Definition to_number (v : Value) : Q :=
  match v with
  | VNumber q => q
  | _ => 0%Q
  end.

(** [v === undefined || v === null], the test of [?.] and [??]. *)
Definition is_nullish (v : Value) : bool :=
  match v with
  | VUndefined | VNull => true
  | _ => false
  end.

(** The test of [||] and of [if]. *)
Definition is_truthy (v : Value) : bool :=
  match v with
  | VUndefined | VNull => false
  | VNumber q => negb (Qeq_bool q 0)
  | VString s => truthy s
  | VBool b => b
  | VRef _ => true
  end.

(** *** mappers.ts *)

(** [new Map(array)]: a new [Map], then [set(pair[0], pair[1])] for each
    element of the array. *)
Definition new_Map (array : Value) : M Value :=
  do! m := alloc (OMap []) in
  do! pairs := elements array in
  do! _ := for_of pairs (fun pair =>
    do! kv := elements pair in
    map_set m (nth 0 kv VUndefined) (nth 1 kv VUndefined)) in
  ret m.

(** [if (!map.has(key)) map.set(key, []); map.get(key)!.push({targetId,
    direction, amount})]. *)
Definition push_connection (connectionsMap key peer : Value) (direction : string)
    (amount : Value) : M unit :=
  do! has := map_has connectionsMap key in
  do! _ := (if has then ret tt
            else do! empty := alloc (OArray []) in map_set connectionsMap key empty) in
  do! array := map_get connectionsMap key in
  do! entry := alloc (OObject [("targetId", peer); ("direction", VString direction);
                               ("amount", amount)]) in
  push array entry.

(** [connections.filter(c => c.direction === d).reduce((sum, c) => sum +
    c.amount, 0)]. *)
Definition total_of (d : string) (connections : Value) : M Q :=
  do! all := elements connections in
  do! kept := filter_by (fun c =>
    do! direction := get c "direction" in
    ret (same_value direction (VString d))) all in
  do! _ := alloc (OArray kept) in
  reduce (fun sum c => do! amount := get c "amount" in ret (sum + to_number amount)%Q)
         kept 0%Q.

Definition number (q : Q) : Value := VNumber q.

Definition account_of (env : Env) (accountScoreMap connectionsMap nodeRingMap : Value)
    (i : nat) (node : Value) : M Value :=
  do! id := get node "id" in
  do! acct := map_get accountScoreMap id in
  do! found := map_get connectionsMap id in
  do! connections := (if is_truthy found then ret found else alloc (OArray [])) in
  do! totalIn := total_of "in" connections in
  do! totalOut := total_of "out" connections in
  do! acct_score := (if is_nullish acct then ret VUndefined else get acct "suspicion_score") in
  do! score := (if is_nullish acct_score then get node "suspicion_score" else ret acct_score) in
  do! in_degree := get node "in_degree" in
  do! out_degree := get node "out_degree" in
  do! total_volume := get node "total_volume" in
  do! acct_patterns := (if is_nullish acct then ret VUndefined else get acct "detected_patterns") in
  do! patterns := (if is_nullish acct_patterns then alloc (OArray []) else ret acct_patterns) in
  do! ringId := map_get nodeRingMap id in
  do! transaction_count := get node "transaction_count" in
  do! ring_ids := get node "ring_ids" in
  do! ring_ids_length := get ring_ids "length" in
  let dna :=
    behavioralDna (to_number transaction_count) (to_number in_degree)
      (to_number out_degree) (to_number total_volume)
      (Z.to_nat (Qfloor (to_number ring_ids_length))) (to_number score) totalOut in
  do! behavioralDna := alloc (OObject
    [("velocity", number (BehavioralDna.velocity dna));
     ("amtVariance", number (BehavioralDna.amtVariance dna));
     ("fanSymmetry", number (BehavioralDna.fanSymmetry dna));
     ("temporalCluster", number (BehavioralDna.temporalCluster dna));
     ("hopDepth", number (BehavioralDna.hopDepth dna));
     ("amtDecay", number (BehavioralDna.amtDecay dna))]) in
  do! networkStats := alloc (OObject
    [("totalIn", number (Math_round totalIn));
     ("totalOut", number (Math_round totalOut));
     ("txCount", transaction_count);
     ("avgHoldTime", number (toFixed1 (Math_random env i * 24 + 1)%Q))]) in
  alloc (OObject
    [("id", id); ("suspicionScore", score); ("inDegree", in_degree);
     ("outDegree", out_degree); ("volume", total_volume); ("patterns", patterns);
     ("status", VString "active"); ("ringId", ringId);
     ("behavioralDna", behavioralDna); ("networkStats", networkStats);
     ("connections", connections)]).

Definition mapApiToAccounts (env : Env) (response : Value) : M Value :=
  do! suspicious_accounts := get response "suspicious_accounts" in
  do! graph := get response "graph" in
  do! sa := elements suspicious_accounts in
  do! pairs := map_from (fun _ a =>
    do! account_id := get a "account_id" in
    alloc (OArray [account_id; a])) 0 sa in
  do! pair_array := alloc (OArray pairs) in
  do! accountScoreMap := new_Map pair_array in
  do! connectionsMap := alloc (OMap []) in
  do! edges := get graph "edges" in
  do! edge_list := iterate edges in
  do! _ := for_of edge_list (fun edge =>
    do! source := get edge "source" in
    do! target := get edge "target" in
    do! total_amount := get edge "total_amount" in
    do! _ := push_connection connectionsMap source target "out" total_amount in
    push_connection connectionsMap target source "in" total_amount) in
  do! nodeRingMap := alloc (OMap []) in
  do! fraud_rings := get response "fraud_rings" in
  do! ring_list := iterate fraud_rings in
  do! _ := for_of ring_list (fun ring =>
    do! member_accounts := get ring "member_accounts" in
    do! members := iterate member_accounts in
    for_of members (fun memberId =>
      do! has := map_has nodeRingMap memberId in
      if has then ret tt
      else do! ring_id := get ring "ring_id" in map_set nodeRingMap memberId ring_id)) in
  do! nodes := get graph "nodes" in
  do! node_list := elements nodes in
  do! accounts := map_from (account_of env accountScoreMap connectionsMap nodeRingMap)
                           0 node_list in
  alloc (OArray accounts).

Definition mapApiToRings (response : Value) : M Value :=
  do! fraud_rings := get response "fraud_rings" in
  do! ring_list := elements fraud_rings in
  do! rings := map_from (fun _ ring =>
    do! ring_id := get ring "ring_id" in
    do! pattern_type := get ring "pattern_type" in
    let patternType :=
      match pattern_type with
      | VString s => VString (mapPatternType s)
      | other => other
      end in
    do! member_count := get ring "member_count" in
    do! risk_score := get ring "risk_score" in
    do! member_accounts := get ring "member_accounts" in
    alloc (OObject
      [("id", ring_id); ("patternType", patternType); ("memberCount", member_count);
       ("riskScore", risk_score); ("accountIds", member_accounts)])) 0 ring_list in
  alloc (OArray rings).

Definition mapApiToTransactions (env : Env) (response : Value) : M Value :=
  do! graph := get response "graph" in
  do! edges := get graph "edges" in
  do! edge_list := elements edges in
  do! transactions := map_from (fun i edge =>
    do! source := get edge "source" in
    do! target := get edge "target" in
    do! total_amount := get edge "total_amount" in
    do! suspicious := get edge "suspicious" in
    alloc (OObject
      [("id", VString ("TX_" +:+ padStart0 6 (pretty i))); ("source", source);
       ("target", target); ("amount", total_amount);
       ("timestamp", VString (Date_toISOString env i)); ("isFraud", suspicious)]))
    0 edge_list in
  alloc (OArray transactions).

(** The three derivations of [App] for a stored response. *)
Definition Mapper (env : Env) (response : Value) : M (Value * Value * Value) :=
  do! accounts := mapApiToAccounts env response in
  do! rings := mapApiToRings response in
  do! transactions := mapApiToTransactions env response in
  ret (accounts, rings, transactions).

(** *** What [JSON.stringify] sees *)

#[warnings="-register-all"]
Inductive Json :=
| JUndefined
| JNull
| JNumber (q : Q)
| JString (s : string)
| JBool (b : bool)
| JObject (fields : list (string * Json))
| JArray (elems : list Json).

(** The value of [v] read through the heap, to the given depth; [None] when
    the depth does not suffice or a reference leads nowhere. A [Map]
    serializes as an empty object. *)
Fixpoint snapshot (depth : nat) (h : heap) (v : Value) : option Json :=
  match v with
  | VUndefined => Some JUndefined
  | VNull => Some JNull
  | VNumber q => Some (JNumber q)
  | VString s => Some (JString s)
  | VBool b => Some (JBool b)
  | VRef l =>
      match depth with
      | O => None
      | S depth =>
          match h !! l with
          | Some (OObject fields) =>
              JObject <$> mapM (fun kv => pair kv.1 <$> snapshot depth h kv.2) fields
          | Some (OArray elems) => JArray <$> mapM (snapshot depth h) elems
          | Some (OMap _) => Some (JObject [])
          | None => None
          end
      end
  end.

(** [handleExport] of the navigation bar: nothing without a stored
    response, else the text of [JSON.stringify(analysisResponse)], here the
    value it serializes. *)
Definition handleExport (depth : nat) (analysisResponse : option Value) (h : heap)
    : option Json :=
  match analysisResponse with
  | None => None
  | Some response => snapshot depth h response
  end.

(** *** Stating what a computation leaves alone

    [h0] is the heap as it was when the mapper was called. *)

(** [m], started in a heap that still holds every object of [h0]
    unchanged and satisfies [P], leaves such a heap again, whether it returns
    or throws, and [Q] holds of what it returns. *)
Definition triple (h0 : heap) {A} (P : heap → Prop) (m : M A) (Q : A → heap → Prop) : Prop :=
  ∀ h, h0 ⊆ h → P h →
    h0 ⊆ (m h).2 ∧ ∀ a, (m h).1 = Return a → Q a (m h).2.

(** A reference to a location that was not in use when the mapper was
    called. *)
Definition is_new (h0 : heap) (v : Value) : Prop := ∃ l, v = VRef l ∧ l ∉ dom h0.

(** Operations that only read leave the heap as it is. *)
Definition reads {A} (m : M A) : Prop := ∀ h, (m h).2 = h.

(** Postconditions of the shape "the result satisfies [φ] and the heap
    satisfies [P]". *)
Definition post {A} (φ : A → Prop) (P : heap → Prop) : A → heap → Prop :=
  fun a h => φ a ∧ P h.

Definition any {A} : A → Prop := fun _ => True.

(** The invariant of the phases that keep no fact about the heap. *)
Definition top : heap → Prop := fun _ => True.

(** A property of heaps that allocation does not disturb. *)
Definition alloc_stable (P : heap → Prop) : Prop :=
  ∀ h l o, P h → l ∉ dom h → P (<[l := o]> h).

(** The connection index while it is built: [connectionsMap] is a new
    [Map] all of whose values are new objects. *)
Definition building (h0 : heap) (cm : loc) : heap → Prop :=
  fun h => (cm ∉ dom h0) ∧
    ∃ entries, h !! cm = Some (OMap entries) ∧ Forall (fun kv => is_new h0 kv.2) entries.

(** *** A typed response as heap objects, as [response.json()] builds it *)

Definition strings (l : list string) : M Value := alloc (OArray (VString <$> l)).

Definition array_of {X} (parse : X → M Value) (l : list X) : M Value :=
  do! elems := map_from (fun _ x => parse x) 0 l in
  alloc (OArray elems).

Definition parse_suspicious_account (a : ApiSuspiciousAccount.t) : M Value :=
  do! detected_patterns := strings (ApiSuspiciousAccount.detected_patterns a) in
  do! pattern_types := strings (ApiSuspiciousAccount.pattern_types a) in
  alloc (OObject
    [("account_id", VString (ApiSuspiciousAccount.account_id a));
     ("suspicion_score", VNumber (ApiSuspiciousAccount.suspicion_score a));
     ("detected_patterns", detected_patterns);
     ("ring_id", VString (ApiSuspiciousAccount.ring_id a));
     ("in_degree", VNumber (ApiSuspiciousAccount.in_degree a));
     ("out_degree", VNumber (ApiSuspiciousAccount.out_degree a));
     ("total_volume", VNumber (ApiSuspiciousAccount.total_volume a));
     ("transaction_count", VNumber (ApiSuspiciousAccount.transaction_count a));
     ("ring_count", VNumber (ApiSuspiciousAccount.ring_count a));
     ("pattern_types", pattern_types);
     ("merchant_factor", VNumber (ApiSuspiciousAccount.merchant_factor a))]).

Definition parse_ring (r : ApiFraudRing.t) : M Value :=
  do! member_accounts := strings (ApiFraudRing.member_accounts r) in
  do! edges := array_of (fun e : string * string =>
    alloc (OObject [("source", VString e.1); ("target", VString e.2)]))
    (ApiFraudRing.edges r) in
  alloc (OObject
    ([("ring_id", VString (ApiFraudRing.ring_id r));
      ("pattern_type", VString (ApiFraudRing.pattern_type r));
      ("member_accounts", member_accounts);
      ("member_count", VNumber (ApiFraudRing.member_count r));
      ("risk_score", VNumber (ApiFraudRing.risk_score r));
      ("total_amount", VNumber (ApiFraudRing.total_amount r));
      ("edges", edges)] ++
     match ApiFraudRing.center_node r with
     | Some c => [("center_node", VString c)]
     | None => []
     end)).

Definition parse_node (n : ApiGraphNode.t) : M Value :=
  do! ring_ids := strings (ApiGraphNode.ring_ids n) in
  alloc (OObject
    [("id", VString (ApiGraphNode.id n));
     ("suspicious", VBool (ApiGraphNode.suspicious n));
     ("suspicion_score", VNumber (ApiGraphNode.suspicion_score n));
     ("in_degree", VNumber (ApiGraphNode.in_degree n));
     ("out_degree", VNumber (ApiGraphNode.out_degree n));
     ("ring_ids", ring_ids);
     ("total_volume", VNumber (ApiGraphNode.total_volume n));
     ("transaction_count", VNumber (ApiGraphNode.transaction_count n))]).

Definition parse_edge (e : ApiGraphEdge.t) : M Value :=
  alloc (OObject
    [("source", VString (ApiGraphEdge.source e));
     ("target", VString (ApiGraphEdge.target e));
     ("suspicious", VBool (ApiGraphEdge.suspicious e));
     ("total_amount", VNumber (ApiGraphEdge.total_amount e));
     ("count", VNumber (ApiGraphEdge.count e))]).

Definition parse_graph (g : ApiGraph.t) : M Value :=
  do! nodes := array_of parse_node (ApiGraph.nodes g) in
  do! edges := array_of parse_edge (ApiGraph.edges g) in
  alloc (OObject [("nodes", nodes); ("edges", edges)]).

Definition parse_summary (s : ApiSummary.t) : M Value :=
  alloc (OObject
    [("total_accounts_analyzed", VNumber (ApiSummary.total_accounts_analyzed s));
     ("suspicious_accounts_flagged", VNumber (ApiSummary.suspicious_accounts_flagged s));
     ("fraud_rings_detected", VNumber (ApiSummary.fraud_rings_detected s));
     ("processing_time_seconds", VNumber (ApiSummary.processing_time_seconds s));
     ("total_transactions", VNumber (ApiSummary.total_transactions s));
     ("total_nodes", VNumber (ApiSummary.total_nodes s));
     ("total_edges", VNumber (ApiSummary.total_edges s));
     ("circular_loops_found", VNumber (ApiSummary.circular_loops_found s));
     ("smurfing_patterns_found", VNumber (ApiSummary.smurfing_patterns_found s));
     ("layering_chains_found", VNumber (ApiSummary.layering_chains_found s));
     ("total_fraud_rings", VNumber (ApiSummary.total_fraud_rings s));
     ("high_risk_accounts", VNumber (ApiSummary.high_risk_accounts s));
     ("medium_risk_accounts", VNumber (ApiSummary.medium_risk_accounts s));
     ("total_flagged_amount", VNumber (ApiSummary.total_flagged_amount s))]).

Definition optional {X} (name : string) (parse : X → M Value) (x : option X)
    : M (list (string * Value)) :=
  match x with
  | Some x => do! v := parse x in ret [(name, v)]
  | None => ret []
  end.

Definition parse_response (r : AnalysisResponse.t) : M Value :=
  do! suspicious_accounts :=
    optional "suspicious_accounts" (array_of parse_suspicious_account)
             (AnalysisResponse.suspicious_accounts r) in
  do! fraud_rings :=
    optional "fraud_rings" (array_of parse_ring) (AnalysisResponse.fraud_rings r) in
  do! summary := optional "summary" parse_summary (AnalysisResponse.summary r) in
  do! graph := optional "graph" parse_graph (AnalysisResponse.graph r) in
  alloc (OObject (suspicious_accounts ++ fraud_rings ++ summary ++ graph)).

(** *** The entities as [JSON.stringify] would show them *)

Definition json_strings (l : list string) : Json := JArray (JString <$> l).

Definition json_option (s : option string) : Json :=
  match s with
  | Some s => JString s
  | None => JUndefined
  end.

Definition json_connection (c : Connection.t) : Json :=
  JObject [("targetId", JString (Connection.targetId c));
           ("direction", JString (match Connection.direction c with
                                  | dir_in => "in" | dir_out => "out" end));
           ("amount", JNumber (Connection.amount c))].

Definition json_account (a : Account.t) : Json :=
  let dna := Account.behavioralDna a in
  let stats := Account.networkStats a in
  JObject
    [("id", JString (Account.id a));
     ("suspicionScore", JNumber (Account.suspicionScore a));
     ("inDegree", JNumber (Account.inDegree a));
     ("outDegree", JNumber (Account.outDegree a));
     ("volume", JNumber (Account.volume a));
     ("patterns", json_strings (Account.patterns a));
     ("status", JString "active");
     ("ringId", json_option (Account.ringId a));
     ("behavioralDna", JObject
        [("velocity", JNumber (BehavioralDna.velocity dna));
         ("amtVariance", JNumber (BehavioralDna.amtVariance dna));
         ("fanSymmetry", JNumber (BehavioralDna.fanSymmetry dna));
         ("temporalCluster", JNumber (BehavioralDna.temporalCluster dna));
         ("hopDepth", JNumber (BehavioralDna.hopDepth dna));
         ("amtDecay", JNumber (BehavioralDna.amtDecay dna))]);
     ("networkStats", JObject
        [("totalIn", JNumber (NetworkStats.totalIn stats));
         ("totalOut", JNumber (NetworkStats.totalOut stats));
         ("txCount", JNumber (NetworkStats.txCount stats));
         ("avgHoldTime", JNumber (NetworkStats.avgHoldTime stats))]);
     ("connections", JArray (json_connection <$> Account.connections a))].

Definition json_ring (r : FraudRing.t) : Json :=
  JObject
    [("id", JString (FraudRing.id r));
     ("patternType", JString (FraudRing.patternType r));
     ("memberCount", JNumber (FraudRing.memberCount r));
     ("riskScore", JNumber (FraudRing.riskScore r));
     ("accountIds", json_strings (FraudRing.accountIds r))].

Definition json_transaction (t : Transaction.t) : Json :=
  JObject
    [("id", JString (Transaction.id t));
     ("source", JString (Transaction.source t));
     ("target", JString (Transaction.target t));
     ("amount", JNumber (Transaction.amount t));
     ("timestamp", JString (Transaction.timestamp t));
     ("isFraud", JBool (Transaction.isFraud t))].

Definition json_entities (e : list Account.t * list FraudRing.t * list Transaction.t)
    : Json * Json * Json :=
  (JArray (json_account <$> e.1.1), JArray (json_ring <$> e.1.2),
   JArray (json_transaction <$> e.2)).

(** One run of the mapper on a response parsed into an empty heap: what
    the three results hold, read through the heap the run leaves. *)
Definition run_parsed (env : Env) (r : AnalysisResponse.t) (depth : nat)
    : Completion (option Json * option Json * option Json) :=
  let '(response, h) := parse_response r ∅ in
  match response with
  | Throw e => Throw e
  | Return response =>
      let '(result, h') := Mapper env response h in
      let! entities := result in
      Return (snapshot depth h' entities.1.1, snapshot depth h' entities.1.2,
              snapshot depth h' entities.2)
  end.

End OnHeap.

(** ** Worked example (the scenario of the specification)

    Nodes A (score 80, out-degree 5) and B (score 10, in-degree 5), one edge
    A -> B of 1000, and two rings that both list A. *)

Module Example.

Definition env : Env :=
  {| Math_random := fun k => (Z.of_nat k # 4)%Q; Date_toISOString := fun _ => "2024-01-01T00:00:00.000Z" |}.

Definition summary : ApiSummary.t :=
  {| ApiSummary.total_accounts_analyzed := 2; ApiSummary.suspicious_accounts_flagged := 1;
     ApiSummary.fraud_rings_detected := 2; ApiSummary.processing_time_seconds := 1;
     ApiSummary.total_transactions := 1; ApiSummary.total_nodes := 2;
     ApiSummary.total_edges := 1; ApiSummary.circular_loops_found := 1;
     ApiSummary.smurfing_patterns_found := 0; ApiSummary.layering_chains_found := 0;
     ApiSummary.total_fraud_rings := 2; ApiSummary.high_risk_accounts := 1;
     ApiSummary.medium_risk_accounts := 0; ApiSummary.total_flagged_amount := 1000 |}%Q.

Definition node (id : string) (score in_degree out_degree : Q) (ring_ids : list string)
    (total_volume : Q) : ApiGraphNode.t :=
  {| ApiGraphNode.id := id; ApiGraphNode.suspicious := false;
     ApiGraphNode.suspicion_score := score;
     ApiGraphNode.in_degree := in_degree; ApiGraphNode.out_degree := out_degree;
     ApiGraphNode.ring_ids := ring_ids; ApiGraphNode.total_volume := total_volume;
     ApiGraphNode.transaction_count := 5%Q |}.

Definition edge (source target : string) (total_amount : Q) : ApiGraphEdge.t :=
  {| ApiGraphEdge.source := source; ApiGraphEdge.target := target;
     ApiGraphEdge.suspicious := true; ApiGraphEdge.total_amount := total_amount;
     ApiGraphEdge.count := 1%Q |}.

Definition ring (ring_id : string) (member_accounts : list string) : ApiFraudRing.t :=
  {| ApiFraudRing.ring_id := ring_id; ApiFraudRing.pattern_type := "cycle";
     ApiFraudRing.member_accounts := member_accounts;
     ApiFraudRing.member_count := 1%Q; ApiFraudRing.risk_score := 90%Q;
     ApiFraudRing.total_amount := 1000%Q; ApiFraudRing.edges := [];
     ApiFraudRing.center_node := None |}.

Definition node_A : ApiGraphNode.t := node "A" 80%Q 0%Q 5%Q ["R1"; "R2"] 1000%Q.
Definition node_B : ApiGraphNode.t := node "B" 10%Q 5%Q 0%Q [] 1000%Q.

Definition rings : list ApiFraudRing.t := [ring "R1" ["A"]; ring "R2" ["B"; "A"]].

Definition graph : ApiGraph.t :=
  {| ApiGraph.nodes := [node_A; node_B]; ApiGraph.edges := [edge "A" "B" 1000%Q] |}.

Definition response : AnalysisResponse.t :=
  AnalysisResponse.complete [] rings summary graph.

Definition accounts : list Account.t :=
  Eval vm_compute in
    match mapApiToAccounts env response with Return l => l | Throw _ => [] end.

Definition transactions : list Transaction.t :=
  Eval vm_compute in
    match mapApiToTransactions env response with Return l => l | Throw _ => [] end.

Definition account_A : Account.t :=
  Eval vm_compute in
    account_of env (accountScoreMap []) (connectionsMap (ApiGraph.edges graph))
               (nodeRingMap rings) 0 node_A.

(** The same graph with its only edge listed twice. *)
Definition duplicate_edge_graph : ApiGraph.t :=
  {| ApiGraph.nodes := [node_A; node_B];
     ApiGraph.edges := [edge "A" "B" 1000%Q; edge "A" "B" 1000%Q] |}.

Definition duplicate_edge_response : AnalysisResponse.t :=
  AnalysisResponse.complete [] rings summary duplicate_edge_graph.

(** A node whose engine score is 150. *)
Definition overscored_response : AnalysisResponse.t :=
  AnalysisResponse.complete [] [] summary
    {| ApiGraph.nodes := [node "X" 150%Q 1%Q 1%Q [] 0%Q]; ApiGraph.edges := [] |}.

(** A second environment: other random draws, a later clock. *)
Definition env_later : Env :=
  {| Math_random := fun _ => (1 # 2)%Q;
     Date_toISOString := fun _ => "2024-01-01T00:00:05.000Z" |}.

Definition simulationResult : SimulationResult.t :=
  {| SimulationResult.simulation_id := "SIM_1";
     SimulationResult.hypothetical_tx :=
       {| HypotheticalTx.sender_id := "A"; HypotheticalTx.receiver_id := "C";
          HypotheticalTx.amount := 500%Q;
          HypotheticalTx.timestamp := "2024-01-02T00:00:00.000Z" |};
     SimulationResult.verdict := WARNING;
     SimulationResult.verdict_reason := "joins a ring";
     SimulationResult.new_cycles_created :=
       [ {| SimulationCycle.cycle_members := ["A"; "C"; "B"];
            SimulationCycle.cycle_length := 3%Q;
            SimulationCycle.cycle_risk_score := 70%Q |} ];
     SimulationResult.rings_affected := [];
     SimulationResult.rings_merged := [];
     SimulationResult.score_deltas :=
       [ {| ScoreDelta.account_id := "A"; ScoreDelta.old_score := 80%Q;
            ScoreDelta.new_score := 85%Q; ScoreDelta.delta := 5%Q;
            ScoreDelta.delta_reason := "new counterparty" |} ];
     SimulationResult.new_smurfing_triggered := false;
     SimulationResult.smurfing_account := None;
     SimulationResult.new_shell_chain_extended := false;
     SimulationResult.chain_extension_detail := None;
     SimulationResult.subgraph_delta :=
       {| SubgraphDelta.nodes_affected := 1%Q; SubgraphDelta.edges_added := 1%Q;
          SubgraphDelta.new_nodes_introduced := 1%Q |};
     SimulationResult.processing_time_ms := 12%Q |}.

Definition elements : list Element.t :=
  Eval vm_compute in build accounts transactions false.

Definition overlaid : list Element.t :=
  Eval vm_compute in NetworkGraph_elements accounts transactions false (Some simulationResult).

(** The example response parsed into an empty heap. *)
Definition parsed : Completion OnHeap.Value * gmap OnHeap.loc OnHeap.Object :=
  Eval vm_compute in OnHeap.parse_response response ∅.

Definition heap : gmap OnHeap.loc OnHeap.Object := parsed.2.

Definition response_object : OnHeap.Value :=
  match parsed.1 with
  | Return v => v
  | Throw _ => OnHeap.VUndefined
  end.

Definition response_json : OnHeap.Json :=
  Eval vm_compute in default OnHeap.JUndefined (OnHeap.snapshot 6 heap response_object).

(** A larger response: a flagged account, a transfer of an account to
    itself, the edge A -> B listed twice, an edge to an account that is no
    graph node, and a ring with an unknown pattern tag. *)
Definition rich_response : AnalysisResponse.t :=
  AnalysisResponse.complete
    [ {| ApiSuspiciousAccount.account_id := "B";
         ApiSuspiciousAccount.suspicion_score := 72%Q;
         ApiSuspiciousAccount.detected_patterns := ["cycle"; "fan_in"];
         ApiSuspiciousAccount.ring_id := "R2";
         ApiSuspiciousAccount.in_degree := 5%Q;
         ApiSuspiciousAccount.out_degree := 0%Q;
         ApiSuspiciousAccount.total_volume := 1000%Q;
         ApiSuspiciousAccount.transaction_count := 5%Q;
         ApiSuspiciousAccount.ring_count := 1%Q;
         ApiSuspiciousAccount.pattern_types := ["cycle"];
         ApiSuspiciousAccount.merchant_factor := 1%Q |} ]
    (rings ++ [ {| ApiFraudRing.ring_id := "R3"; ApiFraudRing.pattern_type := "mule_chain";
                   ApiFraudRing.member_accounts := ["C"];
                   ApiFraudRing.member_count := 1%Q; ApiFraudRing.risk_score := 40%Q;
                   ApiFraudRing.total_amount := 10%Q;
                   ApiFraudRing.edges := [("C", "C")];
                   ApiFraudRing.center_node := Some "C" |} ])
    summary
    {| ApiGraph.nodes := [node_A; node_B; node "C" 55%Q 1%Q 1%Q ["R3"] 25000%Q];
       ApiGraph.edges :=
         [edge "A" "B" 1000%Q; edge "C" "C" (21 # 2)%Q; edge "A" "B" 1000%Q;
          edge "B" "Z" 7%Q] |}.

(** The example response without its summary. *)
Definition response_without_summary : AnalysisResponse.t :=
  {| AnalysisResponse.suspicious_accounts := Some [];
     AnalysisResponse.fraud_rings := Some rings;
     AnalysisResponse.summary := None;
     AnalysisResponse.graph := Some graph |}.

(** The example response without its graph. *)
Definition response_without_graph : AnalysisResponse.t :=
  {| AnalysisResponse.suspicious_accounts := Some [];
     AnalysisResponse.fraud_rings := Some rings;
     AnalysisResponse.summary := Some summary;
     AnalysisResponse.graph := None |}.

(** An engine that answers every simulation request with the example result. *)
Definition fetch (body : SimulateBody.t) : Completion SimulateResponse :=
  Return (response_ok (Return simulationResult)).

Definition form (sender receiver amount : string) : SimulatorPanel.State :=
  {| SimulatorPanel.sender := sender; SimulatorPanel.receiver := receiver;
     SimulatorPanel.amount := amount; SimulatorPanel.timestamp := "";
     SimulatorPanel.loading := false; SimulatorPanel.error := None;
     SimulatorPanel.result := None; SimulatorPanel.accounts := [];
     SimulatorPanel.senderFocused := false; SimulatorPanel.receiverFocused := false;
     SimulatorPanel.history := []; SimulatorPanel.expandedRing := None |}.

End Example.

(** ** The analysis request (api.ts) *)

(** What [response.json()] gives for a reply with an error status, as far
    as [analyzeFile] looks at it: the promise rejects because the body is
    not JSON (the [catch] then puts [{detail: response.statusText}] in its
    place); or the body is the JSON [null]; or it is another JSON value, of
    which [detail] is what reading its [detail] property gives,
    [JUndefined] when it has none. *)
Inductive ErrorBody :=
| body_not_json
| body_null
| body_with (detail : OnHeap.Json).

(** What [fetch('/api/analyze')] resolves to: a 2xx response with the
    result of parsing its body, or another status with its status text and
    its body. *)
Inductive AnalyzeResponse :=
| analyze_ok (json : Completion AnalysisResponse.t)
| analyze_not_ok (status : nat) (statusText : string) (body : ErrorBody).

(** The test of [||] on a JSON value. *)
Definition json_truthy (v : OnHeap.Json) : bool :=
  match v with
  | OnHeap.JUndefined | OnHeap.JNull => false
  | OnHeap.JNumber q => negb (Qeq_bool q 0)
  | OnHeap.JString s => truthy s
  | OnHeap.JBool b => b
  | OnHeap.JObject _ | OnHeap.JArray _ => true
  end.

Section AnalyzeFile.

(** [String(v)] for a JSON value that is not a string (a number, a
    boolean, an array, an object) is left to the engine. *)
Variable String_of : OnHeap.Json → string.

(** The [message] of [new Error(v)]. *)
Definition Error_message (v : OnHeap.Json) : string :=
  match v with
  | OnHeap.JString s => s
  | other => String_of other
  end.

(** [analyzeFile]; the argument is how the [fetch] call completes. Reading
    [err.detail] of [null] throws a [TypeError], which leaves the function
    as any other error does. *)
Definition analyzeFile (fetch : Completion AnalyzeResponse) : Completion AnalysisResponse.t :=
  let! response := fetch in
  match response with
  | analyze_ok json => json
  | analyze_not_ok status statusText body =>
      let! detail :=
        match body with
        | body_not_json => Return (OnHeap.JString statusText)
        | body_null => Throw TypeError
        | body_with detail => Return detail
        end in
      Throw (if json_truthy detail then Error_message detail
             else "Analysis failed (" +:+ pretty status +:+ ")")
  end.

End AnalyzeFile.

(** ** A worked session of the simulator panel *)

Module Walkthrough.

(** [toLowerCase] on ASCII text: the letters A to Z are mapped to a to z. *)
Definition toLowerCase_ascii (c : ascii) : ascii :=
  let n := nat_of_ascii c in
  if (65 <=? n)%nat && (n <=? 90)%nat then ascii_of_nat (n + 32) else c.

Fixpoint toLowerCase (s : string) : string :=
  match s with
  | EmptyString => EmptyString
  | String c rest => String (toLowerCase_ascii c) (toLowerCase rest)
  end.

(** [toString] on the numbers the examples use, the integers. *)
Definition Number_toString (n : JsNumber) : string :=
  match n with
  | NaN => "NaN"
  | Finite q => pretty (Qfloor q)
  | Infinity negative => if negative then "-Infinity" else "Infinity"
  end.

(** An engine that refuses every simulation request with status 422 and a
    [detail]. *)
Definition refusing (body : SimulateBody.t) : Completion SimulateResponse :=
  Return (response_not_ok 422 "Unprocessable Entity" (Return (Some "unknown sender"))).

(** The user fills in the form, simulates twice (the second request is
    refused), restores the first run from the history and clears it. *)
Definition events : list SimulatorPanel.Event :=
  [ SimulatorPanel.panel_opened (Return (accounts_ok (Return (Some ["A"; "B"]))));
    SimulatorPanel.change_sender " A ";
    SimulatorPanel.change_receiver "C";
    SimulatorPanel.click_simulate Example.fetch;
    SimulatorPanel.change_amount "500";
    SimulatorPanel.click_simulate Example.fetch;
    SimulatorPanel.change_amount "7";
    SimulatorPanel.click_simulate refusing;
    SimulatorPanel.click_history 0;
    SimulatorPanel.click_clear_simulation ].

(** A ring as the engine reports a layering chain. *)
Definition layering_ring : ApiFraudRing.t :=
  {| ApiFraudRing.ring_id := "RING_007"; ApiFraudRing.pattern_type := "layering";
     ApiFraudRing.member_accounts := ["A"; "B"; "C"; "D"];
     ApiFraudRing.member_count := 4%Q; ApiFraudRing.risk_score := 65%Q;
     ApiFraudRing.total_amount := 12000%Q; ApiFraudRing.edges := [];
     ApiFraudRing.center_node := None |}.

(** The engine's answer to a transfer of 50 from a new account N to itself. *)
Definition self_transfer : SimulationResult.t :=
  {| SimulationResult.simulation_id := "SIM_2";
     SimulationResult.hypothetical_tx :=
       {| HypotheticalTx.sender_id := "N"; HypotheticalTx.receiver_id := "N";
          HypotheticalTx.amount := 50%Q;
          HypotheticalTx.timestamp := "2024-01-02T00:00:00.000Z" |};
     SimulationResult.verdict := CLEAN;
     SimulationResult.verdict_reason := "no impact";
     SimulationResult.new_cycles_created := [];
     SimulationResult.rings_affected := [];
     SimulationResult.rings_merged := [];
     SimulationResult.score_deltas := [];
     SimulationResult.new_smurfing_triggered := false;
     SimulationResult.smurfing_account := None;
     SimulationResult.new_shell_chain_extended := false;
     SimulationResult.chain_extension_detail := None;
     SimulationResult.subgraph_delta :=
       {| SubgraphDelta.nodes_affected := 0%Q; SubgraphDelta.edges_added := 1%Q;
          SubgraphDelta.new_nodes_introduced := 1%Q |};
     SimulationResult.processing_time_ms := 3%Q |}.

(** [mapApiToRings] run on the example response as parsed into the heap. *)
Definition rings_run : Completion OnHeap.Value * gmap OnHeap.loc OnHeap.Object :=
  Eval vm_compute in OnHeap.mapApiToRings Example.response_object Example.heap.

Definition rings_value : OnHeap.Value :=
  match rings_run.1 with
  | Return v => v
  | Throw _ => OnHeap.VUndefined
  end.

(** A response with a transfer of C to itself among its edges. *)
Definition transfers_graph : ApiGraph.t :=
  {| ApiGraph.nodes :=
       [Example.node_A; Example.node_B; Example.node "C" 55%Q 2%Q 2%Q [] 25000%Q];
     ApiGraph.edges :=
       [Example.edge "A" "B" 1000%Q; Example.edge "C" "C" (7 # 10)%Q;
        Example.edge "B" "C" 3%Q; Example.edge "C" "A" (14 # 10)%Q] |}.

Definition transfers : AnalysisResponse.t :=
  AnalysisResponse.complete [] Example.rings Example.summary transfers_graph.

Definition transfer_accounts : list Account.t :=
  Eval vm_compute in
    match mapApiToAccounts Example.env transfers with Return l => l | Throw _ => [] end.

Definition account_C : Account.t :=
  Eval vm_compute in
    account_of Example.env (accountScoreMap []) (connectionsMap (ApiGraph.edges transfers_graph))
               (nodeRingMap Example.rings) 2 (Example.node "C" 55%Q 2%Q 2%Q [] 25000%Q).

(** Twenty-five transactions, the first of them a refund booked with a
    negative amount. *)
Definition refund_transactions : list Transaction.t :=
  imap (fun i amount =>
          {| Transaction.id := "TX_" +:+ padStart0 6 (pretty i);
             Transaction.source := "A"; Transaction.target := "B";
             Transaction.amount := amount;
             Transaction.timestamp := "2024-01-01T00:00:00.000Z";
             Transaction.isFraud := Nat.even i |})
       ((-250)%Q :: replicate 24 (100 # 3)%Q).

End Walkthrough.

(** * Properties *)

(** ** Ring membership: first-seen ring wins *)

Section RingMembership.

Implicit Types (m : gmap string string) (u rid : string).

Lemma add_members_lookup rid members m u :
  foldl (add_member rid) m members !! u =
    match m !! u with
    | Some x => Some x
    | None => if bool_decide (u ∈ members) then Some rid else None
    end.
Proof.
  revert m. induction members as [|x members IH]; intros m; simpl.
  - by destruct (m !! u).
  - rewrite IH. unfold add_member.
    destruct (decide (x = u)) as [->|Hne].
    + rewrite (bool_decide_eq_true_2 (u ∈ u :: members)) by set_solver.
      destruct (m !! u) eqn:Hu.
      * rewrite bool_decide_eq_true_2 by eauto. by rewrite Hu.
      * rewrite bool_decide_eq_false_2 by (intros [? ?]; congruence).
        by rewrite lookup_insert_eq.
    + assert (u ∈ x :: members ↔ u ∈ members) as Hiff.
      { split; [intros [?|?]%elem_of_cons; [congruence|done] | apply list_elem_of_further]. }
      rewrite (bool_decide_ext _ _ Hiff).
      destruct (bool_decide (is_Some (m !! x))); [done|]. by rewrite lookup_insert_ne.
Qed.

Lemma add_rings_lookup rings m u :
  foldl add_ring m rings !! u =
    match m !! u with
    | Some x => Some x
    | None =>
        ApiFraudRing.ring_id <$>
          List.find (fun r => bool_decide (u ∈ ApiFraudRing.member_accounts r)) rings
    end.
Proof.
  revert m. induction rings as [|r rings IH]; intros m; simpl.
  - by destruct (m !! u).
  - rewrite IH. unfold add_ring. rewrite add_members_lookup.
    destruct (m !! u); [done|]. by case_bool_decide.
Qed.

Lemma nodeRingMap_lookup rings u :
  nodeRingMap rings !! u =
    ApiFraudRing.ring_id <$>
      List.find (fun r => bool_decide (u ∈ ApiFraudRing.member_accounts r)) rings.
Proof. unfold nodeRingMap. by rewrite add_rings_lookup, lookup_empty. Qed.

Lemma find_first_position {A} (p : A → bool) (l : list A) :
  match List.find p l with
  | Some x => ∃ k, l !! k = Some x ∧ p x = true ∧
                   ∀ j y, (j < k)%nat → l !! j = Some y → p y = false
  | None => ∀ y, y ∈ l → p y = false
  end.
Proof.
  induction l as [|x l IH]; simpl.
  - intros y Hy. by apply elem_of_nil in Hy.
  - destruct (p x) eqn:Hpx.
    + exists 0%nat. repeat split; [done|]. intros j y Hj. lia.
    + destruct (List.find p l) as [z|].
      * destruct IH as (k & Hk & Hz & Hbefore). exists (S k). repeat split; [done..|].
        intros [|j] y Hj Hy; simpl in Hy; [by simplify_eq|].
        apply (Hbefore j); [lia|done].
      * intros y [->|Hy]%elem_of_cons; [done|by apply IH].
Qed.

End RingMembership.

Lemma mapApiToAccounts_inv env response accounts :
  mapApiToAccounts env response = Return accounts →
  ∃ sa g rings,
    AnalysisResponse.suspicious_accounts response = Some sa ∧
    AnalysisResponse.graph response = Some g ∧
    AnalysisResponse.fraud_rings response = Some rings ∧
    accounts = imap (account_of env (accountScoreMap sa)
                       (connectionsMap (ApiGraph.edges g)) (nodeRingMap rings))
                    (ApiGraph.nodes g).
Proof.
  unfold mapApiToAccounts. destruct response as [[sa|] [rings|] sm [g|]]; simpl; try done.
  intros [= <-]. by exists sa, g, rings.
Qed.

Lemma mapApiToAccounts_complete env sa rings sm g :
  mapApiToAccounts env (AnalysisResponse.complete sa rings sm g) =
    Return (imap (account_of env (accountScoreMap sa)
                    (connectionsMap (ApiGraph.edges g)) (nodeRingMap rings))
                 (ApiGraph.nodes g)).
Proof. reflexivity. Qed.

Lemma elem_of_imap_inv {A B} (f : nat → A → B) (l : list A) (y : B) :
  y ∈ imap f l → ∃ i x, l !! i = Some x ∧ y = f i x.
Proof.
  intros (i & Hi)%list_elem_of_lookup. rewrite list_lookup_imap in Hi.
  destruct (l !! i) as [x|] eqn:Hx; simplify_eq/=. eauto.
Qed.

(** ** The connection index *)

Section ConnectionIndex.

Implicit Types (m : gmap string (list Connection.t)) (u key : string).

Lemma push_connection_lookup key c m u :
  default [] (push_connection key c m !! u) =
    default [] (m !! u) ++ (if decide (key = u) then [c] else []).
Proof.
  unfold push_connection. destruct (decide (key = u)) as [->|Hne].
  - rewrite lookup_insert_eq. simpl. f_equal.
    case_bool_decide as Hu; [done|].
    rewrite lookup_insert_eq. apply eq_None_not_Some in Hu. by rewrite Hu.
  - rewrite lookup_insert_ne by done. rewrite app_nil_r.
    case_bool_decide; [done|]. by rewrite lookup_insert_ne.
Qed.

Lemma add_edge_lookup edge m u :
  default [] (add_edge m edge !! u) = default [] (m !! u) ++ incident u edge.
Proof.
  unfold add_edge, incident. rewrite !push_connection_lookup. by rewrite <- app_assoc.
Qed.

Lemma add_edges_lookup edges m u :
  default [] (foldl add_edge m edges !! u) =
    default [] (m !! u) ++ flat_map (incident u) edges.
Proof.
  revert m. induction edges as [|edge edges IH]; intros m; simpl.
  - by rewrite app_nil_r.
  - by rewrite IH, add_edge_lookup, <- app_assoc.
Qed.

Lemma connectionsMap_lookup edges u :
  default [] (connectionsMap edges !! u) = flat_map (incident u) edges.
Proof. unfold connectionsMap. by rewrite add_edges_lookup, lookup_empty. Qed.

End ConnectionIndex.

Lemma account_of_connections env scores edges ringOf i node :
  Account.connections (account_of env scores (connectionsMap edges) ringOf i node) =
    flat_map (incident (ApiGraphNode.id node)) edges.
Proof. simpl. apply connectionsMap_lookup. Qed.

Section Counting.

Context {A : Type}.
Implicit Types (p q : A → bool) (l : list A).

Lemma count_app p l1 l2 : count p (l1 ++ l2) = (count p l1 + count p l2)%nat.
Proof. unfold count. by rewrite List.filter_app, length_app. Qed.

Lemma count_cons p x l : count p (x :: l) = ((if p x then 1 else 0) + count p l)%nat.
Proof. unfold count. simpl. by destruct (p x). Qed.

Lemma count_ext p q l : (∀ x, p x = q x) → count p l = count q l.
Proof. intros Hpq. unfold count. by rewrite (List.filter_ext p q Hpq). Qed.

Lemma count_none p l : forallb (fun x => negb (p x)) l = true → count p l = 0%nat.
Proof.
  induction l as [|x l IH]; simpl; [done|].
  intros [Hx Hl]%andb_true_iff. rewrite count_cons, IH by done.
  by destruct (p x).
Qed.

End Counting.

Lemma count_flat_map {A B} (p : B → bool) (q : A → bool) (f : A → list B) (l : list A) :
  (∀ x, count p (f x) = if q x then 1%nat else 0%nat) →
  count p (flat_map f l) = count q l.
Proof.
  intros Hf. induction l as [|x l IH]; [done|].
  cbn [flat_map]. by rewrite count_app, Hf, IH, count_cons.
Qed.


Section ConnectionSymmetry.

Implicit Types (e : ApiGraphEdge.t) (u peer : string) (amount : Q).

Lemma Qeq_bool_sym (x y : Q) : Qeq_bool x y = Qeq_bool y x.
Proof.
  destruct (Qeq_bool x y) eqn:Hxy, (Qeq_bool y x) eqn:Hyx; try done.
  - apply Qeq_bool_iff in Hxy. symmetry in Hxy. apply Qeq_bool_iff in Hxy. congruence.
  - apply Qeq_bool_iff in Hyx. symmetry in Hyx. apply Qeq_bool_iff in Hyx. congruence.
Qed.

Lemma Qeq_bool_trans_r (x y z : Q) : Qeq_bool x y = true → Qeq_bool y z = Qeq_bool x z.
Proof.
  intros Hxy%Qeq_bool_iff.
  destruct (Qeq_bool y z) eqn:Hyz, (Qeq_bool x z) eqn:Hxz; try done.
  - apply Qeq_bool_iff in Hyz. rewrite <- Hxy in Hyz. apply Qeq_bool_iff in Hyz. congruence.
  - apply Qeq_bool_iff in Hxz. rewrite Hxy in Hxz. apply Qeq_bool_iff in Hxz. congruence.
Qed.

Lemma count_out_incident u peer amount e :
  count (is_connection dir_out peer amount) (incident u e) =
    if is_edge u peer amount e then 1%nat else 0%nat.
Proof.
  unfold incident, is_edge, is_connection, count.
  destruct (decide (ApiGraphEdge.source e = u)) as [Hs|Hs],
           (decide (ApiGraphEdge.target e = u)) as [Ht|Ht]; simpl;
    rewrite ?(bool_decide_eq_true_2 _ Hs), ?(bool_decide_eq_false_2 _ Hs); simpl;
    try done;
    by destruct (bool_decide (ApiGraphEdge.target e = peer)),
                (Qeq_bool (ApiGraphEdge.total_amount e) amount).
Qed.

Lemma count_in_incident u peer amount e :
  count (is_connection dir_in peer amount) (incident u e) =
    if is_edge peer u amount e then 1%nat else 0%nat.
Proof.
  unfold incident, is_edge, is_connection, count.
  destruct (decide (ApiGraphEdge.source e = u)) as [Hs|Hs],
           (decide (ApiGraphEdge.target e = u)) as [Ht|Ht]; simpl;
    rewrite ?(bool_decide_eq_true_2 _ Ht), ?(bool_decide_eq_false_2 _ Ht),
            ?andb_false_r; simpl;
    try done;
    by destruct (bool_decide (ApiGraphEdge.source e = peer)),
                (Qeq_bool (ApiGraphEdge.total_amount e) amount).
Qed.

(** An account holds as many [out] entries [{peer, amount}] as the graph
    has edges from it to [peer] of that amount, and likewise for [in]. *)
Lemma count_out_connections u peer amount edges :
  count (is_connection dir_out peer amount) (flat_map (incident u) edges) =
    count (is_edge u peer amount) edges.
Proof. apply count_flat_map. intros e. apply count_out_incident. Qed.

Lemma count_in_connections u peer amount edges :
  count (is_connection dir_in peer amount) (flat_map (incident u) edges) =
    count (is_edge peer u amount) edges.
Proof. apply count_flat_map. intros e. apply count_in_incident. Qed.

Lemma same_edge_refl e : same_edge e e = true.
Proof.
  unfold same_edge, is_edge. rewrite !bool_decide_eq_true_2 by done. simpl.
  apply Qeq_bool_iff. reflexivity.
Qed.

Lemma same_edge_sym e e' : same_edge e e' = same_edge e' e.
Proof.
  unfold same_edge, is_edge.
  rewrite (Qeq_bool_sym (ApiGraphEdge.total_amount e')).
  repeat case_bool_decide; simpl; congruence.
Qed.

Lemma same_edge_ext e e' e'' :
  same_edge e e' = true → same_edge e' e'' = same_edge e e''.
Proof.
  unfold same_edge, is_edge. intros [[Hs Ht]%andb_true_iff Ha]%andb_true_iff.
  apply bool_decide_eq_true_1 in Hs, Ht.
  rewrite (Qeq_bool_sym (ApiGraphEdge.total_amount e'')),
          (Qeq_bool_sym (ApiGraphEdge.total_amount e'') (ApiGraphEdge.total_amount e)).
  rewrite Qeq_bool_sym in Ha. rewrite (Qeq_bool_trans_r _ _ _ Ha).
  repeat case_bool_decide; simpl; congruence.
Qed.

Lemma edges_distinct_count edges e :
  edges_distinct edges = true → e ∈ edges → count (same_edge e) edges = 1%nat.
Proof.
  induction edges as [|e0 edges IH]; simpl.
  - intros _ He. by apply elem_of_nil in He.
  - intros [Hhead Hrest]%andb_true_iff He. rewrite count_cons.
    destruct (same_edge e e0) eqn:Hee0.
    + rewrite (count_ext _ (same_edge e0)).
      * by rewrite count_none.
      * intros x. apply same_edge_ext. by rewrite same_edge_sym.
    + apply elem_of_cons in He as [->|He].
      * by rewrite same_edge_refl in Hee0.
      * by rewrite IH.
Qed.

Lemma incident_edge_of_connection u e c :
  c ∈ incident u e → ∀ e', edge_of_connection u c e' = same_edge e e'.
Proof.
  unfold incident. intros Hc e'.
  apply elem_of_app in Hc as [Hc|Hc]; case_decide as Hu; try (by apply elem_of_nil in Hc);
    apply list_elem_of_singleton in Hc as ->; unfold edge_of_connection, same_edge; simpl;
    by rewrite Hu.
Qed.

Lemma is_node_id_account env scores conns ringOf g u :
  is_node_id g u = true →
  ∃ a, a ∈ imap (account_of env scores conns ringOf) (ApiGraph.nodes g) ∧ Account.id a = u.
Proof.
  unfold is_node_id. intros (n & Hn & Hid)%existsb_exists.
  apply bool_decide_eq_true_1 in Hid.
  apply list_elem_of_In, list_elem_of_lookup in Hn as [i Hi].
  exists (account_of env scores conns ringOf i n). split; [|done].
  apply list_elem_of_lookup. exists i. by rewrite list_lookup_imap, Hi.
Qed.

End ConnectionSymmetry.

Lemma mapApiToTransactions_inv env response transactions :
  mapApiToTransactions env response = Return transactions →
  ∃ g, AnalysisResponse.graph response = Some g ∧
       transactions = imap (transaction_of env) (ApiGraph.edges g).
Proof.
  unfold mapApiToTransactions. destruct (AnalysisResponse.graph response) as [g|]; simpl;
    [|done].
  intros [= <-]. by exists g.
Qed.

(** C4. An account's [ringId], when present, is the [ring_id] of the first
    ring, in the order of the response's [fraud_rings], whose
    [member_accounts] lists the account's id: that ring lists it and no ring
    before it does. An account that no ring lists has no [ringId]. *)
Theorem ring_uniqueness env response rings accounts a :
  AnalysisResponse.fraud_rings response = Some rings →
  mapApiToAccounts env response = Return accounts →
  a ∈ accounts →
  match Account.ringId a with
  | Some rid =>
      ∃ k ring, rings !! k = Some ring ∧ ApiFraudRing.ring_id ring = rid ∧
        Account.id a ∈ ApiFraudRing.member_accounts ring ∧
        ∀ j ring', (j < k)%nat → rings !! j = Some ring' →
                   Account.id a ∉ ApiFraudRing.member_accounts ring'
  | None => ∀ ring, ring ∈ rings → Account.id a ∉ ApiFraudRing.member_accounts ring
  end.
Proof.
  intros Hrings (sa & g & rings' & _ & _ & Hrings' & ->)%mapApiToAccounts_inv Ha.
  assert (rings' = rings) as -> by congruence.
  apply elem_of_imap_inv in Ha as (i & node & _ & ->). simpl.
  rewrite nodeRingMap_lookup.
  pose proof (find_first_position
    (fun r => bool_decide (ApiGraphNode.id node ∈ ApiFraudRing.member_accounts r)) rings)
    as Hfind.
  destruct (List.find _ rings) as [ring|]; simpl.
  - destruct Hfind as (k & Hk & Hin & Hbefore). exists k, ring.
    repeat split; [done| |].
    + by apply bool_decide_eq_true_1 in Hin.
    + intros j ring' Hj Hring'. specialize (Hbefore j ring' Hj Hring').
      by apply bool_decide_eq_false_1 in Hbefore.
  - intros ring Hring. specialize (Hfind ring Hring).
    by apply bool_decide_eq_false_1 in Hfind.
Qed.

Lemma ring_uniqueness_witness :
  ∃ k ring, Example.rings !! k = Some ring ∧ ApiFraudRing.ring_id ring = "R1" ∧
    "A" ∈ ApiFraudRing.member_accounts ring ∧
    ∀ j ring', (j < k)%nat → Example.rings !! j = Some ring' →
               "A" ∉ ApiFraudRing.member_accounts ring'.
Proof.
  exact (ring_uniqueness Example.env Example.response Example.rings Example.accounts
           Example.account_A eq_refl eq_refl (list_elem_of_here _ _)).
Defined.

(** C1 (as amended). When no two edges of the response have the same
    source, target and amount, and every edge endpoint is the id of a graph
    node, the projection is connection-symmetric: for every transaction
    (s, t, amount) an account with id s exists and has exactly one [out]
    connection (t, amount), an account with id t exists and has exactly one
    [in] connection (s, amount), and every connection entry of every account
    stands for exactly one edge of the response. *)
Theorem connection_symmetry response g :
  AnalysisResponse.graph response = Some g →
  edges_distinct (ApiGraph.edges g) = true →
  endpoints_are_nodes g = true →
  symmetric_projection response.
Proof.
  intros Hg Hdistinct Hends env g1 accounts transactions Hg1.
  assert (g1 = g) as -> by congruence.
  intros (sa & g2 & rings & _ & Hg2 & _ & ->)%mapApiToAccounts_inv
         (g3 & Hg3 & ->)%mapApiToTransactions_inv.
  assert (g2 = g) as -> by congruence. assert (g3 = g) as -> by congruence.
  unfold endpoints_are_nodes in Hends. rewrite forallb_forall in Hends.
  split.
  - intros tx (i & e & He & ->)%elem_of_imap_inv. simpl.
    assert (e ∈ ApiGraph.edges g) as Hin by (by eapply list_elem_of_lookup_2).
    assert (In e (ApiGraph.edges g)) as Hends_e by (by apply list_elem_of_In).
    apply Hends, andb_true_iff in Hends_e as [Hsrc Htgt].
    split; (split; [by apply is_node_id_account|]).
    + intros a (j & n & _ & ->)%elem_of_imap_inv Hid.
      rewrite account_of_connections, count_out_connections.
      simpl in Hid. rewrite Hid. by apply edges_distinct_count.
    + intros a (j & n & _ & ->)%elem_of_imap_inv Hid.
      rewrite account_of_connections, count_in_connections.
      simpl in Hid. rewrite Hid. by apply edges_distinct_count.
  - intros a c (j & n & _ & ->)%elem_of_imap_inv.
    rewrite account_of_connections. intros (e & He & Hc)%list_elem_of_In%in_flat_map.
    apply list_elem_of_In in He, Hc.
    rewrite (count_ext _ (same_edge e)) by (by apply incident_edge_of_connection).
    by apply edges_distinct_count.
Qed.

Lemma connection_symmetry_witness : symmetric_projection Example.response.
Proof.
  exact (connection_symmetry Example.response Example.graph eq_refl eq_refl eq_refl).
Defined.

(** C1 as stated fails: when the response lists the edge A -> B of 1000
    twice, account A holds two [out] connections (B, 1000), not one. *)
Lemma connection_symmetry_counterexample :
  ¬ symmetric_projection Example.duplicate_edge_response.
Proof.
  intros Hall.
  destruct (Hall Example.env Example.duplicate_edge_graph _ _ eq_refl eq_refl eq_refl)
    as [Htx _].
  destruct (Htx _ (list_elem_of_here _ _)) as [[_ Hout] _].
  specialize (Hout _ (list_elem_of_here _ _) eq_refl).
  vm_compute in Hout. discriminate Hout.
Qed.

(** A second way the unamended statement fails: an edge whose source is not
    among the graph nodes yields a transaction with no account to hold its
    connection. *)
Lemma edge_without_node_breaks_symmetry :
  ¬ symmetric_projection
      (AnalysisResponse.complete [] [] Example.summary
         {| ApiGraph.nodes := [Example.node_B];
            ApiGraph.edges := [Example.edge "A" "B" 1000%Q] |}).
Proof.
  intros Hall.
  destruct (Hall Example.env _ _ _ eq_refl eq_refl eq_refl) as [Htx _].
  destruct (Htx _ (list_elem_of_here _ _)) as [[(a & Ha & Hid) _] _].
  apply list_elem_of_singleton in Ha as ->. vm_compute in Hid. discriminate Hid.
Qed.

Section Numbers.

Local Open Scope Q_scope.

Lemma Math_round_nonneg x : 0 <= x → 0 <= Math_round x.
Proof.
  intros Hx. unfold Math_round.
  assert (Qfloor 0 <= Qfloor (x + (1 # 2)))%Z as Hfloor by (apply Qfloor_resp_le; lra).
  change (Qfloor 0) with 0%Z in Hfloor. rewrite Zle_Qle in Hfloor. exact Hfloor.
Qed.

Lemma Math_round_le x (n : Z) : x <= inject_Z n → Math_round x <= inject_Z n.
Proof.
  intros Hx. unfold Math_round. rewrite <- Zle_Qle.
  pose proof (Qfloor_le (x + (1 # 2))) as Hfloor.
  assert (inject_Z (Qfloor (x + (1 # 2))) < inject_Z (n + 1)) as Hlt
    by (rewrite inject_Z_plus; change (inject_Z 1) with 1; lra).
  rewrite <- Zlt_Qlt in Hlt. lia.
Qed.

Lemma Math_min_100_le y : Math_min 100 y <= 100.
Proof. apply Q.le_min_l. Qed.

Lemma Math_min_100_nonneg y : 0 <= y → 0 <= Math_min 100 y.
Proof. intros Hy. apply Q.min_glb; [lra|done]. Qed.

Lemma Math_max_1_pos y : 0 < Math_max 1 y.
Proof. pose proof (Q.le_max_l 1 y). unfold Math_max. lra. Qed.

Lemma Qdiv_nonneg a b : 0 <= a → 0 < b → 0 <= a / b.
Proof. intros Ha Hb. apply Qle_shift_div_l; [done|lra]. Qed.

Lemma js_rem_100_nonneg x : 0 <= x → 0 <= js_rem x 100.
Proof.
  intros Hx. unfold js_rem, Qtrunc.
  assert (0 <= x / 100) as Hdiv by (apply Qdiv_nonneg; lra).
  apply Qle_bool_iff in Hdiv as Hb. rewrite Hb.
  pose proof (Qfloor_le (x / 100)) as Hfloor.
  assert (x == x / 100 * 100) as Hx100 by field.
  revert Hfloor Hx100. generalize (inject_Z (Qfloor (x / 100))), (x / 100).
  intros f y Hf Hy. lra.
Qed.

End Numbers.

Section ScoreBounds.

Local Open Scope Q_scope.

Lemma foldl_amount_nonneg (connections : list Connection.t) (acc : Q) :
  0 <= acc → (∀ c, c ∈ connections → 0 <= Connection.amount c) →
  0 <= foldl (fun sum c => sum + Connection.amount c) acc connections.
Proof.
  revert acc. induction connections as [|c connections IH]; intros acc Hacc Hall; simpl.
  - done.
  - apply IH.
    + pose proof (Hall c (list_elem_of_here _ _)). lra.
    + intros c' Hc'. apply Hall. by apply list_elem_of_further.
Qed.

Lemma total_of_nonneg d (connections : list Connection.t) :
  (∀ c, c ∈ connections → 0 <= Connection.amount c) → 0 <= total_of d connections.
Proof.
  intros Hall. unfold total_of. apply foldl_amount_nonneg; [lra|].
  intros c [_ Hc]%list_elem_of_filter. by apply Hall.
Qed.

Lemma incident_amount u (edges : list ApiGraphEdge.t) c :
  c ∈ flat_map (incident u) edges →
  ∃ e, e ∈ edges ∧ Connection.amount c = ApiGraphEdge.total_amount e.
Proof.
  intros (e & He & Hc)%list_elem_of_In%in_flat_map. apply list_elem_of_In in He, Hc.
  exists e. split; [done|]. unfold incident in Hc.
  apply elem_of_app in Hc as [Hc|Hc]; case_decide; try (by apply elem_of_nil in Hc);
    by apply list_elem_of_singleton in Hc as ->.
Qed.

Lemma accountScoreMap_lookup_elem (sa : list ApiSuspiciousAccount.t) k a :
  accountScoreMap sa !! k = Some a → a ∈ sa.
Proof.
  unfold accountScoreMap.
  assert (∀ m : gmap string ApiSuspiciousAccount.t,
            foldl (fun m a => <[ApiSuspiciousAccount.account_id a := a]> m) m sa !! k = Some a →
            a ∈ sa ∨ m !! k = Some a) as Hgen.
  { induction sa as [|x sa IH]; intros m; simpl; [by right|].
    intros [Hin|Hm]%IH; [left; by apply list_elem_of_further|].
    destruct (decide (ApiSuspiciousAccount.account_id x = k)) as [<-|Hne].
    - rewrite lookup_insert_eq in Hm. injection Hm as ->. left. apply list_elem_of_here.
    - rewrite lookup_insert_ne in Hm by done. by right. }
  intros [?|Hempty]%Hgen; [done|]. by rewrite lookup_empty in Hempty.
Qed.

Lemma behavioralDna_in_bounds node score totalOut :
  node_in_range node → 0 <= score → 0 <= totalOut →
  dna_in_bounds (behavioralDna_of node score totalOut).
Proof.
  intros (_ & Hin & Hout & Hvol & Htc) Hscore Htotal.
  unfold dna_in_bounds, behavioralDna_of, behavioralDna, in_0_100.
  cbn [BehavioralDna.velocity BehavioralDna.amtVariance BehavioralDna.fanSymmetry
       BehavioralDna.temporalCluster BehavioralDna.hopDepth BehavioralDna.amtDecay].
  repeat split; try apply Math_min_100_le.
  - apply Math_min_100_nonneg, Math_round_nonneg.
    apply Qmult_le_0_compat; [|lra]. apply Qdiv_nonneg; [done|apply Math_max_1_pos].
  - apply Math_min_100_nonneg, Math_round_nonneg, js_rem_100_nonneg.
    apply Qdiv_nonneg; [done|lra].
  - destruct (Qlt_le_dec _ _) as [Hpos|_]; [|lra].
    apply Math_round_nonneg, Qmult_le_0_compat; [|lra].
    apply Qdiv_nonneg; [apply Qabs_nonneg|done].
  - destruct (Qlt_le_dec _ _) as [Hpos|_]; [|lra].
    apply (Math_round_le _ 100).
    assert (Math_abs (ApiGraphNode.in_degree node - ApiGraphNode.out_degree node) /
              (ApiGraphNode.in_degree node + ApiGraphNode.out_degree node) <= 1) as Hratio.
    { apply Qle_shift_div_r; [done|]. apply Qabs_Qle_condition. lra. }
    change (inject_Z 100) with 100. lra.
  - apply Math_min_100_nonneg, Math_round_nonneg. lra.
  - apply Math_min_100_nonneg. case_decide.
    + pose proof (Math_round_nonneg (score * (4 # 10))). lra.
    + apply Math_round_nonneg. lra.
  - apply Math_min_100_nonneg, Math_round_nonneg.
    destruct (Qlt_le_dec _ _) as [Hpos|_]; [|lra].
    apply Qmult_le_0_compat; [|lra]. apply Qdiv_nonneg; [done|apply Math_max_1_pos].
Qed.

End ScoreBounds.

Section ScoreBoundsTheorem.

Local Open Scope Q_scope.

Lemma in_0_100b_spec x : in_0_100b x = true → in_0_100 x.
Proof.
  unfold in_0_100b, in_0_100. intros [H0 H100]%andb_true_iff.
  by apply Qle_bool_iff in H0, H100.
Qed.

Lemma node_in_rangeb_spec n : node_in_rangeb n = true → node_in_range n.
Proof.
  unfold node_in_rangeb, node_in_range.
  intros [[[[Hs Hi]%andb_true_iff Ho]%andb_true_iff Hv]%andb_true_iff Ht]%andb_true_iff.
  apply Qle_bool_iff in Hi, Ho, Hv, Ht. by apply in_0_100b_spec in Hs.
Qed.

Lemma response_in_rangeb_spec sa g :
  response_in_rangeb sa g = true → response_in_range sa g.
Proof.
  unfold response_in_rangeb, response_in_range.
  intros [[Hsa Hnodes]%andb_true_iff Hedges]%andb_true_iff.
  rewrite forallb_forall in Hsa, Hnodes, Hedges. split; [|split].
  - intros a Ha%list_elem_of_In. by apply in_0_100b_spec, Hsa.
  - intros n Hn%list_elem_of_In. by apply node_in_rangeb_spec, Hnodes.
  - intros e He%list_elem_of_In. by apply Qle_bool_iff, Hedges.
Qed.

(** C5 (as amended). When the engine's numbers are in range (every
    suspicion score of the response within 0..100; degrees, transaction
    counts, volumes and edge amounts not negative), every projected account
    has its [suspicionScore] and its six [behavioralDna] fields within
    0..100. *)
Theorem score_bounds response sa g :
  AnalysisResponse.suspicious_accounts response = Some sa →
  AnalysisResponse.graph response = Some g →
  response_in_rangeb sa g = true →
  all_scores_bounded response.
Proof.
  intros Hsa Hg (Hscores & Hnodes & Hedges)%response_in_rangeb_spec env accounts a.
  intros (sa' & g' & rings & Hsa' & Hg' & _ & ->)%mapApiToAccounts_inv.
  assert (sa' = sa) as -> by congruence. assert (g' = g) as -> by congruence.
  intros (i & node & Hnode%list_elem_of_lookup_2 & ->)%elem_of_imap_inv.
  pose proof (Hnodes node Hnode) as Hrange.
  assert (in_0_100 (Account.suspicionScore
            (account_of env (accountScoreMap sa) (connectionsMap (ApiGraph.edges g))
                        (nodeRingMap rings) i node))) as Hscore.
  { cbn [account_of Account.suspicionScore].
    destruct (accountScoreMap sa !! ApiGraphNode.id node) as [acct|] eqn:Hacct.
    - by apply Hscores, (accountScoreMap_lookup_elem sa (ApiGraphNode.id node)).
    - apply Hrange. }
  split; [done|].
  cbn [account_of Account.behavioralDna]. apply behavioralDna_in_bounds; [done|apply Hscore|].
  apply total_of_nonneg. intros c Hc. rewrite connectionsMap_lookup in Hc.
  apply incident_amount in Hc as (e & He & ->). by apply Hedges.
Qed.

Lemma score_bounds_witness : all_scores_bounded Example.response.
Proof. exact (score_bounds Example.response [] Example.graph eq_refl eq_refl eq_refl). Defined.

(** C5 as stated fails: the mapper passes the engine's score through, so a
    node scored 150 yields an account whose [suspicionScore] is 150. *)
Lemma score_bounds_counterexample : ¬ all_scores_bounded Example.overscored_response.
Proof.
  intros Hall.
  destruct (Hall Example.env _ _ eq_refl (list_elem_of_here _ _)) as [[_ Hle] _].
  vm_compute in Hle. by apply Hle.
Qed.

(** The bounds also lean on the degrees being counts: with an in-degree of
    -1 and an out-degree of 3 the fan symmetry is 200. *)
Lemma negative_degree_breaks_bounds :
  BehavioralDna.fanSymmetry (behavioralDna 4 (-1) 3 0 0 50 0) == 200.
Proof. reflexivity. Qed.

End ScoreBoundsTheorem.

Section Idempotence.

Lemma account_of_without_avgHoldTime env1 env2 scores conns ringOf i node :
  without_avgHoldTime (account_of env1 scores conns ringOf i node) =
  without_avgHoldTime (account_of env2 scores conns ringOf i node).
Proof. reflexivity. Qed.

Lemma transaction_of_without_timestamp env1 env2 i edge :
  without_timestamp (transaction_of env1 i edge) =
  without_timestamp (transaction_of env2 i edge).
Proof. reflexivity. Qed.

Lemma fmap_imap_ext {A B C} (h : B → C) (f g : nat → A → B) (l : list A) :
  (∀ i x, h (f i x) = h (g i x)) → h <$> imap f l = h <$> imap g l.
Proof.
  intros Hfg. revert f g Hfg. induction l as [|x l IH]; intros f g Hfg; simpl; [done|].
  f_equal; [apply Hfg|]. apply IH. intros i y. apply Hfg.
Qed.

(** C3 (as amended). Two runs of the mapper on the same response, whatever
    [Math.random()] and the clock give in each, agree on the ring collection
    and on every field of every account and transaction except
    [networkStats.avgHoldTime] and [timestamp]; in particular both runs assign
    the same transaction ids, and both fail or both succeed. *)
Theorem idempotence_up_to_placeholders env1 env2 response :
  without_placeholders (Mapper env1 response) =
  without_placeholders (Mapper env2 response).
Proof.
  unfold Mapper, mapApiToAccounts, mapApiToRings, mapApiToTransactions.
  destruct response as [[sa|] [rings|] sm [g|]]; simpl; try done.
  f_equal. f_equal; [f_equal|].
  - apply fmap_imap_ext. intros i node. apply account_of_without_avgHoldTime.
  - apply fmap_imap_ext. intros i edge. apply transaction_of_without_timestamp.
Qed.

(** C3 as stated fails: two runs on the same response that draw different
    random numbers produce different [avgHoldTime] values. *)
Lemma idempotence_counterexample : ¬ idempotent_on Example.response.
Proof.
  intros Hall. specialize (Hall Example.env Example.env_later).
  vm_compute in Hall. discriminate Hall.
Qed.

End Idempotence.

Section Overlay.

Implicit Types (el : Element.t) (elements : list Element.t) (sim : SimulationResult.t).

Lemma string_app_assoc (s1 s2 s3 : string) : (s1 +:+ s2) +:+ s3 = s1 +:+ (s2 +:+ s3).
Proof.
  induction s1 as [|c s1 IH]; [done|].
  change (String c ((s1 +:+ s2) +:+ s3) = String c (s1 +:+ (s2 +:+ s3))). by rewrite IH.
Qed.

Lemma string_app_nil_r (s : string) : s +:+ "" = s.
Proof.
  induction s as [|c s IH]; [done|].
  change (String c (s +:+ "") = String c s). by rewrite IH.
Qed.

Lemma add_tag_id ids tag el : Element.id (add_tag ids tag el) = Element.id el.
Proof. unfold add_tag. by destruct (truthy _ && bool_decide _). Qed.

Lemma mark_tagged sim el : mark (affectedIds sim) (cycleIds sim) el = tagged sim el.
Proof.
  unfold mark, tagged, overlay_suffix.
  unfold add_tag at 1. rewrite add_tag_id. unfold add_tag.
  destruct el as [data classes]; simpl.
  destruct (truthy _ && bool_decide (_ ∈ affectedIds sim)),
           (truthy _ && bool_decide (_ ∈ cycleIds sim)); simpl;
    by rewrite ?string_app_assoc, ?string_app_nil_r.
Qed.

Lemma overlay_suffix_cases sim id :
  overlay_suffix sim id ∈ [""; " sim-affected"; " sim-cycle"; " sim-affected sim-cycle"].
Proof.
  unfold overlay_suffix.
  destruct (truthy id && bool_decide (id ∈ affectedIds sim)),
           (truthy id && bool_decide (id ∈ cycleIds sim)); simpl;
    rewrite !elem_of_cons; auto.
Qed.

(** The overlay keeps the given elements, in place, and appends to them. *)
Lemma overlay_Some active elements sim :
  ∃ appended,
    overlay active elements (Some sim) = (tagged sim <$> elements) ++ (tagged sim <$> appended).
Proof.
  unfold overlay.
  exists ((if bool_decide (is_Some (find_account active
                 (HypotheticalTx.sender_id (SimulationResult.hypothetical_tx sim))))
           then [] else [sim_node (HypotheticalTx.sender_id (SimulationResult.hypothetical_tx sim))])
          ++ (if bool_decide (is_Some (find_account active
                 (HypotheticalTx.receiver_id (SimulationResult.hypothetical_tx sim))))
              then [] else [sim_node (HypotheticalTx.receiver_id (SimulationResult.hypothetical_tx sim))])
          ++ [sim_edge (SimulationResult.hypothetical_tx sim)]).
  rewrite <- fmap_app.
  rewrite (map_ext _ _ (mark_tagged sim)).
  change (@map Element.t Element.t) with (@fmap list _ Element.t Element.t).
  f_equal. repeat case_bool_decide; by rewrite <- ?app_assoc, ?app_nil_r.
Qed.

(** C2. The overlay is non-destructive. Overlaying no simulation result
    returns the element list unchanged. Overlaying a simulation result keeps
    every element of the list at its position, with the same data (so the same
    id) and with classes that are the former classes followed by nothing, by
    ' sim-affected', by ' sim-cycle' or by both: the base class is kept and
    only appended to. *)
Theorem overlay_non_destructive active elements :
  overlay active elements None = elements ∧
  ∀ sim i el, elements !! i = Some el →
    ∃ el', overlay active elements (Some sim) !! i = Some el' ∧
      Element.data el' = Element.data el ∧
      Element.classes el' = Element.classes el +:+ overlay_suffix sim (Element.id el) ∧
      overlay_suffix sim (Element.id el) ∈
        [""; " sim-affected"; " sim-cycle"; " sim-affected sim-cycle"].
Proof.
  split; [done|]. intros sim i el Hel.
  destruct (overlay_Some active elements sim) as [appended ->].
  exists (tagged sim el). split; [|split; [done|split; [done|apply overlay_suffix_cases]]].
  apply lookup_app_l_Some. by rewrite list_lookup_fmap, Hel.
Qed.

Lemma overlay_non_destructive_witness :
  overlay Example.accounts Example.elements None = Example.elements ∧
  ∃ el', Example.overlaid !! 0%nat = Some el' ∧
    Element.data el' = NodeData "A" 80%Q (Some "R1") "A" ∧
    Element.classes el' = "ring-member" +:+ " sim-affected sim-cycle" ∧
    " sim-affected sim-cycle" ∈ [""; " sim-affected"; " sim-cycle"; " sim-affected sim-cycle"].
Proof.
  split.
  - exact (proj1 (overlay_non_destructive Example.accounts Example.elements)).
  - exact (proj2 (overlay_non_destructive Example.accounts Example.elements)
             Example.simulationResult 0%nat _ eq_refl).
Defined.

End Overlay.

Section GraphModel.

Implicit Types (active accounts : list Account.t) (transactions : list Transaction.t).

Lemma has_node_app (l1 l2 : list Element.t) id :
  has_node (l1 ++ l2) id = has_node l1 id || has_node l2 id.
Proof. unfold has_node. apply existsb_app. Qed.

Lemma has_node_edge_elements transactions id :
  has_node (map edge_element transactions) id = false.
Proof. induction transactions as [|t transactions IH]; [done|]. simpl. apply IH. Qed.

(** A node element with a given id is drawn exactly when [find] finds an
    active account with that id. *)
Lemma has_node_node_elements active id :
  has_node (map node_element active) id = bool_decide (is_Some (find_account active id)).
Proof.
  unfold find_account. induction active as [|a active IH]; simpl.
  - done.
  - unfold Element.id at 1. simpl.
    destruct (bool_decide (Account.id a = id)); simpl; [done|apply IH].
Qed.

Lemma has_node_base_elements active transactions id :
  has_node (base_elements active transactions) id =
    bool_decide (is_Some (find_account active id)).
Proof.
  unfold base_elements.
  by rewrite has_node_app, has_node_edge_elements, orb_false_r, has_node_node_elements.
Qed.

Lemma filter_is_node_base_elements active transactions :
  List.filter Element.is_node (base_elements active transactions) = map node_element active.
Proof.
  unfold base_elements. rewrite List.filter_app.
  assert (List.filter Element.is_node (map node_element active) = map node_element active)
    as -> by (induction active as [|a active IH]; simpl; [done|by rewrite IH]).
  assert (List.filter Element.is_node
            (map edge_element (activeTransactions active transactions)) = []) as ->.
  { induction (activeTransactions active transactions) as [|t l IH]; simpl; done. }
  apply app_nil_r.
Qed.

Lemma build_edges_attached accounts transactions filterRingsOnly :
  forallb (edge_attached (build accounts transactions filterRingsOnly))
          (build accounts transactions filterRingsOnly) = true.
Proof.
  unfold build. generalize (activeAccounts filterRingsOnly accounts). intros active.
  apply forallb_forall. intros el Hel. unfold base_elements in Hel.
  apply in_app_or in Hel as [Hel|Hel]; apply in_map_iff in Hel as (x & <- & Hx); [done|].
  unfold activeTransactions in Hx. apply filter_In in Hx as [_ Hx].
  unfold edge_attached. simpl. by rewrite !has_node_base_elements.
Qed.

(** With a simulation result, the element list is the base list followed by
    what the overlay synthesizes over it, all tagged. *)
Lemma NetworkGraph_elements_overlay accounts transactions filterRingsOnly sim :
  NetworkGraph_elements accounts transactions filterRingsOnly (Some sim) =
    (tagged sim <$> build accounts transactions filterRingsOnly) ++
    (tagged sim <$> synthesized (build accounts transactions filterRingsOnly)
                                (SimulationResult.hypothetical_tx sim)).
Proof.
  unfold NetworkGraph_elements, overlay, synthesized, build.
  rewrite !has_node_base_elements.
  rewrite (map_ext _ _ (mark_tagged sim)).
  change (@map Element.t Element.t) with (@fmap list _ Element.t Element.t).
  rewrite <- fmap_app. f_equal.
  repeat case_bool_decide; by rewrite <- ?app_assoc, ?app_nil_r.
Qed.

(** C6. The graph model builder never returns a dangling edge: whatever the
    accounts, the transactions and the value of the rings-only filter, every
    edge element of the result has its source and its target among the ids
    of the node elements of the same result. With the filter on, the node
    elements are exactly those of the accounts whose [ringId] is non-empty. *)
Theorem no_dangling_edge accounts transactions filterRingsOnly :
  forallb (edge_attached (build accounts transactions filterRingsOnly))
          (build accounts transactions filterRingsOnly) = true ∧
  List.filter Element.is_node (build accounts transactions true) =
    map node_element (List.filter (fun a => truthy_opt (Account.ringId a)) accounts).
Proof.
  split; [apply build_edges_attached|apply filter_is_node_base_elements].
Qed.

(** C7. For a simulation result, the element list is the base list followed
    by what the overlay synthesizes, each element carrying the overlay's tags:
    a [sim-node] (risk 0, no ring id) for the sender exactly when the base
    list has no node with the sender's id, likewise for the receiver, and then
    one edge with id SIM_EDGE and class [sim-edge] from the sender to the
    receiver. The synthesized part holds exactly one edge, whether or not the
    base list already has an edge between the same two accounts. *)
Theorem overlay_synthesis accounts transactions filterRingsOnly sim :
  let base := build accounts transactions filterRingsOnly in
  let tx := SimulationResult.hypothetical_tx sim in
  NetworkGraph_elements accounts transactions filterRingsOnly (Some sim) =
    (tagged sim <$> base) ++ (tagged sim <$> synthesized base tx) ∧
  synthesized base tx =
    (if has_node base (HypotheticalTx.sender_id tx) then []
     else [ {| Element.data :=
                 NodeData (HypotheticalTx.sender_id tx) 0%Q None
                          (slice_last6 (HypotheticalTx.sender_id tx));
               Element.classes := "sim-node" |} ]) ++
    (if has_node base (HypotheticalTx.receiver_id tx) then []
     else [ {| Element.data :=
                 NodeData (HypotheticalTx.receiver_id tx) 0%Q None
                          (slice_last6 (HypotheticalTx.receiver_id tx));
               Element.classes := "sim-node" |} ]) ++
    [ {| Element.data :=
           EdgeData "SIM_EDGE" (HypotheticalTx.sender_id tx)
                    (HypotheticalTx.receiver_id tx) false;
         Element.classes := "sim-edge" |} ] ∧
  count Element.is_edge (synthesized base tx) = 1%nat ∧
  last (NetworkGraph_elements accounts transactions filterRingsOnly (Some sim)) =
    Some {| Element.data :=
              EdgeData "SIM_EDGE" (HypotheticalTx.sender_id tx)
                       (HypotheticalTx.receiver_id tx) false;
            Element.classes := "sim-edge" +:+ overlay_suffix sim "SIM_EDGE" |}.
Proof.
  intros base tx. split; [apply NetworkGraph_elements_overlay|]. split; [done|]. split.
  - unfold synthesized. by destruct (has_node base _), (has_node base _).
  - rewrite NetworkGraph_elements_overlay. fold base tx. unfold synthesized.
    rewrite !fmap_app, !app_assoc. apply last_snoc.
Qed.

(** When the hypothetical transaction goes from a new account to itself,
    the receiver is looked up in the same list as the sender was, so two
    [sim-node] elements with the same id are synthesized. *)
Lemma self_transfer_synthesizes_twice elements tx :
  HypotheticalTx.receiver_id tx = HypotheticalTx.sender_id tx →
  has_node elements (HypotheticalTx.sender_id tx) = false →
  synthesized elements tx =
    [sim_node (HypotheticalTx.sender_id tx); sim_node (HypotheticalTx.sender_id tx);
     sim_edge tx].
Proof. intros Hsame Hnew. unfold synthesized. by rewrite Hsame, Hnew. Qed.

Lemma has_node_tagged sim (elements : list Element.t) id :
  has_node (tagged sim <$> elements) id = has_node elements id.
Proof.
  unfold has_node. induction elements as [|el elements IH]; [done|].
  rewrite fmap_cons. cbn [existsb]. by rewrite IH.
Qed.

Lemma has_node_sim_node x (elements : list Element.t) id :
  has_node (sim_node x :: elements) id = bool_decide (x = id) || has_node elements id.
Proof. reflexivity. Qed.

Lemma edge_attached_tagged sim (elements : list Element.t) el :
  edge_attached (tagged sim <$> elements) (tagged sim el) = edge_attached elements el.
Proof.
  unfold edge_attached. simpl. destruct (Element.data el); [done|].
  by rewrite !has_node_tagged.
Qed.

Lemma edge_attached_mono (l1 l2 : list Element.t) el :
  edge_attached l1 el = true → edge_attached (l1 ++ l2) el = true.
Proof.
  unfold edge_attached. destruct (Element.data el); [done|].
  rewrite !has_node_app. intros [-> ->]%andb_true_iff. done.
Qed.

(** X24. The overlay keeps the graph free of dangling edges: with or
    without a simulation result, every edge of the element list handed to
    the renderer has both endpoints among the nodes of that list; the
    endpoints of the synthetic edge are drawn by an account's node or by a
    synthesized one. *)
Lemma overlay_keeps_edges_attached accounts transactions filterRingsOnly simulationResult :
  forallb
    (edge_attached (NetworkGraph_elements accounts transactions filterRingsOnly simulationResult))
    (NetworkGraph_elements accounts transactions filterRingsOnly simulationResult) = true.
Proof.
  destruct simulationResult as [sim|];
    [|apply (build_edges_attached accounts transactions filterRingsOnly)].
  rewrite NetworkGraph_elements_overlay.
  pose proof (build_edges_attached accounts transactions filterRingsOnly) as Hbase.
  set (base := build accounts transactions filterRingsOnly) in *.
  set (tx := SimulationResult.hypothetical_tx sim).
  rewrite <- fmap_app. rewrite forallb_forall in Hbase. apply forallb_forall.
  intros el' (el & -> & Hel)%list_elem_of_In%list_elem_of_fmap.
  rewrite edge_attached_tagged.
  apply elem_of_app in Hel as [Hel|Hel].
  - apply edge_attached_mono, Hbase. by apply list_elem_of_In.
  - assert (has_node (base ++ synthesized base tx) (HypotheticalTx.sender_id tx) = true
            ∧ has_node (base ++ synthesized base tx) (HypotheticalTx.receiver_id tx) = true)
      as [Hs Hr].
    { rewrite !has_node_app. unfold synthesized.
      destruct (has_node base (HypotheticalTx.sender_id tx)) eqn:Hsender,
               (has_node base (HypotheticalTx.receiver_id tx)) eqn:Hreceiver;
        cbn [app orb]; rewrite ?has_node_sim_node;
        repeat case_bool_decide; by cbn [orb]. }
    unfold synthesized in Hel.
    repeat (apply elem_of_app in Hel as [Hel|Hel]);
      try (destruct (has_node base _); [by apply elem_of_nil in Hel|]);
      apply list_elem_of_singleton in Hel as ->; try done.
    unfold edge_attached. simpl. by rewrite Hs, Hr.
Qed.

End GraphModel.

Section SimulationSession.

Import SimulatorPanel.

Implicit Types (st : State) (fetch : SimulateBody.t → Completion SimulateResponse).

Lemma trim_nonempty (s : string) : truthy (trim s) = true → s ≠ "".
Proof. by intros Htrim ->. Qed.

Lemma runSimulation_rejected fetch st :
  canSubmit st = false →
  runSimulation fetch st = {| state := st; requests := []; notified := [] |}.
Proof. intros Hcan. unfold runSimulation. by rewrite Hcan. Qed.

(** A submission that passes the check issues exactly one request, whose
    body holds the trimmed sender and receiver and the parsed amount. *)
Lemma runSimulation_issued fetch st :
  canSubmit st = true →
  requests (runSimulation fetch st) =
    [POST_api_simulate
       {| SimulateBody.sender_id := trim (sender st);
          SimulateBody.receiver_id := trim (receiver st);
          SimulateBody.amount := parseFloat (amount st);
          SimulateBody.timestamp :=
            if truthy (timestamp st) then Some (timestamp st) else None |}].
Proof.
  intros Hcan. unfold runSimulation, simulateTransaction. rewrite Hcan. simpl.
  by destruct (bind _ _).
Qed.

(** C9. A submission whose sender is empty, whose receiver is empty, or
    whose amount does not parse to a number greater than 0 is rejected
    locally: the handler returns with the state as it was, no network
    request and no notification. Conversely, whenever the handler issues a
    request, the sender and the receiver are non-empty and the amount parses
    to a number greater than 0, and the request is the single POST to
    /api/simulate. *)
Theorem local_validation fetch st :
  (sender st = "" ∨ receiver st = "" ∨ gt0 (parseFloat (amount st)) = false →
   runSimulation fetch st = {| state := st; requests := []; notified := [] |}) ∧
  (requests (runSimulation fetch st) ≠ [] →
   sender st ≠ "" ∧ receiver st ≠ "" ∧ gt0 (parseFloat (amount st)) = true ∧
   requests (runSimulation fetch st) =
     [POST_api_simulate
        {| SimulateBody.sender_id := trim (sender st);
           SimulateBody.receiver_id := trim (receiver st);
           SimulateBody.amount := parseFloat (amount st);
           SimulateBody.timestamp :=
             if truthy (timestamp st) then Some (timestamp st) else None |}]).
Proof.
  split.
  - intros Hbad. apply runSimulation_rejected. unfold canSubmit.
    destruct Hbad as [-> | [-> | ->]]; [done| |].
    + by rewrite andb_false_r.
    + by rewrite andb_false_r.
  - intros Hissued. destruct (canSubmit st) eqn:Hcan.
    + pose proof Hcan as Hcan'. unfold canSubmit in Hcan'.
      apply andb_true_iff in Hcan' as [[Hs Hr]%andb_true_iff Ha].
      repeat split; [by apply trim_nonempty..|done|by apply runSimulation_issued].
    + by rewrite (runSimulation_rejected fetch st Hcan) in Hissued.
Qed.

Lemma local_validation_witness :
  runSimulation Example.fetch (Example.form "" "C" "500") =
    {| state := Example.form "" "C" "500"; requests := []; notified := [] |} ∧
  runSimulation Example.fetch (Example.form "A" "C" "-5") =
    {| state := Example.form "A" "C" "-5"; requests := []; notified := [] |} ∧
  ("A" ≠ "" ∧ "C" ≠ "" ∧ gt0 (parseFloat "500") = true ∧
   requests (runSimulation Example.fetch (Example.form "A" "C" "500")) =
     [POST_api_simulate
        {| SimulateBody.sender_id := "A"; SimulateBody.receiver_id := "C";
           SimulateBody.amount := Finite 500; SimulateBody.timestamp := None |}]).
Proof.
  split; [|split].
  - exact (proj1 (local_validation Example.fetch (Example.form "" "C" "500"))
             (or_introl eq_refl)).
  - exact (proj1 (local_validation Example.fetch (Example.form "A" "C" "-5"))
             (or_intror (or_intror eq_refl))).
  - refine (proj2 (local_validation Example.fetch (Example.form "A" "C" "500")) _).
    vm_compute. discriminate.
Defined.

End SimulationSession.

Section MalformedResponse.





End MalformedResponse.

Module OnHeapFacts.

Import OnHeap.

Section Frame.

(** The heap as it was when the mapper was called. *)
Variable h0 : heap.

Local Abbreviation triple := (triple h0).
Local Abbreviation is_new := (is_new h0).
Local Abbreviation building := (building h0).

Lemma triple_ret {A} (P : heap → Prop) (a : A) : triple P (ret a) (fun a' h => a' = a ∧ P h).
Proof. intros h Hh HP. simpl. split; [done|]. by intros a' [= <-]. Qed.

Lemma triple_throw {A} (P : heap → Prop) e (Q : A → heap → Prop) : triple P (throw e) Q.
Proof. intros h Hh HP. simpl. split; [done|]. by intros a' [=]. Qed.

Lemma triple_bind {A B} (P : heap → Prop) (m : M A) (R : A → heap → Prop)
    (k : A → M B) (Q : B → heap → Prop) :
  triple P m R → (∀ a, triple (R a) (k a) Q) → triple P (andThen m k) Q.
Proof.
  intros Hm Hk h Hh HP. unfold andThen. specialize (Hm h Hh HP).
  destruct (m h) as [[a|e] h']; simpl in *; destruct Hm as [Hframe HR].
  - apply (Hk a h' Hframe). by apply HR.
  - split; [done|]. by intros b [=].
Qed.

Lemma triple_conseq {A} (P P' : heap → Prop) (m : M A) (Q Q' : A → heap → Prop) :
  triple P' m Q' → (∀ h, P h → P' h) → (∀ a h, Q' a h → Q a h) → triple P m Q.
Proof.
  intros Hm HP HQ h Hh HPh. destruct (Hm h Hh (HP h HPh)) as [Hframe HQ'].
  split; [done|]. intros a Ha. by apply HQ, HQ'.
Qed.

Lemma triple_for_of {X} (I : heap → Prop) (l : list X) (body : X → M unit) :
  (∀ x, triple I (body x) (fun _ => I)) → triple I (for_of l body) (fun _ => I).
Proof.
  intros Hbody. induction l as [|x l IH]; simpl.
  - eapply triple_conseq; [apply triple_ret|done|]. by intros a h [_ ?].
  - eapply triple_bind; [apply Hbody|]. intros u. apply IH.
Qed.

Lemma triple_map_from {X Y} (I : heap → Prop) (f : nat → X → M Y) i (l : list X) :
  (∀ i x, triple I (f i x) (fun _ => I)) → triple I (map_from f i l) (fun _ => I).
Proof.
  intros Hf. revert i. induction l as [|x l IH]; intros i; simpl.
  - eapply triple_conseq; [apply triple_ret|done|]. by intros a h [_ ?].
  - eapply triple_bind; [apply Hf|]. intros y.
    eapply triple_bind; [apply IH|]. intros ys.
    eapply triple_conseq; [apply triple_ret|done|]. by intros a h [_ ?].
Qed.

Lemma triple_filter_by {X} (I : heap → Prop) (p : X → M bool) (l : list X) :
  (∀ x, triple I (p x) (fun _ => I)) → triple I (filter_by p l) (fun _ => I).
Proof.
  intros Hp. induction l as [|x l IH]; simpl.
  - eapply triple_conseq; [apply triple_ret|done|]. by intros a h [_ ?].
  - eapply triple_bind; [apply Hp|]. intros keep.
    eapply triple_bind; [apply IH|]. intros kept.
    eapply triple_conseq; [apply triple_ret|done|]. by intros a h [_ ?].
Qed.

Lemma triple_reduce {X S} (I : heap → Prop) (f : S → X → M S) (l : list X) acc :
  (∀ acc x, triple I (f acc x) (fun _ => I)) → triple I (reduce f l acc) (fun _ => I).
Proof.
  intros Hf. revert acc. induction l as [|x l IH]; intros acc; simpl.
  - eapply triple_conseq; [apply triple_ret|done|]. by intros a h [_ ?].
  - eapply triple_bind; [apply Hf|]. intros acc'. apply IH.
Qed.

Lemma triple_reads {A} (P : heap → Prop) (m : M A) :
  reads m → triple P m (fun _ => P).
Proof. intros Hm h Hh HP. rewrite !Hm. split; [done|]. intros a Ha. exact HP. Qed.

Lemma reads_get v name : reads (get v name).
Proof.
  intros h. unfold get. destruct v as [| | | | |l]; try done.
  by destruct (h !! l) as [[]|].
Qed.

Lemma reads_elements v : reads (elements v).
Proof.
  intros h. unfold elements. destruct v as [| | | | |l]; try done.
  by destruct (h !! l) as [[]|].
Qed.

Lemma reads_iterate v : reads (iterate v).
Proof. destruct v; try apply reads_elements. done. Qed.

Lemma reads_map_has m k : reads (map_has m k).
Proof.
  intros h. unfold map_has. destruct m as [| | | | |l]; try done.
  by destruct (h !! l) as [[]|].
Qed.

Lemma reads_map_get m k : reads (map_get m k).
Proof.
  intros h. unfold map_get. destruct m as [| | | | |l]; try done.
  by destruct (h !! l) as [[]|].
Qed.

Lemma frame_insert (h : heap) l o : h0 ⊆ h → l ∉ dom h0 → h0 ⊆ <[l := o]> h.
Proof.
  intros Hh Hl. apply insert_subseteq_r; [|done]. by apply not_elem_of_dom.
Qed.

Lemma fresh_is_new (h : heap) : h0 ⊆ h → fresh (dom h) ∉ dom h0.
Proof.
  intros Hh Hin. apply (is_fresh (dom h)). by apply (subseteq_dom h0 h).
Qed.

Lemma bind_rule {A B} (P P' : heap → Prop) (φ : A → Prop) (m : M A)
    (k : A → M B) (Q : B → heap → Prop) :
  triple P m (post φ P') → (∀ a, φ a → triple P' (k a) Q) → triple P (andThen m k) Q.
Proof.
  intros Hm Hk. eapply triple_bind; [exact Hm|].
  intros a h Hh [Hφ HP']. by apply Hk.
Qed.

Lemma ret_rule {A} (P : heap → Prop) (φ : A → Prop) (a : A) :
  φ a → triple P (ret a) (post φ P).
Proof. intros Hφ h Hh HP. simpl. split; [done|]. by intros a' [= <-]. Qed.

Lemma weaken_rule {A} (P P' : heap → Prop) (φ : A → Prop) (m : M A) :
  triple P m (post φ P') → triple P m (post any P').
Proof. intros Hm. eapply triple_conseq; [exact Hm|done|]. by intros a h [_ ?]. Qed.

Lemma forget_rule {A} (P : heap → Prop) (m : M A) (Q : A → heap → Prop) :
  triple top m Q → triple P m Q.
Proof. intros Hm. eapply triple_conseq; [exact Hm|done|done]. Qed.

Lemma reads_rule {A} (P : heap → Prop) (m : M A) : reads m → triple P m (post any P).
Proof.
  intros Hm. eapply triple_conseq; [by apply triple_reads|done|]. by intros a h ?.
Qed.

Lemma for_of_rule {X} (I : heap → Prop) (l : list X) (body : X → M unit) :
  (∀ x, triple I (body x) (post any I)) → triple I (for_of l body) (post any I).
Proof.
  intros Hbody. eapply triple_conseq; [apply (triple_for_of I)|done|by intros a h ?].
  intros x. eapply triple_conseq; [apply Hbody|done|]. by intros a h [_ ?].
Qed.

Lemma map_from_rule {X Y} (I : heap → Prop) (f : nat → X → M Y) i (l : list X) :
  (∀ i x, triple I (f i x) (post any I)) → triple I (map_from f i l) (post any I).
Proof.
  intros Hf. eapply triple_conseq; [apply (triple_map_from I)|done|by intros a h ?].
  intros j x. eapply triple_conseq; [apply Hf|done|]. by intros a h [_ ?].
Qed.

Lemma filter_by_rule {X} (I : heap → Prop) (p : X → M bool) (l : list X) :
  (∀ x, triple I (p x) (post any I)) → triple I (filter_by p l) (post any I).
Proof.
  intros Hp. eapply triple_conseq; [apply (triple_filter_by I)|done|by intros a h ?].
  intros x. eapply triple_conseq; [apply Hp|done|]. by intros a h [_ ?].
Qed.

Lemma reduce_rule {X S} (I : heap → Prop) (f : S → X → M S) (l : list X) acc :
  (∀ acc x, triple I (f acc x) (post any I)) → triple I (reduce f l acc) (post any I).
Proof.
  intros Hf. eapply triple_conseq; [apply (triple_reduce I)|done|by intros a h ?].
  intros acc' x. eapply triple_conseq; [apply Hf|done|]. by intros a h [_ ?].
Qed.

Lemma top_alloc_stable : alloc_stable top.
Proof. done. Qed.

Lemma alloc_rule (P : heap → Prop) o :
  alloc_stable P → triple P (alloc o) (post is_new P).
Proof.
  intros HP h Hh HPh. unfold alloc. simpl.
  pose proof (fresh_is_new h Hh) as Hnew. split; [by apply frame_insert|].
  intros a [= <-]. split; [by eexists|]. apply HP; [done|apply is_fresh].
Qed.

(** Writing a [Map] or an array that did not exist when the mapper was
    called leaves the objects of [h0] alone. *)
Lemma map_set_rule m k v : is_new m → triple top (map_set m k v) (post any top).
Proof.
  intros (l & -> & Hl) h Hh _. unfold map_set.
  destruct (h !! l) as [[| |entries]|]; simpl; try (split; [done|by intros]).
  split; [by apply frame_insert|]. by intros.
Qed.

Lemma building_alloc_stable cm : alloc_stable (building cm).
Proof.
  intros h l o (Hcm & entries & Hentries & Hnew) Hl. split; [done|].
  exists entries. split; [|done]. rewrite lookup_insert_ne; [done|].
  intros ->. apply Hl, elem_of_dom. eauto.
Qed.

Lemma building_start (P : heap → Prop) :
  triple P (alloc (OMap [])) (fun v h => ∃ cm, v = VRef cm ∧ building cm h).
Proof.
  intros h Hh _. unfold alloc. simpl.
  pose proof (fresh_is_new h Hh) as Hnew. split; [by apply frame_insert|].
  intros a [= <-]. eexists. split; [done|]. split; [done|].
  exists []. by rewrite lookup_insert_eq.
Qed.

Lemma building_enter {B} v (m : M B) (Q : B → heap → Prop) :
  (∀ cm, v = VRef cm → triple (building cm) m Q) →
  triple (fun h => ∃ cm, v = VRef cm ∧ building cm h) m Q.
Proof. intros Hm h Hh (cm & Hv & Hcm). by apply (Hm cm Hv). Qed.

Lemma building_map_has cm k :
  triple (building cm) (map_has (VRef cm) k) (post any (building cm)).
Proof. apply reads_rule, reads_map_has. Qed.

Lemma lookup_entry_new k entries v :
  Forall (fun kv => is_new kv.2) entries → lookup_entry k entries = Some v → is_new v.
Proof.
  unfold lookup_entry. intros Hnew Hfind.
  destruct (List.find _ entries) as [kv|] eqn:Hkv; simplify_eq/=.
  apply find_some in Hkv as [Hin _]. rewrite Forall_forall in Hnew.
  by apply Hnew, list_elem_of_In.
Qed.

Lemma building_map_get cm k :
  triple (building cm) (map_get (VRef cm) k)
         (post (fun v => v = VUndefined ∨ is_new v) (building cm)).
Proof.
  intros h Hh HP. pose proof HP as (Hcm & entries & Hentries & Hnew).
  unfold map_get. rewrite Hentries. simpl. split; [done|].
  intros a [= <-]. split; [|done].
  destruct (lookup_entry k entries) as [v|] eqn:Hv; simpl; [right|by left].
  by eapply lookup_entry_new.
Qed.

Lemma set_entry_new k v entries :
  is_new v → Forall (fun kv => is_new kv.2) entries →
  Forall (fun kv => is_new kv.2) (set_entry k v entries).
Proof.
  intros Hv. induction 1 as [|[k' v'] entries Hkv Hentries IH]; simpl.
  - by repeat constructor.
  - destruct (same_value k' k); by constructor.
Qed.

Lemma building_map_set cm k v :
  is_new v → triple (building cm) (map_set (VRef cm) k v) (post any (building cm)).
Proof.
  intros Hv h Hh (Hcm & entries & Hentries & Hnew).
  unfold map_set. rewrite Hentries. simpl. split; [by apply frame_insert|].
  intros u Hu. split; [done|]. split; [done|].
  exists (set_entry k v entries). rewrite lookup_insert_eq. split; [done|].
  by apply set_entry_new.
Qed.

Lemma building_push cm a v :
  a = VUndefined ∨ is_new a → triple (building cm) (push a v) (post any (building cm)).
Proof.
  intros [->|(l & -> & Hl)] h Hh HP; [by split|].
  pose proof HP as (Hcm & entries & Hentries & Hnew). unfold push.
  destruct (h !! l) as [[|elems|]|] eqn:Hhl; simpl; try (split; [done|by intros]).
  split; [by apply frame_insert|]. intros u Hu. split; [done|]. split; [done|].
  exists entries. split; [|done]. rewrite lookup_insert_ne; [done|]. congruence.
Qed.

Lemma bind_any {A B} (P : heap → Prop) (m : M A) (k : A → M B) (Q : B → heap → Prop) :
  triple P m (post any P) → (∀ a, triple P (k a) Q) → triple P (andThen m k) Q.
Proof. intros Hm Hk. eapply bind_rule; [exact Hm|]. intros a _. apply Hk. Qed.

(** Steps that read, allocate, or write a new [Map], in any order and under
    loops and conditionals. *)
Ltac frame_step :=
  first
    [ apply reads_rule;
      first [apply reads_get | apply reads_elements | apply reads_iterate
            | apply reads_map_has | apply reads_map_get]
    | apply ret_rule; exact I
    | apply (weaken_rule _ _ is_new), alloc_rule, top_alloc_stable
    | apply map_set_rule; assumption
    | apply for_of_rule; intros ?
    | apply map_from_rule; intros ? ?
    | apply filter_by_rule; intros ?
    | apply reduce_rule; intros ? ?
    | eapply bind_any; [|intros ?]
    | match goal with |- triple _ (if ?b then _ else _) _ => destruct b end ].

(** *** The pieces of the mapper *)

Lemma new_Map_frame array : triple top (new_Map array) (post is_new top).
Proof.
  unfold new_Map. eapply bind_rule; [apply alloc_rule, top_alloc_stable|].
  intros m Hm. repeat frame_step. by apply ret_rule.
Qed.

Lemma push_connection_frame cm key peer direction amount :
  triple (building cm) (push_connection (VRef cm) key peer direction amount)
         (post any (building cm)).
Proof.
  unfold push_connection.
  eapply bind_any; [apply building_map_has|]. intros has.
  eapply bind_any.
  { destruct has; [by apply ret_rule|].
    eapply bind_rule; [apply alloc_rule, building_alloc_stable|].
    intros empty Hempty. by apply building_map_set. }
  intros _.
  eapply bind_rule; [apply building_map_get|]. intros array Harray.
  eapply bind_rule; [apply alloc_rule, building_alloc_stable|]. intros entry Hentry.
  by apply building_push.
Qed.

Lemma total_of_frame d connections : triple top (total_of d connections) (post any top).
Proof. unfold total_of. repeat frame_step. Qed.

Lemma account_of_frame env accountScoreMap connectionsMap nodeRingMap i node :
  triple top (account_of env accountScoreMap connectionsMap nodeRingMap i node)
         (post any top).
Proof.
  unfold account_of. repeat first [apply total_of_frame | frame_step].
Qed.

Lemma mapApiToAccounts_frame env response :
  triple top (mapApiToAccounts env response) (post any top).
Proof.
  unfold mapApiToAccounts.
  do 5 (eapply bind_any; [repeat frame_step|]; intros ?).
  eapply bind_rule; [apply new_Map_frame|]. intros accountScoreMap HaccountScoreMap.
  eapply triple_bind; [apply building_start|]. intros v.
  apply building_enter. intros cm ->.
  do 2 (eapply bind_any; [repeat frame_step|]; intros ?).
  eapply bind_any.
  { apply for_of_rule. intros edge.
    do 3 (eapply bind_any; [repeat frame_step|]; intros ?).
    eapply bind_any; [apply push_connection_frame|]. intros _.
    apply push_connection_frame. }
  intros _. apply forget_rule.
  eapply bind_rule; [apply alloc_rule, top_alloc_stable|]. intros nodeRingMap HnodeRingMap.
  repeat first [apply account_of_frame | frame_step].
Qed.

Lemma mapApiToRings_frame response : triple top (mapApiToRings response) (post any top).
Proof. unfold mapApiToRings. repeat frame_step. Qed.

Lemma mapApiToTransactions_frame env response :
  triple top (mapApiToTransactions env response) (post any top).
Proof. unfold mapApiToTransactions. repeat frame_step. Qed.

Lemma Mapper_frame env response : triple top (Mapper env response) (post any top).
Proof.
  unfold Mapper.
  eapply bind_any; [apply mapApiToAccounts_frame|]. intros accounts.
  eapply bind_any; [apply mapApiToRings_frame|]. intros rings.
  eapply bind_any; [apply mapApiToTransactions_frame|]. intros transactions.
  by apply ret_rule.
Qed.

End Frame.

Section Snapshot.

Lemma snapshot_mono depth (h h' : heap) v json :
  h ⊆ h' → snapshot depth h v = Some json → snapshot depth h' v = Some json.
Proof.
  intros Hsub. revert v json. induction depth as [|depth IH]; intros v json.
  - by destruct v.
  - destruct v as [| | | | |l]; try done. simpl.
    destruct (h !! l) as [o|] eqn:Hl; [|done].
    rewrite (lookup_weaken _ _ _ _ Hl Hsub).
    destruct o as [fields|elems|entries]; [| |done].
    + destruct (mapM _ fields) as [jfields|] eqn:Hfields; [|done]. intros [= <-].
      assert (mapM (fun kv => pair kv.1 <$> snapshot depth h' kv.2) fields = Some jfields)
        as ->; [|done].
      apply mapM_Some. apply mapM_Some in Hfields.
      eapply Forall2_impl; [exact Hfields|]. intros [k v] [k' j]. simpl.
      destruct (snapshot depth h v) as [jv|] eqn:Hv; [|done]. by rewrite (IH _ _ Hv).
    + destruct (mapM _ elems) as [jelems|] eqn:Helems; [|done]. intros [= <-].
      assert (mapM (snapshot depth h') elems = Some jelems) as ->; [|done].
      apply mapM_Some. apply mapM_Some in Helems.
      eapply Forall2_impl; [exact Helems|]. intros v j. apply IH.
Qed.

End Snapshot.

End OnHeapFacts.

(** C10. The mapper does not mutate the response it is given. Run on any
    heap, each of [mapApiToAccounts], [mapApiToRings] and
    [mapApiToTransactions], and their sequence as [App] runs them, leaves a
    heap in which every object that existed at the call is still there with
    the same content, whether the call returns or throws: the mapper only
    allocates, and writes only the [Map]s and arrays it allocated itself. So
    whatever the export serializes from the stored response before the
    projection, it serializes the same after it. *)
Theorem mapper_does_not_mutate env response (h : gmap OnHeap.loc OnHeap.Object) :
  h ⊆ (OnHeap.mapApiToAccounts env response h).2 ∧
  h ⊆ (OnHeap.mapApiToRings response h).2 ∧
  h ⊆ (OnHeap.mapApiToTransactions env response h).2 ∧
  h ⊆ (OnHeap.Mapper env response h).2 ∧
  ∀ depth json,
    OnHeap.handleExport depth (Some response) h = Some json →
    OnHeap.handleExport depth (Some response) (OnHeap.Mapper env response h).2 = Some json.
Proof.
  assert (h ⊆ (OnHeap.Mapper env response h).2) as Hmapper
    by (by apply (OnHeapFacts.Mapper_frame h env response h)).
  repeat split.
  - by apply (OnHeapFacts.mapApiToAccounts_frame h env response h).
  - by apply (OnHeapFacts.mapApiToRings_frame h response h).
  - by apply (OnHeapFacts.mapApiToTransactions_frame h env response h).
  - done.
  - intros depth json. by apply OnHeapFacts.snapshot_mono.
Qed.

Lemma mapper_does_not_mutate_witness :
  OnHeap.handleExport 6 (Some Example.response_object)
    (OnHeap.Mapper Example.env Example.response_object Example.heap).2 =
  Some Example.response_json.
Proof.
  refine (proj2 (proj2 (proj2 (proj2
            (mapper_does_not_mutate Example.env Example.response_object Example.heap))))
          6%nat Example.response_json _).
  vm_compute. reflexivity.
Defined.

(** On the examples, the mapper on the heap and the mapper on values
    produce the same entities, or throw alike. *)
Lemma heap_mapper_agrees_on_examples :
  Forall
    (fun response =>
       OnHeap.run_parsed Example.env response 4 =
         let! entities := Mapper Example.env response in
         let '(accounts, rings, transactions) := OnHeap.json_entities entities in
         Return (Some accounts, Some rings, Some transactions))
    [Example.response; Example.rich_response; Example.duplicate_edge_response;
     Example.overscored_response; Example.response_without_summary;
     Example.response_without_graph].
Proof. repeat constructor; vm_compute; reflexivity. Qed.

(** * Further properties of the code *)

(** ** The mapper: where the numbers of an account come from *)

Section MapperSources.

Lemma foldl_insert_lookup (sa : list ApiSuspiciousAccount.t)
    (m : gmap string ApiSuspiciousAccount.t) k :
  foldl (fun m a => <[ApiSuspiciousAccount.account_id a := a]> m) m sa !! k =
    match last (filter (fun a => ApiSuspiciousAccount.account_id a = k) sa) with
    | Some a => Some a
    | None => m !! k
    end.
Proof.
  revert m. induction sa as [|x sa IH]; intros m; simpl; [done|].
  rewrite IH, filter_cons. case_decide as Hx.
  - rewrite last_cons.
    destruct (last (filter _ sa)); [done|]. by rewrite <- Hx, lookup_insert_eq.
  - destruct (last (filter _ sa)); [done|]. by rewrite lookup_insert_ne.
Qed.

Lemma accountScoreMap_lookup (sa : list ApiSuspiciousAccount.t) k :
  accountScoreMap sa !! k =
    last (filter (fun a => ApiSuspiciousAccount.account_id a = k) sa).
Proof.
  unfold accountScoreMap. rewrite foldl_insert_lookup, lookup_empty.
  by destruct (last _).
Qed.

(** X1. The i-th account stands for the i-th graph node. Its score and its
    patterns are those of the LAST entry of [suspicious_accounts] that
    carries the node's id; when no entry does, the score is the node's own
    and the pattern list is empty. *)
Theorem score_and_patterns_source env response sa g accounts i node :
  mapApiToAccounts env response = Return accounts →
  AnalysisResponse.suspicious_accounts response = Some sa →
  AnalysisResponse.graph response = Some g →
  ApiGraph.nodes g !! i = Some node →
  ∃ a, accounts !! i = Some a ∧ Account.id a = ApiGraphNode.id node ∧
    match last (filter (fun e => ApiSuspiciousAccount.account_id e = ApiGraphNode.id node) sa)
    with
    | Some e =>
        Account.suspicionScore a = ApiSuspiciousAccount.suspicion_score e ∧
        Account.patterns a = ApiSuspiciousAccount.detected_patterns e
    | None =>
        Account.suspicionScore a = ApiGraphNode.suspicion_score node ∧
        Account.patterns a = []
    end.
Proof.
  intros (sa' & g' & rings & Hsa & Hg & _ & ->)%mapApiToAccounts_inv Hsa' Hg' Hnode.
  rewrite Hsa in Hsa'. rewrite Hg in Hg'. simplify_eq.
  eexists. rewrite list_lookup_imap, Hnode. split; [reflexivity|]. split; [done|].
  cbn [account_of Account.suspicionScore Account.patterns].
  rewrite accountScoreMap_lookup. by destruct (last _).
Qed.

Lemma score_and_patterns_source_witness :
  ∃ a, Example.accounts !! 0%nat = Some a ∧ Account.id a = "A" ∧
       Account.suspicionScore a = 80%Q ∧ Account.patterns a = [].
Proof.
  exact (score_and_patterns_source Example.env Example.response [] Example.graph
           Example.accounts 0 Example.node_A eq_refl eq_refl eq_refl eq_refl).
Defined.

Lemma out_connections u (edges : list ApiGraphEdge.t) :
  filter (fun c => Direction_eqb (Connection.direction c) dir_out = true)
         (flat_map (incident u) edges) =
  (fun e => {| Connection.targetId := ApiGraphEdge.target e;
               Connection.direction := dir_out;
               Connection.amount := ApiGraphEdge.total_amount e |}) <$>
    filter (fun e => ApiGraphEdge.source e = u) edges.
Proof.
  induction edges as [|e edges IH]; [done|].
  cbn [flat_map]. rewrite !filter_app, IH, filter_cons.
  unfold incident. by repeat case_decide.
Qed.

Lemma in_connections u (edges : list ApiGraphEdge.t) :
  filter (fun c => Direction_eqb (Connection.direction c) dir_in = true)
         (flat_map (incident u) edges) =
  (fun e => {| Connection.targetId := ApiGraphEdge.source e;
               Connection.direction := dir_in;
               Connection.amount := ApiGraphEdge.total_amount e |}) <$>
    filter (fun e => ApiGraphEdge.target e = u) edges.
Proof.
  induction edges as [|e edges IH]; [done|].
  cbn [flat_map]. rewrite !filter_app, IH, filter_cons.
  unfold incident. by repeat case_decide.
Qed.

(** X2. The connections that [totalOut] is reduced from, those of
    direction [out], are exactly one entry per response edge whose source is
    the account's id, in edge order, each with the edge's target as peer and
    the edge's amount copied unchanged; those of direction [in], from which
    [totalIn] is reduced, are one entry per edge whose target is its id. A
    transfer of an account to itself is in both lists. *)
Theorem connections_by_direction env response g accounts a :
  mapApiToAccounts env response = Return accounts →
  AnalysisResponse.graph response = Some g →
  a ∈ accounts →
  filter (fun c => Direction_eqb (Connection.direction c) dir_out = true)
         (Account.connections a) =
    (fun e => {| Connection.targetId := ApiGraphEdge.target e;
                 Connection.direction := dir_out;
                 Connection.amount := ApiGraphEdge.total_amount e |}) <$>
      filter (fun e => ApiGraphEdge.source e = Account.id a) (ApiGraph.edges g) ∧
  filter (fun c => Direction_eqb (Connection.direction c) dir_in = true)
         (Account.connections a) =
    (fun e => {| Connection.targetId := ApiGraphEdge.source e;
                 Connection.direction := dir_in;
                 Connection.amount := ApiGraphEdge.total_amount e |}) <$>
      filter (fun e => ApiGraphEdge.target e = Account.id a) (ApiGraph.edges g).
Proof.
  intros (sa & g' & rings & _ & Hg & _ & ->)%mapApiToAccounts_inv Hg'.
  rewrite Hg in Hg'. simplify_eq.
  intros (i & node & _ & ->)%elem_of_imap_inv.
  rewrite account_of_connections. cbn [account_of Account.id].
  by rewrite out_connections, in_connections.
Qed.

Lemma connections_by_direction_witness :
  filter (fun c => Direction_eqb (Connection.direction c) dir_out = true)
         (Account.connections Walkthrough.account_C) =
    [ {| Connection.targetId := "C"; Connection.direction := dir_out;
         Connection.amount := (7 # 10)%Q |};
      {| Connection.targetId := "A"; Connection.direction := dir_out;
         Connection.amount := (14 # 10)%Q |} ] ∧
  filter (fun c => Direction_eqb (Connection.direction c) dir_in = true)
         (Account.connections Walkthrough.account_C) =
    [ {| Connection.targetId := "C"; Connection.direction := dir_in;
         Connection.amount := (7 # 10)%Q |};
      {| Connection.targetId := "B"; Connection.direction := dir_in;
         Connection.amount := 3%Q |} ].
Proof.
  apply (connections_by_direction Example.env Walkthrough.transfers Walkthrough.transfers_graph
           Walkthrough.transfer_accounts Walkthrough.account_C eq_refl eq_refl).
  vm_compute. do 2 apply list_elem_of_further. apply list_elem_of_here.
Defined.

End MapperSources.

Section TransactionIds.

Lemma pretty_N_go_head (x : N) s :
  (0 < x)%N → ∃ c r, pretty_N_go x s = String c r ∧ c ≠ "0"%char.
Proof.
  revert s. induction (N.lt_wf_0 x) as [x _ IH]; intros s Hx.
  rewrite pretty_N_go_step by done.
  destruct (decide (x `div` 10 = 0)%N) as [Hdiv|Hdiv].
  - rewrite Hdiv, pretty_N_go_0. eexists _, _. split; [done|].
    assert (x < 10)%N by (apply N.div_small_iff in Hdiv; lia).
    rewrite N.mod_small by done.
    assert (x = 1 ∨ x = 2 ∨ x = 3 ∨ x = 4 ∨ x = 5 ∨ x = 6
          ∨ x = 7 ∨ x = 8 ∨ x = 9)%N as Hcases by lia.
    repeat (destruct Hcases as [-> | Hcases]; [by compute|]). subst. by compute.
  - apply IH; [apply N.div_lt; lia | by apply N.neq_0_lt_0].
Qed.

Lemma pretty_nat_head (n : nat) :
  (0 < n)%nat → ∃ c r, pretty n = String c r ∧ c ≠ "0"%char.
Proof.
  intros Hn. unfold pretty, pretty_nat, pretty, pretty_N.
  case_decide; [lia|]. apply pretty_N_go_head. lia.
Qed.

Lemma concat_zeros_S k :
  String.concat "" (replicate (S k) "0") = String "0" (String.concat "" (replicate k "0")).
Proof. by destruct k. Qed.

Lemma string_app_cons c (s t : string) : String c s +:+ t = String c (s +:+ t).
Proof. reflexivity. Qed.

Lemma string_app_nil_l (s : string) : "" +:+ s = s.
Proof. reflexivity. Qed.

Lemma zeros_app_inj k k' s s' :
  (∀ r, s ≠ String "0" r) → (∀ r, s' ≠ String "0" r) →
  String.concat "" (replicate k "0") +:+ s = String.concat "" (replicate k' "0") +:+ s' →
  s = s'.
Proof.
  intros Hs Hs'. revert k'. induction k as [|k IH]; intros [|k'];
    rewrite ?concat_zeros_S; cbn [replicate String.concat];
    rewrite ?string_app_cons, ?string_app_nil_l.
  - done.
  - intros ->. by edestruct Hs.
  - intros <-. by edestruct Hs'.
  - intros [= ?]. by eapply IH.
Qed.

Lemma zeros_snoc k :
  String.concat "" (replicate k "0") +:+ "0" = String.concat "" (replicate (S k) "0").
Proof.
  induction k as [|k IH]; [done|].
  rewrite !concat_zeros_S, string_app_cons. f_equal.
  rewrite IH. apply concat_zeros_S.
Qed.

Lemma padStart0_pretty_canonical width (n : nat) :
  ∃ k s, padStart0 width (pretty n) = String.concat "" (replicate k "0") +:+ s ∧
         (∀ r, s ≠ String "0" r) ∧ (n = 0%nat → s = "") ∧ ((0 < n)%nat → s = pretty n).
Proof.
  destruct n as [|n].
  - exists (S (width - 1)), "". unfold padStart0. change (pretty 0%nat) with "0".
    rewrite zeros_snoc, string_app_nil_r. split; [done|]. split; [done|]. split; [done|lia].
  - destruct (pretty_nat_head (S n)) as (c & r & Hpretty & Hc); [lia|].
    exists (width - String.length (pretty (S n)))%nat, (pretty (S n)).
    split; [done|]. split; [rewrite Hpretty; congruence|]. split; [lia|done].
Qed.

Lemma padStart0_pretty_inj width (i j : nat) :
  padStart0 width (pretty i) = padStart0 width (pretty j) → i = j.
Proof.
  destruct (padStart0_pretty_canonical width i) as (k & s & -> & Hs & Hi0 & Hi).
  destruct (padStart0_pretty_canonical width j) as (k' & s' & -> & Hs' & Hj0 & Hj).
  intros Heq%zeros_app_inj; [|done..]. subst s'.
  destruct i as [|i], j as [|j]; [done| | |].
  - rewrite Hi0 in Hj by done. destruct (pretty_nat_head (S j)) as (c & r & Hp & _); [lia|].
    rewrite <- Hj in Hp by lia. done.
  - rewrite Hj0 in Hi by done. destruct (pretty_nat_head (S i)) as (c & r & Hp & _); [lia|].
    rewrite <- Hi in Hp by lia. done.
  - apply (inj pretty). rewrite <- Hi, <- Hj by lia. done.
Qed.

(** X3. The ids the mapper gives the transactions of one response are
    pairwise distinct: [TX_] followed by the edge's index, zero-padded to six
    digits and never truncated, is different for different indices. *)
Theorem transaction_ids_distinct env response transactions :
  mapApiToTransactions env response = Return transactions →
  NoDup (Transaction.id <$> transactions).
Proof.
  intros (g & _ & ->)%mapApiToTransactions_inv.
  apply NoDup_alt. intros i j x.
  rewrite !list_lookup_fmap, !list_lookup_imap.
  destruct (ApiGraph.edges g !! i) as [e|]; [|done].
  destruct (ApiGraph.edges g !! j) as [e'|]; [|done].
  cbn [fmap option_fmap option_map transaction_of Transaction.id].
  intros [= <-] [= Heq]. symmetry. by eapply padStart0_pretty_inj.
Qed.

Lemma transaction_ids_distinct_witness :
  NoDup (Transaction.id <$> Example.transactions).
Proof. exact (transaction_ids_distinct Example.env Example.response _ eq_refl). Defined.

End TransactionIds.

(** ** The mapper and the graph model builder together *)

Section GraphComposition.

Lemma find_account_elem (accounts : list Account.t) id :
  is_Some (find_account accounts id) ↔ ∃ a, a ∈ accounts ∧ Account.id a = id.
Proof.
  unfold find_account. split.
  - intros [a Ha]. apply find_some in Ha as [Hin Hid]. exists a.
    split; [by apply list_elem_of_In|by apply bool_decide_eq_true_1 in Hid].
  - intros (a & Hin & Hid).
    destruct (List.find _ accounts) as [b|] eqn:Hfind; [by eexists|].
    apply list_elem_of_In in Hin. apply (find_none _ _ Hfind) in Hin.
    by rewrite bool_decide_eq_true_2 in Hin.
Qed.

Lemma filter_all {A} (p : A → bool) (l : list A) :
  (∀ x, x ∈ l → p x = true) → List.filter p l = l.
Proof.
  induction l as [|x l IH]; intros Hall; simpl; [done|].
  rewrite (Hall x) by apply list_elem_of_here.
  f_equal. apply IH. intros y Hy. apply Hall. by apply list_elem_of_further.
Qed.

(** X4. Without the rings-only filter nothing of a well-formed response is
    left out of the graph: when every edge of the response joins two graph
    nodes, the element list is one node per account followed by one edge per
    transaction, in the order of the response. *)
Theorem unfiltered_graph_is_complete env response g accounts transactions :
  mapApiToAccounts env response = Return accounts →
  mapApiToTransactions env response = Return transactions →
  AnalysisResponse.graph response = Some g →
  endpoints_are_nodes g = true →
  build accounts transactions false =
    map node_element accounts ++ map edge_element transactions ∧
  length (build accounts transactions false) =
    (length (ApiGraph.nodes g) + length (ApiGraph.edges g))%nat.
Proof.
  intros (sa & g1 & rings & _ & Hg1 & _ & ->)%mapApiToAccounts_inv.
  intros (g2 & Hg2 & ->)%mapApiToTransactions_inv Hg Hends.
  rewrite Hg in Hg1, Hg2. injection Hg1 as <-. injection Hg2 as <-.
  assert (build (imap (account_of env (accountScoreMap sa)
                         (connectionsMap (ApiGraph.edges g)) (nodeRingMap rings))
                      (ApiGraph.nodes g))
                (imap (transaction_of env) (ApiGraph.edges g)) false =
          map node_element
              (imap (account_of env (accountScoreMap sa)
                       (connectionsMap (ApiGraph.edges g)) (nodeRingMap rings))
                    (ApiGraph.nodes g)) ++
          map edge_element (imap (transaction_of env) (ApiGraph.edges g))) as ->.
  { unfold build, base_elements, activeAccounts, activeTransactions.
    f_equal. f_equal. apply filter_all.
    intros t (i & e & He & ->)%elem_of_imap_inv.
    unfold endpoints_are_nodes in Hends.
    assert (e ∈ ApiGraph.edges g) as Hin by (by eapply list_elem_of_lookup_2).
    apply list_elem_of_In in Hin. apply (proj1 (forallb_forall _ _) Hends) in Hin.
    apply andb_true_iff in Hin as [Hs Ht].
    cbn [transaction_of Transaction.source Transaction.target].
    rewrite !bool_decide_eq_true_2; [done|apply find_account_elem..];
      by eapply is_node_id_account. }
  split; [done|]. by rewrite length_app, !length_map, !length_imap.
Qed.

Lemma unfiltered_graph_is_complete_witness :
  build Example.accounts Example.transactions false =
    map node_element Example.accounts ++ map edge_element Example.transactions ∧
  length (build Example.accounts Example.transactions false) = (2 + 1)%nat.
Proof.
  exact (unfiltered_graph_is_complete Example.env Example.response Example.graph
           Example.accounts Example.transactions eq_refl eq_refl eq_refl eq_refl).
Defined.

(** X5. Under the rings-only filter a node is drawn for an id exactly when
    the id is that of a graph node and the FIRST ring of the response that
    lists it has a non-empty [ring_id]. *)
Theorem rings_only_graph_nodes env response g rings accounts transactions u :
  mapApiToAccounts env response = Return accounts →
  AnalysisResponse.graph response = Some g →
  AnalysisResponse.fraud_rings response = Some rings →
  has_node (build accounts transactions true) u = true ↔
    is_node_id g u = true ∧
    ∃ r, List.find (fun r => bool_decide (u ∈ ApiFraudRing.member_accounts r)) rings = Some r ∧
         ApiFraudRing.ring_id r ≠ "".
Proof.
  intros (sa & g1 & rings1 & _ & Hg1 & Hrings1 & ->)%mapApiToAccounts_inv Hg Hrings.
  rewrite Hg in Hg1. rewrite Hrings in Hrings1. injection Hg1 as <-. injection Hrings1 as <-.
  unfold build. rewrite has_node_base_elements, bool_decide_eq_true, find_account_elem.
  unfold activeAccounts. split.
  - intros (a & [Hin Hring]%list_elem_of_In%filter_In & <-).
    apply list_elem_of_In, elem_of_imap_inv in Hin as (i & node & Hnode & ->).
    cbn [account_of Account.ringId Account.id] in *.
    rewrite nodeRingMap_lookup in Hring. split.
    + unfold is_node_id. apply existsb_exists. exists node.
      split; [by eapply list_elem_of_In, list_elem_of_lookup_2|by apply bool_decide_eq_true_2].
    + destruct (List.find _ rings) as [r|]; [|done]. exists r. split; [done|].
      simpl in Hring. unfold truthy in Hring. apply negb_true_iff in Hring.
      by apply bool_decide_eq_false_1 in Hring.
  - intros [(node & Hnode & Hid)%existsb_exists (r & Hfind & Hr)].
    apply bool_decide_eq_true_1 in Hid.
    apply list_elem_of_In, list_elem_of_lookup in Hnode as [i Hi].
    exists (account_of env (accountScoreMap sa) (connectionsMap (ApiGraph.edges g))
              (nodeRingMap rings) i node).
    split; [|exact Hid].
    apply list_elem_of_In, filter_In. split.
    + apply list_elem_of_In, list_elem_of_lookup. exists i. by rewrite list_lookup_imap, Hi.
    + cbn [account_of Account.ringId]. rewrite nodeRingMap_lookup, Hid, Hfind. simpl.
      unfold truthy. by rewrite bool_decide_eq_false_2.
Qed.

Lemma rings_only_graph_nodes_witness :
  has_node (build Example.accounts Example.transactions true) "B" = true ↔
    is_node_id Example.graph "B" = true ∧
    ∃ r, List.find (fun r => bool_decide ("B" ∈ ApiFraudRing.member_accounts r))
                   Example.rings = Some r ∧
         ApiFraudRing.ring_id r ≠ "".
Proof.
  exact (rings_only_graph_nodes Example.env Example.response Example.graph Example.rings
           Example.accounts Example.transactions "B" eq_refl eq_refl eq_refl).
Defined.

End GraphComposition.

(** ** The simulator panel over a whole session *)

Section PanelSession.

Import SimulatorPanel.

Implicit Types (st : State) (fetch : SimulateBody.t → Completion SimulateResponse).

Lemma runSimulation_outcome fetch st :
  canSubmit st = true →
  (∃ res,
     runSimulation fetch st =
       {| state :=
            setLoading false
              (setHistory
                 (fun prev =>
                    take 5 ({| HistoryEntry.sender := trim (sender st);
                               HistoryEntry.receiver := trim (receiver st);
                               HistoryEntry.amount := parseFloat (amount st);
                               HistoryEntry.result := res |} :: prev))
                 (setResult (Some res) (setError None (setLoading true st))));
          requests := requests (runSimulation fetch st);
          notified := [Some res] |}) ∨
  (∃ message,
     runSimulation fetch st =
       {| state := setLoading false (setError (Some message) (setError None (setLoading true st)));
          requests := requests (runSimulation fetch st);
          notified := [] |}).
Proof.
  intros Hcan. unfold runSimulation, simulateTransaction. rewrite Hcan. cbn [negb].
  destruct (bind _ _) as [res|message]; [left; by exists res|right; by exists message].
Qed.

Lemma canSubmit_fields st :
  canSubmit st = true →
  truthy (trim (sender st)) = true ∧ truthy (trim (receiver st)) = true ∧
  gt0 (parseFloat (amount st)) = true.
Proof. unfold canSubmit. by intros [[? ?]%andb_true_iff ?]%andb_true_iff. Qed.

Lemma handle_history toLowerCase Number_toString ev st :
  let st' := state (handle toLowerCase Number_toString ev st) in
  history st' = history st ∨ history st' = [] ∨
  ∃ entry,
    truthy (HistoryEntry.sender entry) = true ∧
    truthy (HistoryEntry.receiver entry) = true ∧
    gt0 (HistoryEntry.amount entry) = true ∧
    history st' = take 5 (entry :: history st).
Proof.
  destruct ev; cbn [handle]; try (by left).
  - destruct (senderFocused st && truthy (sender st)); [|by left].
    destruct (_ !! row); by left.
  - destruct (receiverFocused st && truthy (receiver st)); [|by left].
    destruct (_ !! row); by left.
  - destruct (canSubmit st) eqn:Hcan; [|by left].
    destruct (loading st); [by left|]. cbn [negb orb].
    destruct (canSubmit_fields st Hcan) as (Hs & Hr & Ha).
    destruct (runSimulation_outcome fetch st Hcan) as [[res ->]|[message ->]]; [|by left].
    right. right.
    exists {| HistoryEntry.sender := trim (sender st);
              HistoryEntry.receiver := trim (receiver st);
              HistoryEntry.amount := parseFloat (amount st);
              HistoryEntry.result := res |}.
    by repeat split.
  - destruct (result st) as [res|]; [|by left]. destruct (_ !! row); by left.
  - destruct (result st); by left.
  - destruct (0 <? length (history st))%nat; [right|]; by left.
  - destruct (history st !! row); by left.
  - unfold opened. destruct (fetchAccounts fetch); by left.
Qed.

(** X6. In every session of the panel that starts from its initial state,
    whatever the engine answers, the history never holds more than five
    entries, and each entry is a request that passed the check: its sender
    and its receiver are non-empty and its amount is greater than 0. *)
Theorem history_stays_bounded_and_valid toLowerCase Number_toString events :
  let st := state (session toLowerCase Number_toString events initial) in
  (length (history st) ≤ 5)%nat ∧
  ∀ entry, entry ∈ history st →
    truthy (HistoryEntry.sender entry) = true ∧
    truthy (HistoryEntry.receiver entry) = true ∧
    gt0 (HistoryEntry.amount entry) = true.
Proof.
  cbv zeta.
  assert (∀ st0,
            ((length (history st0) ≤ 5)%nat ∧
             ∀ entry, entry ∈ history st0 →
               truthy (HistoryEntry.sender entry) = true ∧
               truthy (HistoryEntry.receiver entry) = true ∧
               gt0 (HistoryEntry.amount entry) = true) →
            let st := state (session toLowerCase Number_toString events st0) in
            (length (history st) ≤ 5)%nat ∧
            ∀ entry, entry ∈ history st →
              truthy (HistoryEntry.sender entry) = true ∧
              truthy (HistoryEntry.receiver entry) = true ∧
              gt0 (HistoryEntry.amount entry) = true) as Hgen.
  { induction events as [|ev events IH]; intros st0 Hinv; [done|].
    cbn [session state]. apply IH.
    destruct (handle_history toLowerCase Number_toString ev st0)
      as [-> | [-> | (entry & Hs & Hr & Ha & ->)]].
    - done.
    - split; [simpl; lia|]. intros entry Hin. by apply elem_of_nil in Hin.
    - destruct Hinv as [_ Hall]. split.
      + rewrite length_take. lia.
      + intros e (i & Hi & _)%elem_of_take. apply list_elem_of_lookup_2 in Hi.
        apply elem_of_cons in Hi as [->|Hin]; [done|by apply Hall]. }
  apply Hgen. split; [simpl; lia|]. intros entry Hin. by apply elem_of_nil in Hin.
Qed.



Lemma handle_notified toLowerCase Number_toString ev st :
  let o := handle toLowerCase Number_toString ev st in
  (notified o = [] ∧ result (state o) = result st) ∨
  (∃ v, notified o = [v] ∧ result (state o) = v).
Proof.
  destruct ev; cbn [handle]; try (by left).
  - destruct (senderFocused st && truthy (sender st)); [|by left].
    destruct (_ !! row); by left.
  - destruct (receiverFocused st && truthy (receiver st)); [|by left].
    destruct (_ !! row); by left.
  - destruct (canSubmit st) eqn:Hcan; [|by left].
    destruct (loading st); [by left|]. cbn [negb orb].
    destruct (runSimulation_outcome fetch st Hcan) as [[res ->]|[message ->]];
      [right; by eexists|by left].
  - destruct (result st) as [res|] eqn:Hres; [|left; by rewrite <- Hres].
    destruct (_ !! row); left; by rewrite <- Hres.
  - destruct (result st) eqn:Hres; [right; by eexists|left; by rewrite <- Hres].
  - destruct (0 <? length (history st))%nat; by left.
  - destruct (history st !! row); [right; by eexists|by left].
  - unfold opened. destruct (fetchAccounts fetch); by left.
Qed.

(** X8. The result the panel shows is always the last value it passed to
    [onSimulationResult]: after any session, when something was notified
    the panel's [result] is the last notification, and when nothing was
    notified it is what it was at the start. *)
Theorem panel_result_is_last_notification toLowerCase Number_toString events st :
  let o := session toLowerCase Number_toString events st in
  result (state o) = default (result st) (last (notified o)).
Proof.
  cbv zeta. revert st. induction events as [|ev events IH]; intros st; [done|].
  cbn [session state notified]. rewrite IH, last_app.
  destruct (last (notified (session _ _ events _))) as [v|]; [done|]. cbn [default].
  destruct (handle_notified toLowerCase Number_toString ev st)
    as [[-> ->]|(v & -> & ->)]; done.
Qed.

End PanelSession.

Section PanelSessionExamples.

Import SimulatorPanel.


(** X9. A simulation that fails, whether the request cannot be sent, the
    engine answers with an error status or its reply cannot be read, leaves
    the shown result, the history and the form as they were: the panel only
    shows the message, stops the spinner and notifies nobody. *)
Theorem failed_simulation_keeps_result fetch st message :
  canSubmit st = true →
  (simulateTransaction fetch (trim (sender st)) (trim (receiver st))
     (parseFloat (amount st))
     (if truthy (timestamp st) then Some (timestamp st) else None)).2 = Throw message →
  let o := runSimulation fetch st in
  error (state o) = Some message ∧ loading (state o) = false ∧
  result (state o) = result st ∧ history (state o) = history st ∧
  sender (state o) = sender st ∧ receiver (state o) = receiver st ∧
  amount (state o) = amount st ∧ timestamp (state o) = timestamp st ∧
  notified o = [].
Proof.
  intros Hcan Hthrow. cbv zeta. unfold runSimulation. rewrite Hcan. cbn [negb].
  destruct (simulateTransaction _ _ _ _ _) as [issued completion].
  simpl in Hthrow. subst completion. by repeat split.
Qed.

Lemma failed_simulation_keeps_result_witness :
  let st := Example.form "A" "C" "7" in
  let o := runSimulation Walkthrough.refusing st in
  error (state o) = Some "unknown sender" ∧ loading (state o) = false ∧
  result (state o) = result st ∧ history (state o) = history st ∧
  sender (state o) = sender st ∧ receiver (state o) = receiver st ∧
  amount (state o) = amount st ∧ timestamp (state o) = timestamp st ∧
  notified o = [].
Proof.
  exact (failed_simulation_keeps_result Walkthrough.refusing (Example.form "A" "C" "7")
           "unknown sender" eq_refl eq_refl).
Defined.

End PanelSessionExamples.

(** ** The sidebar's risk distribution *)

Section SidebarFacts.

Import Sidebar.

Local Open Scope Q_scope.

Lemma Math_round_scaled (n : Z) (a : Z) (b : positive) :
  Math_round (inject_Z n * (a # b)) = inject_Z ((2 * n * a + Z.pos b) / (2 * Z.pos b))%Z.
Proof.
  unfold Math_round. f_equal.
  unfold Qfloor, Qplus, Qmult, inject_Z. cbn [Qnum Qden].
  f_equal; lia.
Qed.

Lemma risk_counts (n : Z) :
  (0 ≤ n)%Z →
  ∃ c h m l : Z,
    criticalCount (inject_Z n) = inject_Z c ∧ highCount (inject_Z n) = inject_Z h ∧
    mediumCount (inject_Z n) = inject_Z m ∧ lowCount (inject_Z n) == inject_Z l ∧
    (0 ≤ c ∧ 0 ≤ h ∧ 0 ≤ m ∧ 0 ≤ l ∧ c + h + m + l = n)%Z.
Proof.
  intros Hn.
  exists ((2 * n * 15 + 100) / 200)%Z, ((2 * n * 3 + 10) / 20)%Z,
         ((2 * n * 35 + 100) / 200)%Z.
  exists (n - (2 * n * 15 + 100) / 200 - (2 * n * 3 + 10) / 20 - (2 * n * 35 + 100) / 200)%Z.
  unfold lowCount, criticalCount, highCount, mediumCount.
  rewrite !Math_round_scaled.
  assert ((2 * n * 15 + 100) / 200 + (2 * n * 3 + 10) / 20 + (2 * n * 35 + 100) / 200 ≤ n)%Z
    as Hsum by (Z.div_mod_to_equations; lia).
  split; [done|]. split; [done|]. split; [done|]. split.
  - unfold Qminus. rewrite <- !inject_Z_opp, <- !inject_Z_plus.
    unfold Math_max. rewrite Q.max_r; [apply Qeq_refl|].
    change 0 with (inject_Z 0). rewrite <- Zle_Qle.
    Z.div_mod_to_equations. lia.
  - repeat split; try lia; Z.div_mod_to_equations; lia.
Qed.

(** X10. For a suspicious count that is a non-negative integer, the four
    risk categories the sidebar derives from it are non-negative and add up
    to the count exactly: nothing is lost or invented by the rounding. *)
Theorem risk_counts_add_up (n : Z) :
  (0 ≤ n)%Z →
  let s := inject_Z n in
  0 <= criticalCount s ∧ 0 <= highCount s ∧ 0 <= mediumCount s ∧ 0 <= lowCount s ∧
  criticalCount s + highCount s + mediumCount s + lowCount s == s.
Proof.
  intros Hn. cbv zeta.
  destruct (risk_counts n Hn) as (c & h & m & l & -> & -> & -> & Hl & Hc & Hh & Hm & Hl0 & Hsum).
  rewrite Hl. change 0 with (inject_Z 0). rewrite <- !Zle_Qle, <- !inject_Z_plus.
  repeat split; try done. by rewrite Hsum.
Qed.

Lemma risk_counts_add_up_witness :
  let s := inject_Z 7 in
  0 <= criticalCount s ∧ 0 <= highCount s ∧ 0 <= mediumCount s ∧ 0 <= lowCount s ∧
  criticalCount s + highCount s + mediumCount s + lowCount s == s.
Proof. apply (risk_counts_add_up 7). lia. Defined.

(** X11. For a suspicious count that is a non-negative integer, the total
    the risk bar divides by is the count itself, or 1 when the count is 0,
    so it is never zero; and no segment overflows the bar: the width of
    every segment is between 0 and 100 percent. *)
Theorem risk_bar_segments_fit (n : Z) :
  (0 ≤ n)%Z →
  let s := inject_Z n in
  riskTotal s == (if decide (n = 0)%Z then 1 else inject_Z n) ∧
  ∀ d, d ∈ riskData s → 0 <= riskWidth s d ∧ riskWidth s d <= 100.
Proof.
  intros Hn. cbv zeta.
  destruct (risk_counts n Hn)
    as (c & h & m & l & Hc' & Hh' & Hm' & Hl' & Hc & Hh & Hm & Hl & Hsum).
  assert (foldl (fun s d => s + d.2) 0 (riskData (inject_Z n)) == inject_Z n) as Htotal.
  { unfold riskData. cbn [foldl snd].
    rewrite Hc', Hh', Hm', Hl', Qplus_0_l, <- !inject_Z_plus. by rewrite Hsum. }
  assert (riskTotal (inject_Z n) == (if decide (n = 0)%Z then 1 else inject_Z n)) as HT.
  { unfold riskTotal, or_1. destruct (Qeq_bool _ 0) eqn:Hzero.
    - apply Qeq_bool_iff in Hzero. rewrite Htotal in Hzero.
      assert (n = 0)%Z by (unfold Qeq in Hzero; simpl in Hzero; lia). by case_decide.
    - apply Qeq_bool_neq in Hzero. case_decide as Hn0; [|exact Htotal].
      destruct Hzero. by rewrite Htotal, Hn0. }
  split; [exact HT|]. intros d Hd.
  assert (∃ v : Z, d.2 == inject_Z v ∧ (0 ≤ v ≤ n)%Z) as (v & Hv & Hv0 & Hvn).
  { unfold riskData in Hd.
    apply elem_of_cons in Hd as [-> | Hd]; [exists c; cbn [snd]; rewrite Hc'; split; [done|lia]|].
    apply elem_of_cons in Hd as [-> | Hd]; [exists h; cbn [snd]; rewrite Hh'; split; [done|lia]|].
    apply elem_of_cons in Hd as [-> | Hd]; [exists m; cbn [snd]; rewrite Hm'; split; [done|lia]|].
    apply list_elem_of_singleton in Hd as ->. exists l. cbn [snd]. split; [exact Hl'|lia]. }
  assert (0 < riskTotal (inject_Z n) ∧ d.2 <= riskTotal (inject_Z n)) as [Hpos Hle].
  { rewrite HT, Hv. case_decide as Hn0.
    - split; [reflexivity|]. change 1 with (inject_Z 1). rewrite <- Zle_Qle. lia.
    - split; [change 0 with (inject_Z 0); rewrite <- Zlt_Qlt; lia|].
      rewrite <- Zle_Qle. lia. }
  assert (0 <= d.2) as Hnonneg
    by (rewrite Hv; change 0 with (inject_Z 0); rewrite <- Zle_Qle; lia).
  unfold riskWidth.
  assert (0 <= d.2 / riskTotal (inject_Z n)) as Hlo
    by (apply Qle_shift_div_l; [done|]; by rewrite Qmult_0_l).
  assert (d.2 / riskTotal (inject_Z n) <= 1) as Hhi
    by (apply Qle_shift_div_r; [done|]; by rewrite Qmult_1_l).
  revert Hlo Hhi. generalize (d.2 / riskTotal (inject_Z n)). intros x Hlo Hhi. lra.
Qed.

Lemma risk_bar_segments_fit_witness :
  let s := inject_Z 3 in
  riskTotal s == 3 ∧ ∀ d, d ∈ riskData s → 0 <= riskWidth s d ∧ riskWidth s d <= 100.
Proof. apply (risk_bar_segments_fit 3). lia. Defined.

Lemma maxCount_ge_1 (patterns : list (string * number)) : 1 <= maxCount patterns.
Proof.
  unfold maxCount. induction patterns as [|p patterns IH]; cbn [map foldr]; [lra|].
  eapply Qle_trans; [exact IH|]. apply Q.le_max_r.
Qed.

Lemma maxCount_ge (patterns : list (string * number)) p :
  p ∈ patterns → p.2 <= maxCount patterns.
Proof.
  unfold maxCount. induction patterns as [|q patterns IH]; cbn [map foldr].
  - intros Hin. by apply elem_of_nil in Hin.
  - intros [-> | Hin]%elem_of_cons; [apply Q.le_max_l|].
    eapply Qle_trans; [by apply IH|]. apply Q.le_max_r.
Qed.

(** X12. No bar of the pattern list overflows: the width of the bar of a
    listed pattern is at most 100 percent, whatever the counts (the largest
    count is taken together with 1, so the divisor is never zero), and it is
    not negative when the count is not. *)
Theorem pattern_bar_never_overflows (patterns : list (string * number)) p :
  p ∈ patterns →
  patternWidth patterns p <= 100 ∧ (0 <= p.2 → 0 <= patternWidth patterns p).
Proof.
  intros Hin. unfold patternWidth.
  pose proof (maxCount_ge_1 patterns) as H1. pose proof (maxCount_ge patterns p Hin) as Hp.
  assert (0 < maxCount patterns) as Hpos by (eapply Qlt_le_trans; [|exact H1]; reflexivity).
  assert (p.2 / maxCount patterns <= 1) as Hle.
  { apply Qle_shift_div_r; [done|]. by rewrite Qmult_1_l. }
  split.
  - revert Hle. generalize (p.2 / maxCount patterns). intros x Hx. lra.
  - intros Hnonneg.
    assert (0 <= p.2 / maxCount patterns) as Hge.
    { apply Qle_shift_div_l; [done|]. by rewrite Qmult_0_l. }
    revert Hge. generalize (p.2 / maxCount patterns). intros x Hx. lra.
Qed.

Lemma pattern_bar_never_overflows_witness :
  patternWidth [("Circular Loops", 3); ("Shell Chains", 0)] ("Circular Loops", 3) <= 100 ∧
  0 <= patternWidth [("Circular Loops", 3); ("Shell Chains", 0)] ("Circular Loops", 3).
Proof.
  destruct (pattern_bar_never_overflows [("Circular Loops", 3); ("Shell Chains", 0)]
              ("Circular Loops", 3) (list_elem_of_here _ _)) as [Hle Hge].
  split; [exact Hle|]. apply Hge. discriminate.
Defined.

End SidebarFacts.

(** ** The charts *)

Section ChartsFacts.

Import ChartsView.

Local Open Scope Q_scope.

Lemma Qle_bool_true (a b : Q) : a <= b → Qle_bool a b = true.
Proof. apply Qle_bool_iff. Qed.

Lemma Qle_bool_false (a b : Q) : b < a → Qle_bool a b = false.
Proof.
  intros Hlt. destruct (Qle_bool a b) eqn:Hle; [|done].
  apply Qle_bool_iff in Hle. lra.
Qed.

Lemma Qeq_bool_true (a b : Q) : a == b → Qeq_bool a b = true.
Proof. apply Qeq_bool_iff. Qed.

Lemma Qeq_bool_false_lt (a b : Q) : a < b → Qeq_bool a b = false.
Proof.
  intros Hlt. destruct (Qeq_bool a b) eqn:Heq; [|done].
  apply Qeq_bool_iff in Heq. lra.
Qed.

Lemma Qeq_bool_false_gt (a b : Q) : b < a → Qeq_bool a b = false.
Proof.
  intros Hlt. destruct (Qeq_bool a b) eqn:Heq; [|done].
  apply Qeq_bool_iff in Heq. lra.
Qed.

Ltac decide_comparisons :=
  repeat match goal with
    | |- context [Qle_bool ?a ?b] =>
        first [rewrite (Qle_bool_true a b) by lra | rewrite (Qle_bool_false a b) by lra]
    | |- context [Qeq_bool ?a ?b] =>
        first [rewrite (Qeq_bool_true a b) by lra
              | rewrite (Qeq_bool_false_lt a b) by lra
              | rewrite (Qeq_bool_false_gt a b) by lra]
    end.

Local Abbreviation with_counts c0 c1 c2 c3 c4 :=
  [ {| Bucket.range := "0–20"; Bucket.min := 0; Bucket.max := 20; Bucket.count := c0;
       Bucket.fill := "#166534" |};
    {| Bucket.range := "20–40"; Bucket.min := 20; Bucket.max := 40; Bucket.count := c1;
       Bucket.fill := "#4B5563" |};
    {| Bucket.range := "40–60"; Bucket.min := 40; Bucket.max := 60; Bucket.count := c2;
       Bucket.fill := "#B45309" |};
    {| Bucket.range := "60–80"; Bucket.min := 60; Bucket.max := 80; Bucket.count := c3;
       Bucket.fill := "#C2410C" |};
    {| Bucket.range := "80–100"; Bucket.min := 80; Bucket.max := 100; Bucket.count := c4;
       Bucket.fill := "#B91C1C" |} ].

Local Abbreviation one_if b := (if b then 1%nat else 0%nat).

Lemma add_account_with_counts (c0 c1 c2 c3 c4 : nat) (a : Account.t) :
  add_account (with_counts c0 c1 c2 c3 c4) a =
    with_counts
      (c0 + one_if (Qle_bool 0 (Account.suspicionScore a) && Qgtb 20 (Account.suspicionScore a)))%nat
      (c1 + one_if (Qle_bool 20 (Account.suspicionScore a) && Qgtb 40 (Account.suspicionScore a)))%nat
      (c2 + one_if (Qle_bool 40 (Account.suspicionScore a) && Qgtb 60 (Account.suspicionScore a)))%nat
      (c3 + one_if (Qle_bool 60 (Account.suspicionScore a) && Qgtb 80 (Account.suspicionScore a)))%nat
      (c4 + one_if (Qle_bool 80 (Account.suspicionScore a) && Qle_bool (Account.suspicionScore a) 100))%nat.
Proof.
  unfold add_account. generalize (Account.suspicionScore a). intros s.
  unfold holds, Qgtb. cbn [list_find Bucket.min Bucket.max].
  destruct (Qlt_le_dec s 0); [|destruct (Qlt_le_dec s 20); [|destruct (Qlt_le_dec s 40);
    [|destruct (Qlt_le_dec s 60); [|destruct (Qlt_le_dec s 80); [|destruct (Qlt_le_dec s 100);
    [|destruct (Qlt_le_dec 100 s)]]]]]];
    decide_comparisons; cbn; rewrite ?Nat.add_0_r, ?Nat.add_1_r; reflexivity.
Qed.

Lemma foldl_add_account (accounts : list Account.t) (c0 c1 c2 c3 c4 : nat) :
  foldl add_account (with_counts c0 c1 c2 c3 c4) accounts =
    with_counts
      (c0 + count (fun a => Qle_bool 0 (Account.suspicionScore a)
                            && Qgtb 20 (Account.suspicionScore a)) accounts)%nat
      (c1 + count (fun a => Qle_bool 20 (Account.suspicionScore a)
                            && Qgtb 40 (Account.suspicionScore a)) accounts)%nat
      (c2 + count (fun a => Qle_bool 40 (Account.suspicionScore a)
                            && Qgtb 60 (Account.suspicionScore a)) accounts)%nat
      (c3 + count (fun a => Qle_bool 60 (Account.suspicionScore a)
                            && Qgtb 80 (Account.suspicionScore a)) accounts)%nat
      (c4 + count (fun a => Qle_bool 80 (Account.suspicionScore a)
                            && Qle_bool (Account.suspicionScore a) 100) accounts)%nat.
Proof.
  revert c0 c1 c2 c3 c4. induction accounts as [|a accounts IH]; intros c0 c1 c2 c3 c4.
  - cbn [foldl]. unfold count. cbn [List.filter length]. by rewrite !Nat.add_0_r.
  - cbn [foldl]. rewrite add_account_with_counts, IH, !count_cons.
    by rewrite !Nat.add_assoc.
Qed.

Lemma bands_partition (s : Q) :
  (one_if (Qle_bool 0 s && Qgtb 20 s) + one_if (Qle_bool 20 s && Qgtb 40 s)
   + one_if (Qle_bool 40 s && Qgtb 60 s) + one_if (Qle_bool 60 s && Qgtb 80 s)
   + one_if (Qle_bool 80 s && Qle_bool s 100))%nat =
  one_if (Qle_bool 0 s && Qle_bool s 100).
Proof.
  unfold Qgtb.
  destruct (Qlt_le_dec s 0); [|destruct (Qlt_le_dec s 20); [|destruct (Qlt_le_dec s 40);
    [|destruct (Qlt_le_dec s 60); [|destruct (Qlt_le_dec s 80);
    [|destruct (Qlt_le_dec 100 s)]]]]];
    decide_comparisons; reflexivity.
Qed.

(** X13. The score histogram counts, in its five bars, the accounts whose
    score lies in [0,20), [20,40), [40,60), [60,80) and [80,100] (the last
    bar takes the score 100 itself). The bars together hold exactly the
    accounts with a score from 0 to 100: an account with a negative score or
    a score above 100 is in no bar. *)
Theorem score_histogram_counts (accounts : list Account.t) :
  Bucket.count <$> scoreDistribution accounts =
    [ count (fun a => Qle_bool 0 (Account.suspicionScore a)
                      && Qgtb 20 (Account.suspicionScore a)) accounts;
      count (fun a => Qle_bool 20 (Account.suspicionScore a)
                      && Qgtb 40 (Account.suspicionScore a)) accounts;
      count (fun a => Qle_bool 40 (Account.suspicionScore a)
                      && Qgtb 60 (Account.suspicionScore a)) accounts;
      count (fun a => Qle_bool 60 (Account.suspicionScore a)
                      && Qgtb 80 (Account.suspicionScore a)) accounts;
      count (fun a => Qle_bool 80 (Account.suspicionScore a)
                      && Qle_bool (Account.suspicionScore a) 100) accounts ] ∧
  sum_list (Bucket.count <$> scoreDistribution accounts) =
    count (fun a => Qle_bool 0 (Account.suspicionScore a)
                    && Qle_bool (Account.suspicionScore a) 100) accounts.
Proof.
  unfold scoreDistribution, buckets. rewrite foldl_add_account.
  cbn [fmap list_fmap Bucket.count Nat.add sum_list sum_list_with]. split; [done|].
  unfold id. rewrite Nat.add_0_r, !Nat.add_assoc.
  induction accounts as [|a accounts IH]; [done|].
  rewrite !count_cons. cbv beta. rewrite <- bands_partition, <- IH. lia.
Qed.

Lemma Math_round_mono (x y : Q) : x <= y → Math_round x <= Math_round y.
Proof.
  intros Hle. unfold Math_round. rewrite <- Zle_Qle. apply Qfloor_resp_le. lra.
Qed.

Lemma add_transaction_hours (hourly : list Hourly.t) i tx :
  Hourly.hour <$> add_transaction hourly i tx = Hourly.hour <$> hourly.
Proof.
  unfold add_transaction.
  rewrite (list_fmap_alter Hourly.hour _ (fun x => x)); [by apply list_alter_id|].
  by apply Forall_true.
Qed.

Lemma add_transaction_fraud_le_total (hourly : list Hourly.t) i tx :
  0 <= Transaction.amount tx →
  Forall (fun h => 0 <= Hourly.fraud h ∧ Hourly.fraud h <= Hourly.total h) hourly →
  Forall (fun h => 0 <= Hourly.fraud h ∧ Hourly.fraud h <= Hourly.total h)
         (add_transaction hourly i tx).
Proof.
  intros Hamount Hall. unfold add_transaction. apply Forall_alter; [done|].
  intros h _ [Hf Ht]. cbn [Hourly.fraud Hourly.total].
  destruct (Transaction.isFraud tx); split; lra.
Qed.

Lemma forEach_indexed_add_transaction (transactions : list Transaction.t) i
    (hourly : list Hourly.t) :
  Hourly.hour <$> forEach_indexed add_transaction hourly i transactions =
    Hourly.hour <$> hourly ∧
  ((∀ tx, tx ∈ transactions → 0 <= Transaction.amount tx) →
   Forall (fun h => 0 <= Hourly.fraud h ∧ Hourly.fraud h <= Hourly.total h) hourly →
   Forall (fun h => 0 <= Hourly.fraud h ∧ Hourly.fraud h <= Hourly.total h)
          (forEach_indexed add_transaction hourly i transactions)).
Proof.
  revert i hourly. induction transactions as [|tx transactions IH]; intros i hourly;
    cbn [forEach_indexed]; [done|].
  destruct (IH (S i) (add_transaction hourly i tx)) as [Hhours Hbounds]. split.
  - by rewrite Hhours, add_transaction_hours.
  - intros Hamounts Hall. apply Hbounds.
    + intros tx' Hin. apply Hamounts. by apply list_elem_of_further.
    + apply add_transaction_fraud_le_total; [|done]. apply Hamounts, list_elem_of_here.
Qed.

(** X14. The volume chart always has its 24 hourly buckets, labelled 00:00
    to 23:00 in this order, whatever the transactions are and however many
    there are. When no transaction has a negative amount, the fraud volume
    of a bucket is never negative and never exceeds the bucket's total
    volume, also after both have been rounded. *)
Theorem volume_chart_buckets (transactions : list Transaction.t) :
  Hourly.hour <$> volumeOverTime transactions =
    (fun h => padStart0 2 (pretty h) +:+ ":00") <$> seq 0 24 ∧
  length (volumeOverTime transactions) = 24%nat ∧
  ((∀ tx, tx ∈ transactions → 0 <= Transaction.amount tx) →
   ∀ h, h ∈ volumeOverTime transactions →
     0 <= Hourly.fraud h ∧ Hourly.fraud h <= Hourly.total h).
Proof.
  unfold volumeOverTime.
  destruct (forEach_indexed_add_transaction transactions 0 hourly) as [Hhours Hbounds].
  assert (Hourly.hour <$> map rounded (forEach_indexed add_transaction hourly 0 transactions) =
            (fun h => padStart0 2 (pretty h) +:+ ":00") <$> seq 0 24) as Hlabels.
  { change (map rounded) with (fmap (M:=list) rounded).
    rewrite <- list_fmap_compose.
    change (Hourly.hour ∘ rounded) with Hourly.hour. rewrite Hhours.
    unfold hourly. change (@map nat Hourly.t) with (@fmap list _ nat Hourly.t).
    by rewrite <- list_fmap_compose. }
  split; [exact Hlabels|]. split.
  - rewrite <- (length_fmap Hourly.hour), Hlabels, length_fmap. reflexivity.
  - intros Hamounts h' (h & <- & Hin)%list_elem_of_In%in_map_iff.
    apply list_elem_of_In in Hin.
    assert (0 <= Hourly.fraud h ∧ Hourly.fraud h <= Hourly.total h) as [Hf Ht].
    { revert h Hin. apply Forall_forall, Hbounds; [done|].
      unfold hourly. apply Forall_forall. intros h (k & <- & _)%list_elem_of_In%in_map_iff.
      cbn [Hourly.fraud Hourly.total]. split; lra. }
    cbn [rounded Hourly.fraud Hourly.total].
    split; [by apply Math_round_nonneg|by apply Math_round_mono].
Qed.

Lemma volume_chart_buckets_witness :
  Hourly.hour <$> volumeOverTime Walkthrough.refund_transactions =
    (fun h => padStart0 2 (pretty h) +:+ ":00") <$> seq 0 24 ∧
  length (volumeOverTime Walkthrough.refund_transactions) = 24%nat ∧
  ∀ h, h ∈ volumeOverTime Example.transactions →
    0 <= Hourly.fraud h ∧ Hourly.fraud h <= Hourly.total h.
Proof.
  split; [|split].
  - exact (proj1 (volume_chart_buckets Walkthrough.refund_transactions)).
  - exact (proj1 (proj2 (volume_chart_buckets Walkthrough.refund_transactions))).
  - apply (proj2 (proj2 (volume_chart_buckets Example.transactions))).
    intros tx [-> | Hin%elem_of_nil]%elem_of_cons; [|done]. vm_compute. discriminate.
Defined.

Lemma sort_insert_perm {A} (compare : A → A → number) (x : A) (l : list A) :
  sort_insert compare x l ≡ₚ x :: l.
Proof.
  induction l as [|y l IH]; cbn [sort_insert]; [done|].
  destruct (Qle_bool (compare x y) 0); [done|]. by rewrite IH, Permutation_swap.
Qed.

Lemma Array_sort_perm {A} (compare : A → A → number) (l : list A) :
  Array_sort compare l ≡ₚ l.
Proof.
  unfold Array_sort. induction l as [|x l IH]; cbn [foldr]; [done|].
  by rewrite sort_insert_perm, IH.
Qed.

Local Abbreviation by_score_descending :=
  (fun a b : Account.t => Account.suspicionScore b - Account.suspicionScore a).

Local Abbreviation not_below :=
  (fun a b : Account.t => Account.suspicionScore b <= Account.suspicionScore a).

Lemma sort_insert_sorted (x : Account.t) (l : list Account.t) :
  StronglySorted not_below l →
  StronglySorted not_below (sort_insert by_score_descending x l).
Proof.
  induction l as [|y l IH]; cbn [sort_insert]; intros Hsorted.
  - repeat constructor.
  - apply StronglySorted_cons in Hsorted as [Hy Hl].
    destruct (Qle_bool _ 0) eqn:Hcmp.
    + apply Qle_bool_iff in Hcmp. apply StronglySorted_cons. split.
      * constructor; [lra|]. eapply Forall_impl; [exact Hy|]. cbv beta. intros z Hz. lra.
      * by apply StronglySorted_cons.
    + assert (Account.suspicionScore x < Account.suspicionScore y) as Hlt.
      { destruct (Qlt_le_dec (Account.suspicionScore x) (Account.suspicionScore y)) as [|Hle];
          [done|].
        assert (Account.suspicionScore y - Account.suspicionScore x <= 0) as Hle' by lra.
        apply Qle_bool_iff in Hle'. congruence. }
      apply StronglySorted_cons. split; [|by apply IH].
      rewrite sort_insert_perm. constructor; [lra|done].
Qed.

Lemma Array_sort_sorted (l : list Account.t) :
  StronglySorted not_below (Array_sort by_score_descending l).
Proof.
  unfold Array_sort. induction l as [|x l IH]; cbn [foldr]; [constructor|].
  by apply sort_insert_sorted.
Qed.

(** X15. The chart of top accounts shows the ten accounts with the highest
    scores, highest first (all of them when there are fewer): its rows are
    rows of accounts, in descending order of score, and an account either
    has a row in the chart or a score no higher than that of any row. *)
Theorem top_accounts_are_the_highest (accounts : list Account.t) :
  length (topAccounts accounts) = (10 `min` length accounts)%nat ∧
  StronglySorted (fun t u => TopAccount.score u <= TopAccount.score t)
                 (topAccounts accounts) ∧
  (∀ t, t ∈ topAccounts accounts → ∃ a, a ∈ accounts ∧ t = topAccount a) ∧
  (∀ a, a ∈ accounts →
     topAccount a ∈ topAccounts accounts ∨
     ∀ t, t ∈ topAccounts accounts → Account.suspicionScore a <= TopAccount.score t).
Proof.
  unfold topAccounts.
  pose proof (Array_sort_perm by_score_descending accounts) as Hperm.
  pose proof (Array_sort_sorted accounts) as Hsorted.
  set (sorted := Array_sort by_score_descending accounts) in *.
  change (@map Account.t TopAccount.t) with (@fmap list _ Account.t TopAccount.t).
  rewrite <- (take_drop 10 sorted) in Hsorted.
  split; [|split; [|split]].
  - by rewrite length_fmap, length_take, Hperm.
  - apply (StronglySorted_fmap topAccount not_below); [done|].
    by apply StronglySorted_app_1_l in Hsorted.
  - intros t (a & -> & Hin)%list_elem_of_fmap. exists a. split; [|done].
    rewrite <- Hperm. by eapply subseteq_take.
  - intros a Hin. rewrite <- Hperm, <- (take_drop 10 sorted) in Hin.
    apply elem_of_app in Hin as [Hin|Hin].
    + left. by apply list_elem_of_fmap_2.
    + right. intros t (b & -> & Hb)%list_elem_of_fmap.
      apply (StronglySorted_app_1_elem_of _ _ _ b a Hsorted Hb Hin).
Qed.

End ChartsFacts.

(** ** The detail panel, the explorer and the rings table *)

Section ViewsFacts.

Local Open Scope Q_scope.

(** X16. The banner of the detail panel and the class of the node in the
    graph are decided alike: an account drawn as a ring member is announced
    as one, a node drawn as suspicious gets the smurfing warning, and a
    clean node the clear history. *)
Theorem detail_status_agrees_with_node_class (a : Account.t) :
  Element.classes (node_element a) =
    match AccountDetailPanel.status a with
    | AccountDetailPanel.RingMember => "ring-member"
    | AccountDetailPanel.PotentialSmurfing => "suspicious"
    | AccountDetailPanel.ClearHistory => "clean"
    end.
Proof.
  unfold AccountDetailPanel.status. cbn [node_element Element.classes].
  by destruct (truthy_opt (Account.ringId a)), (Qgtb (Account.suspicionScore a) 50).
Qed.

Lemma connection_peer_is_endpoint u (edges : list ApiGraphEdge.t) c :
  c ∈ flat_map (incident u) edges →
  ∃ e, e ∈ edges ∧
       (Connection.targetId c = ApiGraphEdge.source e ∨
        Connection.targetId c = ApiGraphEdge.target e).
Proof.
  intros (e & He & Hc)%list_elem_of_In%in_flat_map. apply list_elem_of_In in He, Hc.
  exists e. split; [done|]. unfold incident in Hc.
  apply elem_of_app in Hc as [Hc|Hc]; case_decide; try (by apply elem_of_nil in Hc);
    apply list_elem_of_singleton in Hc as ->; cbn [Connection.targetId]; auto.
Qed.

(** X17. In a response whose edges all join graph nodes, following a
    connection of the detail panel always lands on an account: a click on a
    listed connection with a non-empty peer id selects an account with that
    id, so the panel switches to the peer instead of closing. *)
Theorem connection_link_opens_peer env response g accounts a row conn st :
  mapApiToAccounts env response = Return accounts →
  AnalysisResponse.graph response = Some g →
  endpoints_are_nodes g = true →
  a ∈ accounts →
  AccountDetailPanel.shownConnections a !! row = Some conn →
  Connection.targetId conn ≠ "" →
  ∃ b, App.selectedAccount accounts (AccountDetailPanel.clickConnection a row st) = Some b ∧
       Account.id b = Connection.targetId conn.
Proof.
  intros (sa & g1 & rings & _ & Hg1 & _ & ->)%mapApiToAccounts_inv Hg Hends Ha Hrow Hid.
  rewrite Hg in Hg1. injection Hg1 as <-.
  unfold AccountDetailPanel.clickConnection. rewrite Hrow.
  unfold App.selectedAccount. cbn [App.handleNodeClick App.selectedAccountId].
  unfold truthy. rewrite bool_decide_eq_false_2 by done. cbn [negb].
  apply elem_of_imap_inv in Ha as (i & node & _ & ->).
  unfold AccountDetailPanel.shownConnections in Hrow.
  rewrite account_of_connections in Hrow.
  assert (conn ∈ flat_map (incident (ApiGraphNode.id node)) (ApiGraph.edges g)) as Hconn.
  { apply (subseteq_take 10). by eapply list_elem_of_lookup_2. }
  apply connection_peer_is_endpoint in Hconn as (e & He & Hpeer).
  unfold endpoints_are_nodes in Hends.
  apply list_elem_of_In in He. apply (proj1 (forallb_forall _ _) Hends) in He.
  apply andb_true_iff in He as [Hs Ht].
  assert (is_node_id g (Connection.targetId conn) = true) as Hnode
    by (destruct Hpeer as [-> | ->]; done).
  eapply is_node_id_account in Hnode.
  apply find_account_elem in Hnode as [b Hb]. exists b. split; [exact Hb|].
  unfold find_account in Hb. apply find_some in Hb as [_ Hb].
  by apply bool_decide_eq_true_1 in Hb.
Qed.

Lemma connection_link_opens_peer_witness :
  ∃ b, App.selectedAccount Example.accounts
         (AccountDetailPanel.clickConnection Example.account_A 0 App.initial) = Some b ∧
       Account.id b = "B".
Proof.
  refine (connection_link_opens_peer Example.env Example.response Example.graph
            Example.accounts Example.account_A 0
            {| Connection.targetId := "B"; Connection.direction := dir_out;
               Connection.amount := 1000 |}
            App.initial eq_refl eq_refl eq_refl _ eq_refl _).
  - vm_compute. apply list_elem_of_here.
  - discriminate.
Defined.

Lemma filter_length_count {A} (p : A → bool) (l : list A) :
  length (List.filter p l) = count p l.
Proof. reflexivity. Qed.

Lemma explorer_bands (toLowerCase : string → string) (st : AccountExplorer.State)
    (a : Account.t) :
  (if AccountExplorer.matches toLowerCase
        (AccountExplorer.setFilterStatus status_all st) a then 1 else 0)%nat =
  ((if AccountExplorer.matches toLowerCase
         (AccountExplorer.setFilterStatus status_high st) a then 1 else 0) +
   (if AccountExplorer.matches toLowerCase
         (AccountExplorer.setFilterStatus status_medium st) a then 1 else 0) +
   (if AccountExplorer.matches toLowerCase
         (AccountExplorer.setFilterStatus status_clean st) a then 1 else 0))%nat.
Proof.
  unfold AccountExplorer.matches, AccountExplorer.setFilterStatus, Qgtb.
  cbn [AccountExplorer.filterStatus AccountExplorer.searchTerm].
  destruct (negb (includes _ _)); [done|]. generalize (Account.suspicionScore a). intros s.
  destruct (Qlt_le_dec s 50); [|destruct (Qlt_le_dec s 70)];
    repeat match goal with
      | |- context [Qle_bool ?x ?y] =>
          first [rewrite (Qle_bool_true x y) by lra | rewrite (Qle_bool_false x y) by lra]
      end; reflexivity.
Qed.

(** X18. The three risk tabs of the account explorer split what the [all]
    tab lists: under any search term and whatever order the engine's sort
    gives, the numbers of accounts listed under high, medium and clean add
    up to the number listed under all, and the accounts listed under high
    have a score of at least 70, those under medium a score from 50 up to
    but not including 70, and those under clean a score below 50. *)
Theorem explorer_tabs_partition (toLowerCase : string → string)
    (sort : (Account.t → Account.t → number) → list Account.t → list Account.t)
    (st : AccountExplorer.State) (accounts : list Account.t) :
  (∀ compare l, sort compare l ≡ₚ l) →
  let listed status :=
    AccountExplorer.filteredAccounts toLowerCase sort
      (AccountExplorer.setFilterStatus status st) accounts in
  length (listed status_all) =
    (length (listed status_high) + length (listed status_medium)
     + length (listed status_clean))%nat ∧
  (∀ a, a ∈ listed status_high → 70 <= Account.suspicionScore a) ∧
  (∀ a, a ∈ listed status_medium →
        50 <= Account.suspicionScore a ∧ Account.suspicionScore a < 70) ∧
  (∀ a, a ∈ listed status_clean → Account.suspicionScore a < 50).
Proof.
  intros Hsort. cbv zeta. unfold AccountExplorer.filteredAccounts.
  rewrite !Hsort, !filter_length_count.
  split; [|split; [|split]].
  - induction accounts as [|a accounts IH]; [done|].
    rewrite !count_cons, IH, (explorer_bands toLowerCase st a). lia.
  - intros a Hin. rewrite Hsort in Hin. apply list_elem_of_In, filter_In in Hin as [_ Hm].
    unfold AccountExplorer.matches in Hm.
    cbn [AccountExplorer.setFilterStatus AccountExplorer.filterStatus] in Hm.
    destruct (negb _); [done|]. by apply Qle_bool_iff.
  - intros a Hin. rewrite Hsort in Hin. apply list_elem_of_In, filter_In in Hin as [_ Hm].
    unfold AccountExplorer.matches in Hm.
    cbn [AccountExplorer.setFilterStatus AccountExplorer.filterStatus] in Hm.
    destruct (negb _); [done|]. apply andb_true_iff in Hm as [Hlo Hhi].
    apply Qle_bool_iff in Hlo. split; [done|].
    unfold Qgtb in Hhi. apply negb_true_iff in Hhi.
    apply Qnot_le_lt. intros Hle. apply Qle_bool_iff in Hle. congruence.
  - intros a Hin. rewrite Hsort in Hin. apply list_elem_of_In, filter_In in Hin as [_ Hm].
    unfold AccountExplorer.matches in Hm.
    cbn [AccountExplorer.setFilterStatus AccountExplorer.filterStatus] in Hm.
    destruct (negb _); [done|].
    unfold Qgtb in Hm. apply negb_true_iff in Hm.
    apply Qnot_le_lt. intros Hle. apply Qle_bool_iff in Hle. congruence.
Qed.

Lemma explorer_tabs_partition_witness :
  let listed status :=
    AccountExplorer.filteredAccounts Walkthrough.toLowerCase (@Array_sort Account.t)
      (AccountExplorer.setFilterStatus status AccountExplorer.initial) Example.accounts in
  length (listed status_all) =
    (length (listed status_high) + length (listed status_medium)
     + length (listed status_clean))%nat ∧
  (∀ a, a ∈ listed status_high → 70 <= Account.suspicionScore a) ∧
  (∀ a, a ∈ listed status_medium →
        50 <= Account.suspicionScore a ∧ Account.suspicionScore a < 70) ∧
  (∀ a, a ∈ listed status_clean → Account.suspicionScore a < 50).
Proof.
  apply (explorer_tabs_partition Walkthrough.toLowerCase (@Array_sort Account.t)
           AccountExplorer.initial Example.accounts).
  intros compare l. apply Array_sort_perm.
Defined.

(** X19. A ring that the engine tagged [layering] is shown as [Layering],
    and the pattern filter of the rings table has no option of that name:
    such a ring is listed under [All Patterns] only, and [Shell Chain], the
    option meant for it, never lists it. *)
Theorem layering_rings_are_listed_only_under_all (toLowerCase : string → string)
    (ring : ApiFraudRing.t) (st : RingsTable.State) (rings : list FraudRing.t) :
  ApiFraudRing.pattern_type ring = "layering" →
  RingsTable.filterPattern st ∈ RingsTable.options →
  RingsTable.filterPattern st ≠ "all" →
  ring_of ring ∉ RingsTable.filteredRings toLowerCase st rings.
Proof.
  intros Htag Hoption Hnot_all [_ Hm]%list_elem_of_In%filter_In.
  unfold RingsTable.matches in Hm. apply andb_true_iff in Hm as [Hpattern _].
  apply orb_true_iff in Hpattern as [Hall|Hsame]; [by apply bool_decide_eq_true_1 in Hall|].
  apply bool_decide_eq_true_1 in Hsame.
  cbn [ring_of FraudRing.patternType] in Hsame. rewrite Htag in Hsame.
  change (mapPatternType "layering") with "Layering" in Hsame.
  rewrite <- Hsame in Hoption. unfold RingsTable.options in Hoption.
  repeat (apply elem_of_cons in Hoption as [Hoption|Hoption]; [discriminate|]).
  by apply elem_of_nil in Hoption.
Qed.

Lemma layering_rings_are_listed_only_under_all_witness :
  ring_of Walkthrough.layering_ring ∉
    RingsTable.filteredRings Walkthrough.toLowerCase
      {| RingsTable.expandedRow := None; RingsTable.filterPattern := "Shell Chain";
         RingsTable.searchTerm := "" |}
      [ring_of Walkthrough.layering_ring].
Proof.
  apply (layering_rings_are_listed_only_under_all Walkthrough.toLowerCase
           Walkthrough.layering_ring).
  - reflexivity.
  - cbn [RingsTable.filterPattern]. unfold RingsTable.options.
    do 4 apply list_elem_of_further. apply list_elem_of_here.
  - discriminate.
Defined.

End ViewsFacts.

(** ** Uploading a file *)

Section UploadFacts.

(** X20. A reply of the analysis engine with an error status never reaches
    the dashboard: the upload ends with an error message. The message is the
    [detail] of the reply when that is a non-empty string, the status text
    when the body is not JSON and the text is non-empty, and [Analysis
    failed (status)] when there is no [detail] or it is falsy (missing,
    empty, [null], [false], 0); in these cases it is never empty. A body
    that is the JSON [null] shows the text of the [TypeError] that reading
    its [detail] throws, and a truthy [detail] that is not a string shows
    whatever the engine's conversion to a string makes of it. *)
Theorem error_status_is_reported (String_of : OnHeap.Json → string) (fileName : string)
    (status : nat) (statusText : string) (body : ErrorBody) :
  ∃ message,
    startAnalysis fileName
      (analyzeFile String_of (Return (analyze_not_ok status statusText body))) =
      error_shown message ∧
    match body with
    | body_not_json =>
        message = (if bool_decide (statusText = "")
                   then "Analysis failed (" +:+ pretty status +:+ ")"
                   else statusText) ∧
        message ≠ ""
    | body_null => message = TypeError
    | body_with (OnHeap.JString detail) =>
        message = (if bool_decide (detail = "")
                   then "Analysis failed (" +:+ pretty status +:+ ")"
                   else detail) ∧
        message ≠ ""
    | body_with detail =>
        message = (if json_truthy detail then String_of detail
                   else "Analysis failed (" +:+ pretty status +:+ ")")
    end.
Proof.
  unfold startAnalysis, analyzeFile. cbn [bind].
  destruct body as [| |detail]; cbn [bind].
  - eexists. split; [reflexivity|]. cbn [json_truthy Error_message]. unfold truthy.
    case_bool_decide; cbn [negb]; by split.
  - by eexists.
  - eexists. split; [reflexivity|].
    destruct detail; cbn [json_truthy Error_message]; try done.
    unfold truthy. case_bool_decide; cbn [negb]; by split.
Qed.

End UploadFacts.

(** ** The overlay on a transfer of a new account to itself *)

Section OverlayEdgeCases.

Lemma count_nodes_tagged sim (elements : list Element.t) id :
  count (fun el => Element.is_node el && bool_decide (Element.id el = id))
        (tagged sim <$> elements) =
  count (fun el => Element.is_node el && bool_decide (Element.id el = id)) elements.
Proof.
  induction elements as [|el elements IH]; [done|].
  rewrite fmap_cons, !count_cons, IH. done.
Qed.

Lemma count_nodes_absent (elements : list Element.t) id :
  has_node elements id = false →
  count (fun el => Element.is_node el && bool_decide (Element.id el = id)) elements = 0%nat.
Proof.
  unfold has_node. induction elements as [|el elements IH]; [done|].
  cbn [existsb]. intros [Hel Hrest]%orb_false_iff.
  rewrite count_cons, Hel, IH; done.
Qed.

(** X21. When the hypothetical transaction sends from an account to itself
    and no node is drawn for that account, the overlay adds the node twice:
    the receiver is looked up in the accounts, not in the elements built so
    far, so the element list ends up with two nodes of the same id. *)
Theorem self_transfer_of_new_account_duplicates_node accounts transactions filterRingsOnly sim :
  HypotheticalTx.receiver_id (SimulationResult.hypothetical_tx sim) =
    HypotheticalTx.sender_id (SimulationResult.hypothetical_tx sim) →
  has_node (build accounts transactions filterRingsOnly)
           (HypotheticalTx.sender_id (SimulationResult.hypothetical_tx sim)) = false →
  count (fun el => Element.is_node el
                   && bool_decide (Element.id el =
                        HypotheticalTx.sender_id (SimulationResult.hypothetical_tx sim)))
        (NetworkGraph_elements accounts transactions filterRingsOnly (Some sim)) = 2%nat.
Proof.
  intros Hsame Hnew. rewrite NetworkGraph_elements_overlay, count_app, !count_nodes_tagged.
  rewrite (count_nodes_absent _ _ Hnew). unfold synthesized. rewrite Hsame, Hnew.
  cbn [app]. rewrite !count_cons. cbn [count List.filter length].
  unfold sim_node, sim_edge, Element.is_node, Element.id. cbn [Element.data].
  by rewrite bool_decide_eq_true_2.
Qed.

Lemma self_transfer_of_new_account_duplicates_node_witness :
  count (fun el => Element.is_node el && bool_decide (Element.id el = "N"))
        (NetworkGraph_elements Example.accounts Example.transactions false
           (Some Walkthrough.self_transfer)) = 2%nat.
Proof.
  exact (self_transfer_of_new_account_duplicates_node Example.accounts Example.transactions
           false Walkthrough.self_transfer eq_refl eq_refl).
Defined.

End OverlayEdgeCases.

(** ** What the entities share with the response *)

Section Sharing.

Import OnHeap.

Lemma get_mono v name (h h2 : heap) x :
  h ⊆ h2 → (get v name h).1 = Return x → (get v name h2).1 = Return x.
Proof.
  intros Hsub. unfold get. destruct v as [| | | | |l]; try done.
  destruct (h !! l) as [o|] eqn:Hl; [|done].
  rewrite (lookup_weaken _ _ _ _ Hl Hsub). by destruct o.
Qed.

Lemma elements_mono v (h h2 : heap) x :
  h ⊆ h2 → (elements v h).1 = Return x → (elements v h2).1 = Return x.
Proof.
  intros Hsub. unfold elements. destruct v as [| | | | |l]; try done.
  destruct (h !! l) as [o|] eqn:Hl; [|done].
  rewrite (lookup_weaken _ _ _ _ Hl Hsub). by destruct o.
Qed.

Lemma alloc_grows (h : heap) o : h ⊆ <[fresh (dom h) := o]> h.
Proof. apply insert_subseteq, not_elem_of_dom, is_fresh. Qed.

Lemma map_from_Forall2 {X Y} (R : heap → X → Y → Prop) (f : nat → X → M Y) :
  (∀ i x h y h2, f i x h = (Return y, h2) → h ⊆ h2 ∧ R h2 x y) →
  (∀ h h2 x y, h ⊆ h2 → R h x y → R h2 x y) →
  ∀ l i h ys h1, map_from f i l h = (Return ys, h1) → h ⊆ h1 ∧ Forall2 (R h1) l ys.
Proof.
  intros Hf Hmono l. induction l as [|x l IH]; intros i h ys h1; cbn [map_from].
  - intros [= <- <-]. split; [done|constructor].
  - unfold andThen at 1. destruct (f i x h) as [[y|e] h2] eqn:Hfx; [|done].
    unfold andThen at 1. destruct (map_from f (S i) l h2) as [[ys'|e] h3] eqn:Hrest; [|done].
    intros [= <- <-]. destruct (Hf _ _ _ _ _ Hfx) as [Hsub HR].
    destruct (IH _ _ _ _ Hrest) as [Hsub' Hall].
    split; [by etrans|]. constructor; [by eapply Hmono|done].
Qed.

(** X22. The rings that [mapApiToRings] returns do not copy the member
    lists of the response: in the heap the call leaves, the [accountIds] of
    the i-th ring it returned and the [member_accounts] of the i-th ring of
    the response read the same value, so when that is an array it is one
    and the same array object, and a later write through either is seen
    through the other. *)
Theorem rings_share_member_arrays response (h : heap) result (h' : heap) :
  mapApiToRings response h = (Return result, h') →
  ∃ fraud_rings ring_list out_list,
    (get response "fraud_rings" h').1 = Return fraud_rings ∧
    (elements fraud_rings h').1 = Return ring_list ∧
    (elements result h').1 = Return out_list ∧
    Forall2 (fun ring out =>
               ∃ v, (get ring "member_accounts" h').1 = Return v ∧
                    (get out "accountIds" h').1 = Return v)
            ring_list out_list.
Proof.
  unfold mapApiToRings. unfold andThen at 1.
  destruct (get response "fraud_rings" h) as [[fraud_rings|e] h1] eqn:Hget; [|done].
  pose proof (OnHeapFacts.reads_get response "fraud_rings" h) as Hh1.
  rewrite Hget in Hh1. cbn [snd] in Hh1. subst h1.
  unfold andThen at 1.
  destruct (elements fraud_rings h) as [[ring_list|e] h1] eqn:Helems; [|done].
  pose proof (OnHeapFacts.reads_elements fraud_rings h) as Hh1.
  rewrite Helems in Hh1. cbn [snd] in Hh1. subst h1.
  unfold andThen at 1.
  destruct (map_from _ 0 ring_list h) as [[out_list|e] h1] eqn:Hmap; [|done].
  unfold alloc. intros [= <- <-].
  apply (map_from_Forall2
           (fun h ring out =>
              ∃ v, (get ring "member_accounts" h).1 = Return v ∧
                   (get out "accountIds" h).1 = Return v)) in Hmap as [Hsub Hall].
  - pose proof (alloc_grows h1 (OArray out_list)) as Hgrow.
    exists fraud_rings, ring_list, out_list. split; [|split; [|split]].
    + apply (get_mono _ _ h); [by etrans|]. by rewrite Hget.
    + apply (elements_mono _ h); [by etrans|]. by rewrite Helems.
    + unfold elements. by rewrite lookup_insert_eq.
    + eapply Forall2_impl; [exact Hall|]. intros ring out (v & Hring & Hout).
      exists v. split; by eapply get_mono.
  - intros i ring h2 out h3. unfold andThen.
    repeat match goal with
      | |- context [get ring ?name h2] =>
          let Hread := fresh "Hread" in
          pose proof (OnHeapFacts.reads_get ring name h2) as Hread;
          destruct (get ring name h2) as [[?|?] ?] eqn:?; [|done];
          cbn [snd] in Hread; subst
      end.
    unfold alloc. intros [= <- <-]. split; [apply alloc_grows|].
    eexists. split.
    + apply (get_mono _ _ h2); [apply alloc_grows|].
      match goal with H : get ring "member_accounts" h2 = _ |- _ => by rewrite H end.
    + unfold get. by rewrite lookup_insert_eq.
  - intros h2 h3 ring out Hsub (v & Hring & Hout). exists v. split; by eapply get_mono.
Qed.

Lemma rings_share_member_arrays_witness :
  ∃ fraud_rings ring_list out_list,
    (get Example.response_object "fraud_rings" Walkthrough.rings_run.2).1 =
      Return fraud_rings ∧
    (elements fraud_rings Walkthrough.rings_run.2).1 = Return ring_list ∧
    (elements Walkthrough.rings_value Walkthrough.rings_run.2).1 = Return out_list ∧
    Forall2 (fun ring out =>
               ∃ v, (get ring "member_accounts" Walkthrough.rings_run.2).1 = Return v ∧
                    (get out "accountIds" Walkthrough.rings_run.2).1 = Return v)
            ring_list out_list.
Proof.
  apply (rings_share_member_arrays Example.response_object Example.heap).
  vm_compute. reflexivity.
Defined.

End Sharing.

(** ** The rings-only filter *)

Section RingsOnlyFilter.

Lemma filter_sublist_impl {A} (p q : A → bool) (l : list A) :
  (∀ x, p x = true → q x = true) → List.filter p l `sublist_of` List.filter q l.
Proof.
  intros Himpl. induction l as [|x l IH]; cbn [List.filter]; [done|].
  destruct (p x) eqn:Hp.
  - rewrite (Himpl x Hp). by apply sublist_skip.
  - destruct (q x); [by apply sublist_cons|done].
Qed.

Lemma filter_sublist {A} (p : A → bool) (l : list A) : List.filter p l `sublist_of` l.
Proof.
  induction l as [|x l IH]; cbn [List.filter]; [done|].
  destruct (p x); [by apply sublist_skip|by apply sublist_cons].
Qed.

(** X23. Switching the rings-only filter on only hides elements: the
    element list built with the filter is a sub-list of the one built
    without it, so no node or edge appears, changes or moves because of the
    filter. *)
Theorem rings_only_filter_only_hides (accounts : list Account.t)
    (transactions : list Transaction.t) :
  build accounts transactions true `sublist_of` build accounts transactions false.
Proof.
  unfold build, base_elements, activeAccounts.
  change (@map Account.t Element.t) with (@fmap list _ Account.t Element.t).
  change (@map Transaction.t Element.t) with (@fmap list _ Transaction.t Element.t).
  apply sublist_app; apply fmap_sublist.
  - apply filter_sublist.
  - unfold activeTransactions. apply filter_sublist_impl.
    assert (∀ id,
              bool_decide (is_Some (find_account
                (List.filter (fun a => truthy_opt (Account.ringId a)) accounts) id)) = true →
              bool_decide (is_Some (find_account accounts id)) = true) as Hfound.
    { intros id (a & Hin & Hid)%bool_decide_eq_true_1%find_account_elem.
      apply bool_decide_eq_true_2, find_account_elem. exists a. split; [|done].
      apply list_elem_of_In, filter_In in Hin as [Hin _]. by apply list_elem_of_In. }
    intros t [Hs Ht]%andb_true_iff. by rewrite (Hfound _ Hs), (Hfound _ Ht).
Qed.

End RingsOnlyFilter.

(** ** The score bar and the autocomplete dropdown *)

Section SmallWidgets.

Local Open Scope Q_scope.

(** X25. The score bar never overflows its track: for every score, also a
    negative one or one above 100, the width is between 0 and 100 percent,
    and it is the score itself when the score is in that range. *)
Theorem score_bar_width_is_clamped (score : Q) :
  0 <= ScoreBar.width score ∧ ScoreBar.width score <= 100 ∧
  (0 <= score ∧ score <= 100 → ScoreBar.width score == score).
Proof.
  unfold ScoreBar.width, Math_min, Math_max. split; [|split].
  - apply Q.min_glb; [done|apply Q.le_max_l].
  - apply Q.le_min_l.
  - intros [Hlo Hhi]. rewrite (Q.max_r 0 score Hlo). by apply Q.min_r.
Qed.

Lemma score_bar_width_is_clamped_witness :
  0 <= ScoreBar.width 150 ∧ ScoreBar.width 150 <= 100 ∧ ScoreBar.width 72 == 72.
Proof.
  destruct (score_bar_width_is_clamped 150) as (Hlo & Hhi & _).
  destruct (score_bar_width_is_clamped 72) as (_ & _ & Hid).
  split; [exact Hlo|]. split; [exact Hhi|]. apply Hid. split; discriminate.
Defined.

(** X26. What the autocomplete dropdown offers: at most fifteen suggestions
    and one more row, every row is a registered account or, on the extra
    row, the typed text trimmed, which is then not empty and not a
    registered account; and [No matches] is shown exactly when there is no
    row to pick. *)
Theorem dropdown_rows (toLowerCase : string → string) (accounts : list string)
    (typed : string) :
  let items := SimulatorPanel.filteredAccounts toLowerCase accounts typed in
  let rows := SimulatorPanel.Dropdown.rows items typed accounts in
  (length rows ≤ 16)%nat ∧
  (∀ v, v ∈ rows → v ∈ accounts ∨ (v = trim typed ∧ v ≠ "" ∧ v ∉ accounts)) ∧
  (SimulatorPanel.Dropdown.noMatches items typed accounts = true ↔ rows = []).
Proof.
  cbv zeta. unfold SimulatorPanel.Dropdown.rows, SimulatorPanel.Dropdown.noMatches,
    SimulatorPanel.Dropdown.isNew, SimulatorPanel.filteredAccounts.
  set (found := List.filter _ accounts).
  assert (∀ v, v ∈ take 15 found → v ∈ accounts) as Hfound.
  { intros v Hin%(subseteq_take 15). unfold found in Hin.
    apply list_elem_of_In, filter_In in Hin as [Hin _]. by apply list_elem_of_In. }
  assert (length (take 15 found) ≤ 15)%nat as Hlen by (rewrite length_take; lia).
  destruct (0 <? String.length (trim typed))%nat eqn:Hnonempty;
    [destruct (bool_decide (trim typed ∈ accounts)) eqn:Hknown|]; cbn [andb negb].
  - rewrite app_nil_r. split; [lia|]. split; [by left; apply Hfound|].
    rewrite andb_true_r, Nat.eqb_eq. apply length_zero_iff_nil.
  - split; [rewrite length_app; simpl; lia|]. split.
    + intros v [Hin | ->%list_elem_of_singleton]%elem_of_app; [by left; apply Hfound|].
      right. split; [done|]. apply bool_decide_eq_false_1 in Hknown. split; [|done].
      intros Hempty. rewrite Hempty in Hnonempty. discriminate.
    + rewrite andb_false_r. split; [done|]. by intros [_ ?]%app_eq_nil.
  - rewrite app_nil_r. split; [lia|]. split; [by left; apply Hfound|].
    rewrite andb_true_r, Nat.eqb_eq. apply length_zero_iff_nil.
Qed.

End SmallWidgets.
